(** * serial-weight-reader: the decoding engine and the port life cycle

    A shallow embedding of [src/SerialWeightReader.js].  JavaScript strings
    are lists of characters, numbers that the code only uses as integers
    are [Z], [null] and [-1] keep the meaning they have in the source
    ([option] for a nullable number, [-1] for a failed index search), and the
    serial port, its timers and [RegExp] are the environment: the port is an
    oracle record, the regular-expression engine an interface with a small
    executable instance. *)

From Stdlib Require Import ZArith List Ascii String Bool Arith Lia.
From Stdlib Require Import Numbers.DecimalString.
Import ListNotations.

Open Scope Z_scope.

(** ** JavaScript string primitives used by the reader *)

Module JS.

Definition str := list ascii.

Definition lit (s : string) : str := list_ascii_of_string s.

Definition len (s : str) : Z := Z.of_nat (List.length s).

Definition str_eqb (a b : str) : bool :=
  if list_eq_dec ascii_dec a b then true else false.

(** [s.indexOf(c)] for a one-character needle; [-1] when absent. *)
Fixpoint indexOf (c : ascii) (s : str) : Z :=
  match s with
  | [] => -1
  | x :: t =>
      if Ascii.eqb x c then 0
      else let i := indexOf c t in if i =? -1 then -1 else i + 1
  end.

(** [s.lastIndexOf(c)] for a one-character needle; [-1] when absent. *)
Fixpoint lastIndexOf (c : ascii) (s : str) : Z :=
  match s with
  | [] => -1
  | x :: t =>
      let i := lastIndexOf c t in
      if i =? -1 then (if Ascii.eqb x c then 0 else -1) else i + 1
  end.

(** [s.substring(a)]: a negative index counts as 0. *)
Definition substring (a : Z) (s : str) : str := skipn (Z.to_nat a) s.

(** [s.substring(a, b)]: negative indices count as 0, the two bounds are
    swapped when [a > b]. *)
Definition substring2 (a b : Z) (s : str) : str :=
  let lo := Z.to_nat (Z.min a b) in
  let hi := Z.to_nat (Z.max a b) in
  firstn (hi - lo) (skipn lo s).

(** [s.includes(c)] for a one-character needle. *)
Definition includes (c : ascii) (s : str) : bool :=
  existsb (fun x => Ascii.eqb x c) s.

(** [s.split(c)]: the segments between the occurrences of [c]; always at
    least one segment. *)
Fixpoint split (c : ascii) (s : str) : list str :=
  match s with
  | [] => [[]]
  | x :: t =>
      if Ascii.eqb x c then [] :: split c t
      else match split c t with
           | h :: r => (x :: h) :: r
           | [] => [[x]]
           end
  end.

(** White space and line terminators among the code units below 256. *)
Definition isWhite (c : ascii) : bool :=
  let n := nat_of_ascii c in
  ((9 <=? n) && (n <=? 13) || (n =? 32) || (n =? 160))%nat.

Fixpoint trimStart (s : str) : str :=
  match s with
  | [] => []
  | x :: t => if isWhite x then trimStart t else s
  end.

Definition trim (s : str) : str := rev (trimStart (rev (trimStart s))).

(** Truthiness of a string: only the empty string is falsy. *)
Definition truthy (s : str) : bool :=
  match s with [] => false | _ :: _ => true end.

Definition isDigit (c : ascii) : bool :=
  let n := nat_of_ascii c in ((48 <=? n) && (n <=? 57))%nat.

Definition digitVal (c : ascii) : Z := Z.of_nat (nat_of_ascii c) - 48.

(** The longest prefix of decimal digits, folded into its value; the
    number of digits read is returned with it. *)
Fixpoint digits (acc : Z) (n : nat) (s : str) : Z * nat :=
  match s with
  | [] => (acc, n)
  | x :: t => if isDigit x then digits (10 * acc + digitVal x) (S n) t
              else (acc, n)
  end.

(** The optional sign in front of the digits. *)
Definition stripSign (s : str) : Z * str :=
  match s with
  | c :: t => if Ascii.eqb c "-" then (-1, t)
              else if Ascii.eqb c "+" then (1, t) else (1, s)
  | [] => (1, s)
  end.

(** The number value of a non-negative integer: JavaScript numbers are
    doubles, so an integer of more than 53 bits is rounded to the nearest
    one with 53 significant bits, ties to the even one (the engine of
    Node rounds the exact value).  The largest double is below [2^1024];
    what rounds to [2^1024] or beyond is [Infinity], written here as
    [2^1024], which is no double. *)
Definition toNumber (v : Z) : Z :=
  if v <? 2 ^ 53 then v
  else
    let e := Z.log2 v - 52 in
    let q := Z.shiftr v e in
    let rem := v - Z.shiftl q e in
    let half := Z.shiftl 1 (e - 1) in
    let q' := if (rem >? half) || ((rem =? half) && Z.odd q) then q + 1 else q in
    Z.min (Z.shiftl q' e) (2 ^ 1024).

(** [parseInt(s, 10)]: leading white space is skipped, one sign is accepted,
    then the longest digit prefix is read; [None] is [NaN].  The result is
    the number value of the integer read, with its sign ([-0] and [0] are
    one number here, as they are for [===]). *)
Definition parseInt10 (s : str) : option Z :=
  let '(sign, s2) := stripSign (trimStart s) in
  match digits 0 0 s2 with
  | (_, O) => None
  | (v, S _) => Some (sign * toNumber v)
  end.

(** A number in a template literal, for the integers the reader prints
    (their decimal digits, as JavaScript prints integers below [10^21]). *)
Definition numToString (z : Z) : str :=
  lit (NilZero.string_of_int (Z.to_int z)).

End JS.

Import JS.

(** Control characters of the two framings. *)
Definition STX : ascii := "002"%char.
Definition ETX : ascii := "003"%char.
Definition CR : ascii := "013"%char.
Definition LF : ascii := "010"%char.

(** ** The regular-expression engine

    [RegExp] is the JavaScript runtime's, not the repository's.  The reader
    is written against the interface [RegExpEngine]: [RegExp_new] is
    [new RegExp(pattern, 'gms')] ([None] when the constructor throws a
    [SyntaxError]) and [RegExp_exec] is [regex.exec(data)] on the fresh
    object (so [lastIndex] is 0): [None] for [null], otherwise [match[0]]
    and [match[1]], the latter [None] when it is [undefined]. *)

Class RegExpEngine := {
  RegExpObj : Type;
  RegExp_new : str -> option RegExpObj;
  RegExp_exec : RegExpObj -> str -> option (str * option str)
}.

(** A backtracking matcher for the fragment of the pattern language that
    the shipped configurations use: literals, [.], the escapes
    [\d \D \s \S \w \W \r \n \t] and escaped punctuation, classes with
    ranges and negation, capturing and [(?:...)] groups, alternation and
    the greedy quantifiers [* + ?].  Syntax errors of this fragment
    (unbalanced parentheses, unterminated class, dangling quantifier or
    backslash) make the constructor fail; so does anything outside the
    fragment, which no statement below relies on. *)
Module Mini.

Inductive citem :=
  | IChar (c : ascii)
  | IRange (lo hi : ascii)
  | IDigit (neg : bool)
  | ISpace (neg : bool)
  | IWord (neg : bool).

Inductive cset :=
  | CAny
  | CLit (c : ascii)
  | CSet (neg : bool) (items : list citem).

Inductive regex :=
  | REmpty
  | RChar (cs : cset)
  | RCat (r1 r2 : regex)
  | RAlt (r1 r2 : regex)
  | RStar (r : regex)
  | RGroup (idx : nat) (r : regex).

Definition inRange (lo hi c : ascii) : bool :=
  ((nat_of_ascii lo <=? nat_of_ascii c) && (nat_of_ascii c <=? nat_of_ascii hi))%nat.

Definition isWord (c : ascii) : bool :=
  inRange "a" "z" c || inRange "A" "Z" c || isDigit c || Ascii.eqb c "_".

Definition citem_mem (i : citem) (c : ascii) : bool :=
  match i with
  | IChar x => Ascii.eqb x c
  | IRange lo hi => inRange lo hi c
  | IDigit neg => xorb neg (isDigit c)
  | ISpace neg => xorb neg (isWhite c)
  | IWord neg => xorb neg (isWord c)
  end.

Definition cset_mem (cs : cset) (c : ascii) : bool :=
  match cs with
  | CAny => true
  | CLit x => Ascii.eqb x c
  | CSet neg items => xorb neg (existsb (fun i => citem_mem i c) items)
  end.

Definition caps := list (nat * str).

Fixpoint capture (i : nat) (cs : caps) : option str :=
  match cs with
  | [] => None
  | (j, v) :: t => if Nat.eqb i j then Some v else capture i t
  end.

(** [rmatch r s cs k]: match [r] at the head of [s], then continue with
    [k] on the rest; the first success in priority order wins.  A star
    iteration that consumes nothing is rejected, as in the language. *)
Fixpoint rmatch (r : regex) (s : str) (cs : caps)
    (k : str -> caps -> option (str * caps)) {struct r} : option (str * caps) :=
  match r with
  | REmpty => k s cs
  | RChar p =>
      match s with
      | c :: t => if cset_mem p c then k t cs else None
      | [] => None
      end
  | RCat r1 r2 => rmatch r1 s cs (fun s1 cs1 => rmatch r2 s1 cs1 k)
  | RAlt r1 r2 =>
      match rmatch r1 s cs k with
      | Some x => Some x
      | None => rmatch r2 s cs k
      end
  | RStar r1 =>
      (fix star (n : nat) (s : str) (cs : caps) {struct n} : option (str * caps) :=
         match n with
         | O => k s cs
         | S n' =>
             match rmatch r1 s cs
                     (fun s1 cs1 =>
                        if (List.length s1 <? List.length s)%nat
                        then star n' s1 cs1 else None) with
             | Some x => Some x
             | None => k s cs
             end
         end) (List.length s) s cs
  | RGroup i r1 =>
      rmatch r1 s cs
        (fun s1 cs1 =>
           k s1 ((i, firstn (List.length s - List.length s1) s) :: cs1))
  end.

(** [exec] at [lastIndex = 0]: the leftmost start position that matches. *)
Fixpoint search (r : regex) (s : str) : option (str * option str) :=
  match rmatch r s [] (fun s1 cs1 => Some (s1, cs1)) with
  | Some (s1, cs1) =>
      Some (firstn (List.length s - List.length s1) s, capture 1 cs1)
  | None =>
      match s with
      | [] => None
      | _ :: t => search r t
      end
  end.

(** *** Parsing a pattern string *)

Definition isSyntaxChar (c : ascii) : bool :=
  existsb (Ascii.eqb c) (lit "^$\.*+?()[]{}|").

Definition isAlnum (c : ascii) : bool :=
  inRange "a" "z" c || inRange "A" "Z" c || isDigit c.

(** The character or class an escape [\c] denotes. *)
Definition escape (c : ascii) : option citem :=
  if Ascii.eqb c "d" then Some (IDigit false)
  else if Ascii.eqb c "D" then Some (IDigit true)
  else if Ascii.eqb c "s" then Some (ISpace false)
  else if Ascii.eqb c "S" then Some (ISpace true)
  else if Ascii.eqb c "w" then Some (IWord false)
  else if Ascii.eqb c "W" then Some (IWord true)
  else if Ascii.eqb c "r" then Some (IChar CR)
  else if Ascii.eqb c "n" then Some (IChar LF)
  else if Ascii.eqb c "t" then Some (IChar "009")
  else if isAlnum c then None
  else Some (IChar c).

(** The items of a class, after its opening bracket, up to the closing one. *)
Fixpoint parseClass (s : str) (acc : list citem) : option (list citem * str) :=
  match s with
  | [] => None
  | c :: t =>
      if Ascii.eqb c "]" then Some (rev acc, t)
      else if Ascii.eqb c "\" then
        match t with
        | e :: t' =>
            match escape e with
            | Some i => parseClass t' (i :: acc)
            | None => None
            end
        | [] => None
        end
      else
        match t with
        | d :: hi :: t' =>
            if Ascii.eqb d "-" && negb (Ascii.eqb hi "]") then
              if Ascii.eqb hi "\" then None
              else if (nat_of_ascii c <=? nat_of_ascii hi)%nat
                   then parseClass t' (IRange c hi :: acc)
                   else None
            else parseClass t (IChar c :: acc)
        | _ => parseClass t (IChar c :: acc)
        end
  end.

(** Disjunction, alternative, quantified term and atom, by recursive
    descent; [n] is the index of the next capturing group. *)
Fixpoint parseDisj (fuel : nat) (s : str) (n : nat) {struct fuel}
    : option (regex * str * nat) :=
  match fuel with
  | O => None
  | S f =>
      match parseSeq f s n with
      | Some (r1, t, n1) =>
          match t with
          | c :: t' =>
              if Ascii.eqb c "|" then
                match parseDisj f t' n1 with
                | Some (r2, t2, n2) => Some (RAlt r1 r2, t2, n2)
                | None => None
                end
              else Some (r1, t, n1)
          | [] => Some (r1, t, n1)
          end
      | None => None
      end
  end
with parseSeq (fuel : nat) (s : str) (n : nat) {struct fuel}
    : option (regex * str * nat) :=
  match fuel with
  | O => None
  | S f =>
      match s with
      | [] => Some (REmpty, [], n)
      | c :: _ =>
          if Ascii.eqb c ")" || Ascii.eqb c "|" then Some (REmpty, s, n)
          else
            match parseTerm f s n with
            | Some (r1, t, n1) =>
                match parseSeq f t n1 with
                | Some (r2, t2, n2) => Some (RCat r1 r2, t2, n2)
                | None => None
                end
            | None => None
            end
      end
  end
with parseTerm (fuel : nat) (s : str) (n : nat) {struct fuel}
    : option (regex * str * nat) :=
  match fuel with
  | O => None
  | S f =>
      match parseAtom f s n with
      | Some (r, t, n1) =>
          match t with
          | q :: t' =>
              if Ascii.eqb q "*" then Some (RStar r, t', n1)
              else if Ascii.eqb q "+" then Some (RCat r (RStar r), t', n1)
              else if Ascii.eqb q "?" then Some (RAlt r REmpty, t', n1)
              else Some (r, t, n1)
          | [] => Some (r, t, n1)
          end
      | None => None
      end
  end
with parseAtom (fuel : nat) (s : str) (n : nat) {struct fuel}
    : option (regex * str * nat) :=
  match fuel with
  | O => None
  | S f =>
      match s with
      | [] => None
      | c :: t =>
          if Ascii.eqb c "(" then
            match t with
            | q :: t1 =>
                if Ascii.eqb q "?" then
                  match t1 with
                  | k :: t2 =>
                      if Ascii.eqb k ":" then
                        match parseDisj f t2 n with
                        | Some (r, e :: t3, n1) =>
                            if Ascii.eqb e ")" then Some (r, t3, n1) else None
                        | _ => None
                        end
                      else None
                  | [] => None
                  end
                else
                  match parseDisj f t (S n) with
                  | Some (r, e :: t3, n1) =>
                      if Ascii.eqb e ")" then Some (RGroup n r, t3, n1) else None
                  | _ => None
                  end
            | [] => None
            end
          else if Ascii.eqb c "[" then
            match t with
            | h :: t1 =>
                if Ascii.eqb h "^" then
                  match parseClass t1 [] with
                  | Some (items, t2) => Some (RChar (CSet true items), t2, n)
                  | None => None
                  end
                else
                  match parseClass t [] with
                  | Some (items, t2) => Some (RChar (CSet false items), t2, n)
                  | None => None
                  end
            | [] => None
            end
          else if Ascii.eqb c "\" then
            match t with
            | e :: t1 =>
                match escape e with
                | Some i => Some (RChar (CSet false [i]), t1, n)
                | None => None
                end
            | [] => None
            end
          else if Ascii.eqb c "." then Some (RChar CAny, t, n)
          else if isSyntaxChar c then None
          else Some (RChar (CLit c), t, n)
      end
  end.

(** [new RegExp(p, 'gms')] on the fragment. *)
Definition compile (p : str) : option regex :=
  match parseDisj (4 * List.length p + 8) p 1 with
  | Some (r, [], _) => Some r
  | _ => None
  end.

End Mini.

#[export] Instance MiniEngine : RegExpEngine := {
  RegExpObj := Mini.regex;
  RegExp_new := Mini.compile;
  RegExp_exec := Mini.search
}.

(** [exec] of a pattern string on a text, when the pattern compiles. *)
Definition execPattern (p : string) (data : str) : option (option (str * option str)) :=
  option_map (fun regex => RegExp_exec regex data) (RegExp_new (lit p)).

(** ** The reader: configuration, state and environment *)

(** [this.config], as [loadConfiguration] builds it. *)
Record Config := {
  config_port : str;
  baudRate : Z;
  dataBits : Z;
  parity : str;
  stopBits : Z;
  rtscts : bool;
  xon : bool;
  xoff : bool;
  xany : bool;
  dtr : bool;
  rts : bool;
  hupcl : bool;
  openDelay : Z;
  closeDelay : Z;
  protocolType : str;
  regexFilter : str;
  readTimeout : Z;
  logLevel : str
}.

(** What the reader does to the outside, in the order it does it: calls
    on the port object, timer waits that it awaits, entries of level
    [warn] or [error] in the log, and the entry into [closePort]. *)
Inductive Effect :=
  | ENewSerialPort (path : str) (baud data : Z) (par : str) (stop : Z)
      (rtscts xon xoff xany hupcl autoOpen : bool)
  | EOpen
  | ESet (dtr rts : bool) (brk : option bool)
  | EWait (ms : Z)
  | EClose
  | EClosePort
  | EWarnSignals (msg : str)
  | EErrorRegex
  | EErrorReadFailed (msg : str)
  | EErrorClosing (msg : str).

(** The fields of [this] that change during a session.  [port] is
    [this.port]: [None] for [null], otherwise the port object's [isOpen]. *)
Record Reader := {
  config : Config;
  port : option bool;
  dataBuffer : str;
  trace : list Effect
}.

Definition emit (e : Effect) (r : Reader) : Reader :=
  {| config := config r; port := port r; dataBuffer := dataBuffer r;
     trace := trace r ++ [e] |}.

Definition setBuffer (b : str) (r : Reader) : Reader :=
  {| config := config r; port := port r; dataBuffer := b; trace := trace r |}.

Definition setPort (p : option bool) (r : Reader) : Reader :=
  {| config := config r; port := p; dataBuffer := dataBuffer r; trace := trace r |}.

(** Events the port emits while the reader collects. *)
Inductive PortEvent :=
  | Data (chunk : str)
  | PortError (msg : str).

(** How [port.close(callback)] ends. *)
Inductive CloseOutcome :=
  | CloseOk
  | CloseCallbackError
  | CloseThrows (msg : str).

(** The environment of one session: what the port library and the clock
    answer.  [incoming] lists the events the port emits while it is open,
    in order, from the start of collection on; they all arrive before the
    read timer would fire and before [closePort] has closed the port.
    Every callback that the library owes is eventually called. *)
Record Driver := {
  ctorError : option str;
  openError : option str;
  openSetError : option str;
  incoming : list PortEvent;
  closeSetThrows : option str;
  closeOutcome : CloseOutcome;
  now_start : Z;
  now_end : Z
}.

(** ** Pattern extraction and the two decoders *)

Section Decoder.

Context {E : RegExpEngine}.

(** [match[1] || match[0]], line 334: the first group when it is a
    non-empty string, the whole match otherwise. *)
Definition weightStrOf (m0 : str) (m1 : option str) : str :=
  match m1 with
  | Some g => if truthy g then g else m0
  | None => m0
  end.

(** [applyRegexFilter(data)], lines 321-352.  The [catch] branch is the
    one the [RegExp] constructor can reach. *)
Definition applyRegexFilter (data : str) (r : Reader) : option Z * Reader :=
  if negb (truthy (regexFilter (config r))) then (None, r)
  else
    match RegExp_new (regexFilter (config r)) with
    | None => (None, emit EErrorRegex r)
    | Some regex =>
        match RegExp_exec regex data with
        | Some (m0, m1) =>
            match parseInt10 (weightStrOf m0 m1) with
            | Some weight => (Some weight, r)
            | None => (None, r)
            end
        | None => (None, r)
        end
    end.

(** The tail of [processFrameProtocol], lines 279-291. *)
Definition clearOldData (r : Reader) : Reader :=
  if len (dataBuffer r) >? 1000 then
    let recentStx := lastIndexOf STX (dataBuffer r) in
    if negb (recentStx =? -1)
    then setBuffer (substring recentStx (dataBuffer r)) r
    else setBuffer [] r
  else r.

(** [processFrameProtocol(data)], lines 250-292. *)
Definition processFrameProtocol (data : str) (r : Reader) : option Z * Reader :=
  let lastStxIndex := lastIndexOf STX (dataBuffer r) in
  if negb (lastStxIndex =? -1) then
    let frameBuffer := substring lastStxIndex (dataBuffer r) in
    let etxIndex := indexOf ETX frameBuffer in
    if negb (etxIndex =? -1) then
      let frame := substring2 0 (etxIndex + 1) frameBuffer in
      let '(weight, r1) := applyRegexFilter frame r in
      match weight with
      | Some w =>
          (Some w,
           setBuffer (substring (lastStxIndex + etxIndex + 1) (dataBuffer r1)) r1)
      | None => (None, clearOldData r1)
      end
    else (None, clearOldData r)
  else (None, clearOldData r).

(** The [for] loop of [processLineProtocol], lines 304-311. *)
Fixpoint scanLines (lines : list str) (r : Reader) : option Z * Reader :=
  match lines with
  | [] => (None, r)
  | line :: rest =>
      if truthy (trim line) then
        let '(weight, r1) := applyRegexFilter (line ++ [CR]) r in
        match weight with
        | Some w => (Some w, r1)
        | None => scanLines rest r1
        end
      else scanLines rest r
  end.

(** [processLineProtocol(data)], lines 299-314. *)
Definition processLineProtocol (data : str) (r : Reader) : option Z * Reader :=
  if includes CR data then scanLines (split CR (dataBuffer r)) r
  else (None, r).

End Decoder.

(** ** One session: collection, closing, [readWeight] *)

(** The object [collectData] resolves with. *)
Record Collected := {
  weight : Z;
  rawData : str
}.

(** The closure of [collectData]: its two local variables, whether the
    timer is still pending, whether the ['data'] and ['error'] listeners
    are attached, and the promise, which keeps the first settlement
    ([inl] a rejection message, [inr] a resolution).  [unhandled] is the
    first ['error'] event that the port emitted with no listener attached:
    the emitter throws such an event, nothing catches it, and the process
    ends. *)
Record Collect := {
  weightExtracted : option Z;
  lastValidWeight : option Z;
  timer : bool;
  onData : bool;
  onError : bool;
  settled : option (str + Collected);
  unhandled : option str
}.

Definition settle (v : str + Collected) (c : Collect) : Collect :=
  {| weightExtracted := weightExtracted c;
     lastValidWeight := lastValidWeight c;
     timer := timer c; onData := onData c; onError := onError c;
     settled := match settled c with Some old => Some old | None => Some v end;
     unhandled := unhandled c |}.

Definition clearTimeout (c : Collect) : Collect :=
  {| weightExtracted := weightExtracted c;
     lastValidWeight := lastValidWeight c;
     timer := false; onData := onData c; onError := onError c;
     settled := settled c; unhandled := unhandled c |}.

Definition removeAllListeners (c : Collect) : Collect :=
  {| weightExtracted := weightExtracted c;
     lastValidWeight := lastValidWeight c;
     timer := timer c; onData := false; onError := false;
     settled := settled c; unhandled := unhandled c |}.

Definition setWeights (w l : option Z) (c : Collect) : Collect :=
  {| weightExtracted := w; lastValidWeight := l;
     timer := timer c; onData := onData c; onError := onError c;
     settled := settled c; unhandled := unhandled c |}.

(** An ['error'] event emitted while no ['error'] listener is attached. *)
Definition throwUnhandled (msg : str) (c : Collect) : Collect :=
  {| weightExtracted := weightExtracted c;
     lastValidWeight := lastValidWeight c;
     timer := timer c; onData := onData c; onError := onError c;
     settled := settled c;
     unhandled := match unhandled c with Some old => Some old | None => Some msg end |}.

Definition isFrame (cfg : Config) : bool := str_eqb (protocolType cfg) (lit "frame").

(** The message of line 123, thrown when the port does not open. *)
Definition openFailedMessage (cfg : Config) (msg : str) : str :=
  lit "Failed to open port " ++ config_port cfg ++ lit ": " ++ msg.

(** The message of line 195. *)
Definition timeoutMessage (cfg : Config) : str :=
  lit "Timeout: No valid weight data received in "
  ++ numToString (readTimeout cfg) ++ lit "ms".

(** The closure when [collectData] has armed the timer and attached its
    listeners: both variables [null], the promise pending. *)
Definition freshCollect : Collect :=
  {| weightExtracted := None; lastValidWeight := None;
     timer := true; onData := true; onError := true; settled := None;
     unhandled := None |}.

Section Session.

Context {E : RegExpEngine}.

(** The timer callback, lines 187-197. *)
Definition timeoutHandler (r : Reader) (c : Collect) : Reader * Collect :=
  match lastValidWeight c with
  | Some w => (r, settle (inr {| weight := w; rawData := dataBuffer r |}) c)
  | None => (r, settle (inl (timeoutMessage (config r))) c)
  end.

(** The choice of the decoder, lines 207-211. *)
Definition decodeChunk (data : str) (r : Reader) : option Z * Reader :=
  if isFrame (config r) then processFrameProtocol data r
  else processLineProtocol data r.

(** The ['data'] listener, lines 200-235. *)
Definition dataHandler (data : str) (r : Reader) (c : Collect) : Reader * Collect :=
  let r0 := setBuffer (dataBuffer r ++ data) r in
  let '(extracted, r1) := decodeChunk data r0 in
  match extracted with
  | Some w =>
      let c1 := setWeights (Some w) (Some w) c in
      let res := inr {| weight := w; rawData := dataBuffer r1 |} in
      if isFrame (config r1)
      then (r1, settle res (removeAllListeners (clearTimeout c1)))
      else (r1, settle res (clearTimeout c1))
  | None => (r1, setWeights None (lastValidWeight c) c)
  end.

(** The ['error'] listener, lines 238-241. *)
Definition errorHandler (msg : str) (r : Reader) (c : Collect) : Reader * Collect :=
  (r, settle (inl (lit "Serial port error: " ++ msg)) (clearTimeout c)).

(** One event reaches the listener attached for it.  Listeners are only
    missing after a frame-mode reading has removed them, lines 220-221,
    which happens while the port is still open.  A chunk without a
    ['data'] listener is dropped; an ['error'] event without an ['error']
    listener is thrown by the emitter and ends the process. *)
Definition deliver (st : Reader * Collect) (ev : PortEvent) : Reader * Collect :=
  let '(r, c) := st in
  match ev with
  | Data chunk => if onData c then dataHandler chunk r c else (r, c)
  | PortError msg =>
      if onError c then errorHandler msg r c else (r, throwUnhandled msg c)
  end.

(** The events of the session delivered in order, from the empty buffer
    of line 183. *)
Definition collectRun (d : Driver) (r : Reader) : Reader * Collect :=
  fold_left deliver (incoming d) (setBuffer [] r, freshCollect).

(** [collectData()], lines 181-243: the events are delivered in order, then
    the timer fires unless it was cleared.  The result is the promise:
    [None] would be a promise that never settles. *)
Definition collectData (d : Driver) (r : Reader) : option (str + Collected) * Reader :=
  let '(r1, c1) := collectRun d r in
  let '(r2, c2) := if timer c1 then timeoutHandler r1 c1 else (r1, c1) in
  (settled c2, r2).

(** [closePort()], lines 370-396. *)
Definition closePort (d : Driver) (r : Reader) : Reader :=
  let r := emit EClosePort r in
  match port r with
  | Some true =>
      let cfg := config r in
      let signalled :=
        if closeDelay cfg >? 0 then
          let r1 := emit (ESet (dtr cfg) (rts cfg) None) r in
          match closeSetThrows d with
          | Some msg => inl (msg, r1)
          | None => inr (emit (EWait (closeDelay cfg)) r1)
          end
        else inr r in
      match signalled with
      | inl (msg, r1) => emit (EErrorClosing msg) r1
      | inr r1 =>
          let r2 := emit EClose r1 in
          match closeOutcome d with
          | CloseOk => setPort (Some false) r2
          | CloseCallbackError => r2
          | CloseThrows msg => emit (EErrorClosing msg) r2
          end
      end
  | _ => r
  end.

(** What [readWeight] returns. *)
Inductive SessionResult :=
  | Success (weight : Z) (protocol : str) (rawData : str) (readTime : Z)
  | Failure (error : str) (readTime : Z).

(** The [catch] block of [readWeight], lines 165-174. *)
Definition readFailed (d : Driver) (msg : str) (r : Reader) : Reader * option SessionResult :=
  let r1 := closePort d (emit (EErrorReadFailed msg) r) in
  (r1, Some (Failure msg (now_end d - now_start d))).

(** The call [new SerialPort({...})], lines 105-117. *)
Definition newSerialPort (cfg : Config) : Effect :=
  ENewSerialPort (config_port cfg) (baudRate cfg) (dataBits cfg) (parity cfg)
    (stopBits cfg) (rtscts cfg) (xon cfg) (xoff cfg) (xany cfg) (hupcl cfg) false.

(** The open sequence of [readWeight], lines 105-145: [inl] is the error
    the [try] block throws. *)
Definition openPort (d : Driver) (r : Reader) : (str + unit) * Reader :=
  let cfg := config r in
  match ctorError d with
  | Some msg => (inl msg, r)
  | None =>
      let r1 := setPort (Some false) (emit (newSerialPort cfg) r) in
      let r2 := emit EOpen r1 in
      match openError d with
      | Some msg =>
          (inl (openFailedMessage cfg msg), r2)
      | None =>
          let r3 := emit (ESet (dtr cfg) (rts cfg) (Some false)) (setPort (Some true) r2) in
          let r4 := match openSetError d with
                    | Some msg => emit (EWarnSignals msg) r3
                    | None => r3
                    end in
          (inr tt, emit (EWait (openDelay cfg)) r4)
      end
  end.

(** [readWeight()], lines 98-175.  [None] is a call that does not return.
    That is the case when an ['error'] event of the session found no
    listener: the process ends before the port is closed, and the reader
    is then given as the events left it (how far [closePort] had come
    depends on when the event arrived). *)
Definition readWeight (d : Driver) (r : Reader) : Reader * option SessionResult :=
  match openPort d r with
  | (inl msg, r1) => readFailed d msg r1
  | (inr _, r1) =>
      match unhandled (snd (collectRun d r1)) with
      | Some _ => (fst (collectRun d r1), None)
      | None =>
          match collectData d r1 with
          | (Some (inr result), r2) =>
              let r3 := closePort d r2 in
              (r3, Some (Success (weight result) (protocolType (config r3))
                           (rawData result) (now_end d - now_start d)))
          | (Some (inl msg), r2) => readFailed d msg r2
          | (None, r2) => (r2, None)
          end
      end
  end.

End Session.

(** [loadConfiguration], line 76: the pattern is taken from the properties
    as it is, with a default when absent or empty. *)
Definition loadRegexFilter (prop : option str) : str :=
  match prop with
  | Some v => if truthy v then v else lit "(\d+)"
  | None => lit "(\d+)"
  end.

(** The constructor, lines 11-20, once the configuration is loaded. *)
Definition newReader (cfg : Config) : Reader :=
  {| config := cfg; port := None; dataBuffer := []; trace := [] |}.

(** ** Sample configurations and environments *)

Definition sampleConfig (proto pattern : string) (d r : bool) (od cd : Z) : Config :=
  {| config_port := lit "COM3"; baudRate := 9600; dataBits := 8;
     parity := lit "none"; stopBits := 1;
     rtscts := false; xon := false; xoff := false; xany := false;
     dtr := d; rts := r; hupcl := false;
     openDelay := od; closeDelay := cd;
     protocolType := lit proto; regexFilter := lit pattern;
     readTimeout := 3000; logLevel := lit "info" |}.

Definition coquimbito : Config := sampleConfig "line" "[D@F](\d+)" false false 100 100.

Definition sanJuan : Config :=
  sampleConfig "frame" "1\r\n\s*(\d+)\s*\r\n\s*0" false false 50 50.

(** A port that opens, delivers [evs] and closes without trouble. *)
Definition quietDriver (evs : list PortEvent) : Driver :=
  {| ctorError := None; openError := None; openSetError := None;
     incoming := evs; closeSetThrows := None; closeOutcome := CloseOk;
     now_start := 0; now_end := 0 |}.

Definition frameSample : str :=
  [STX] ++ lit "garbage" ++ [STX] ++ lit "1" ++ [CR; LF] ++ lit "20450"
  ++ [CR; LF] ++ lit "0" ++ [ETX].

(** ** Auxiliary notions for the proofs *)

(** [r1] is [r0] up to the buffer and to regex-error entries added to the
    log: what the decoders may change. *)
Definition sameDevice (r0 r1 : Reader) : Prop :=
  config r1 = config r0 /\ port r1 = port r0 /\
  exists n, trace r1 = trace r0 ++ repeat EErrorRegex n.

(** What one delivered event does to the closure: nothing when a chunk
    finds no listener, a chunk without a reading only resets
    [weightExtracted], a chunk with a reading records it and settles, an
    error rejects, or is thrown when it finds no listener. *)
Inductive Step (r : Reader) (c : Collect) : PortEvent -> Reader -> Collect -> Prop :=
  | StepIgnored ev : Step r c ev r c
  | StepNoReading chunk r1 :
      onData c = true ->
      Step r c (Data chunk) r1 (setWeights None (lastValidWeight c) c)
  | StepReading chunk r1 w :
      onData c = true ->
      isFrame (config r) = false ->
      Step r c (Data chunk) r1
        (settle (inr {| weight := w; rawData := dataBuffer r1 |})
           (clearTimeout (setWeights (Some w) (Some w) c)))
  | StepFrameReading chunk r1 w :
      onData c = true ->
      isFrame (config r) = true ->
      Step r c (Data chunk) r1
        (settle (inr {| weight := w; rawData := dataBuffer r1 |})
           (removeAllListeners (clearTimeout (setWeights (Some w) (Some w) c))))
  | StepError msg :
      onError c = true ->
      Step r c (PortError msg) r
        (settle (inl (lit "Serial port error: " ++ msg)) (clearTimeout c))
  | StepUnhandled msg :
      onError c = false ->
      Step r c (PortError msg) r (throwUnhandled msg c).

(** The timer is pending exactly as long as the promise is unsettled, and
    then nothing was recorded and both listeners are attached; a resolved
    promise has a recorded reading. *)
Definition Inv (c : Collect) : Prop :=
  (timer c = true ->
   settled c = None /\ lastValidWeight c = None /\
   onData c = true /\ onError c = true) /\
  (timer c = false -> settled c <> None) /\
  (forall res, settled c = Some (inr res) -> lastValidWeight c <> None).

(** Entries into [closePort] in the log of effects. *)
Definition isClosePort (e : Effect) : bool :=
  match e with EClosePort => true | _ => false end.

(** Calls of the library's [close] in the log of effects. *)
Definition isClose (e : Effect) : bool :=
  match e with EClose => true | _ => false end.

(** The same environment with other answers to the two calls of
    [closePort]. *)
Definition withClose (d : Driver) (s : option str) (o : CloseOutcome) : Driver :=
  {| ctorError := ctorError d; openError := openError d;
     openSetError := openSetError d; incoming := incoming d;
     closeSetThrows := s; closeOutcome := o;
     now_start := now_start d; now_end := now_end d |}.

(** How often an effect of some kind occurs in the log. *)
Definition count (f : Effect -> bool) (r : Reader) : nat :=
  List.length (filter f (trace r)).

(** A result is well formed for a session: the elapsed time is the clock
    difference, and a success names the configured protocol. *)
Definition wellFormed (d : Driver) (cfg : Config) (res : SessionResult) : Prop :=
  match res with
  | Success _ p _ t => p = protocolType cfg /\ t = now_end d - now_start d
  | Failure _ t => t = now_end d - now_start d
  end.

(** The log entry of the open sequence when the signal-set reports an
    error, and of [closePort] when [close] throws. *)
Definition openWarning (d : Driver) : list Effect :=
  match openSetError d with
  | Some msg => [EWarnSignals msg]
  | None => []
  end.

Definition closeLog (d : Driver) : list Effect :=
  match closeOutcome d with
  | CloseThrows msg => [EErrorClosing msg]
  | _ => []
  end.

(** Every signal-set call in a log passes the configured levels. *)
Definition configuredLevels (cfg : Config) (e : Effect) : Prop :=
  match e with
  | ESet a b _ => a = dtr cfg /\ b = rts cfg
  | _ => True
  end.

(** A reader whose port is open, as [closePort] finds it after a
    collection. *)
Definition openReader (cfg : Config) : Reader :=
  {| config := cfg; port := Some true; dataBuffer := []; trace := [] |}.

(** A pattern that is configured and that the [RegExp] constructor
    rejects. *)
Definition malformed {E : RegExpEngine} (cfg : Config) : Prop :=
  truthy (regexFilter cfg) = true /\ RegExp_new (regexFilter cfg) = None.

(** No transport error among the events. *)
Definition noPortError (evs : list PortEvent) : Prop :=
  forall msg, ~ In (PortError msg) evs.

(** Every ['error'] event of the session finds the listener of lines
    238-241 attached: none arrives after a frame-mode reading has removed
    it. *)
Definition errorsHandled {E : RegExpEngine} (d : Driver) (r : Reader) : Prop :=
  unhandled (snd (collectRun d r)) = None.

(** A line configuration whose pattern does not compile. *)
Definition brokenPattern : Config := sampleConfig "line" "(" false false 100 100.

(** The value of a string of decimal digits. *)
Definition decimalValue (ds : str) : Z :=
  fold_left (fun a c => 10 * a + digitVal c) ds 0.

Definition startsWithDigit (s : str) : bool :=
  match s with
  | c :: _ => isDigit c
  | [] => false
  end.

(** A text that is an integer from its first to its last character: an
    optional sign and at least one digit, nothing else. *)
Definition isIntegerText (s : str) : bool :=
  let t := snd (stripSign s) in
  truthy t && forallb isDigit t.

(** The candidate units of a buffer in line mode: its segments between
    terminators that are not blank, each with the terminator put back. *)
Definition candidateLines (buf : str) : list str :=
  map (fun line => line ++ [CR]) (filter (fun line => truthy (trim line)) (split CR buf)).

(** The reading of the first unit that yields one. *)
Fixpoint firstReading {E : RegExpEngine} (r : Reader) (units : list str) : option Z :=
  match units with
  | [] => None
  | u :: rest =>
      match fst (applyRegexFilter u r) with
      | Some w => Some w
      | None => firstReading r rest
      end
  end.

(** A line configuration with the given pattern. *)
Definition linePattern (pattern : string) : Config :=
  sampleConfig "line" pattern false false 100 100.

(** What the line decoder returns for a chunk that arrives when the buffer
    holds [buf]. *)
Definition lineScan {E : RegExpEngine} (r : Reader) (buf chunk : str) : option Z :=
  if includes CR chunk then firstReading r (candidateLines (buf ++ chunk)) else None.

(** Chunks that arrive one after the other on the buffer [buf] and yield
    no reading. *)
Fixpoint noReadingYet {E : RegExpEngine} (r : Reader) (buf : str) (chunks : list str) : Prop :=
  match chunks with
  | [] => True
  | chunk :: rest => lineScan r buf chunk = None /\ noReadingYet r (buf ++ chunk) rest
  end.

(** ** Further code of the reader *)

(** [s.replace(/c/g, by)] for a one-character pattern: every occurrence of
    [c] becomes [by]. *)
Definition replaceAll (c : ascii) (by_ : str) (s : str) : str :=
  flat_map (fun x => if Ascii.eqb x c then by_ else [x]) s.

(** [formatControlChars(data)], lines 359-365: four passes, in this
    order. *)
Definition formatControlChars (data : str) : str :=
  replaceAll LF (lit "[LF]")
    (replaceAll CR (lit "[CR]")
       (replaceAll ETX (lit "[ETX]")
          (replaceAll STX (lit "[STX]") data))).

(** The four characters that [formatControlChars] rewrites. *)
Definition isControl (c : ascii) : bool :=
  Ascii.eqb c STX || Ascii.eqb c ETX || Ascii.eqb c CR || Ascii.eqb c LF.

(** What one character becomes in the formatted text. *)
Definition controlName (c : ascii) : str :=
  if Ascii.eqb c STX then lit "[STX]"
  else if Ascii.eqb c ETX then lit "[ETX]"
  else if Ascii.eqb c CR then lit "[CR]"
  else if Ascii.eqb c LF then lit "[LF]"
  else [c].

(** The same environment with other events. *)
Definition withIncoming (d : Driver) (evs : list PortEvent) : Driver :=
  {| ctorError := ctorError d; openError := openError d;
     openSetError := openSetError d; incoming := evs;
     closeSetThrows := closeSetThrows d; closeOutcome := closeOutcome d;
     now_start := now_start d; now_end := now_end d |}.

(** The same environment with another answer of the signal-set that
    follows the opening. *)
Definition withOpenSet (d : Driver) (e : option str) : Driver :=
  {| ctorError := ctorError d; openError := openError d;
     openSetError := e; incoming := incoming d;
     closeSetThrows := closeSetThrows d; closeOutcome := closeOutcome d;
     now_start := now_start d; now_end := now_end d |}.

(** Two readers that a session cannot tell apart: same configuration,
    same buffer. *)
Definition sameView (r r' : Reader) : Prop :=
  config r = config r' /\ dataBuffer r = dataBuffer r'.

(** A pattern that [applyRegexFilter] can use without an exception: none
    configured, or one that the [RegExp] constructor accepts. *)
Definition compiles {E : RegExpEngine} (cfg : Config) : Prop :=
  truthy (regexFilter cfg) = false \/ RegExp_new (regexFilter cfg) <> None.

(** What [closePort] does on an open port, in order. *)
Definition closeSequence (d : Driver) (cfg : Config) : list Effect :=
  EClosePort ::
  (if closeDelay cfg >? 0 then
     ESet (dtr cfg) (rts cfg) None ::
     match closeSetThrows d with
     | Some msg => [EErrorClosing msg]
     | None => EWait (closeDelay cfg) :: EClose :: closeLog d
     end
   else EClose :: closeLog d).

(** The error entry of the [catch] block of [readWeight]. *)
Definition failureLog (res : option SessionResult) : list Effect :=
  match res with
  | Some (Failure msg _) => [EErrorReadFailed msg]
  | _ => []
  end.

(** *** Loading the configuration *)

(** A value that [properties.get] may return, as far as the loader can
    tell values apart: a string, or anything else (a number, a boolean,
    [null]) given by its conversion to a string and its truthiness. *)
Inductive JSValue :=
  | JString (s : str)
  | JOther (text : str) (truth : bool).

Definition JNull : JSValue := JOther (lit "null") false.
Definition JTrue : JSValue := JOther (lit "true") true.

(** A number that is an integer: its decimal text, falsy when 0. *)
Definition JNumber (z : Z) : JSValue := JOther (numToString z) (negb (z =? 0)).

Definition toText (v : JSValue) : str :=
  match v with
  | JString s => s
  | JOther text _ => text
  end.

Definition valueTruthy (v : JSValue) : bool :=
  match v with
  | JString s => truthy s
  | JOther _ truth => truth
  end.

Definition hexValue (c : ascii) : option Z :=
  let n := nat_of_ascii c in
  if isDigit c then Some (Z.of_nat n - 48)
  else if ((97 <=? n) && (n <=? 102))%nat then Some (Z.of_nat n - 87)
  else if ((65 <=? n) && (n <=? 70))%nat then Some (Z.of_nat n - 55)
  else None.

Fixpoint hexDigits (acc : Z) (n : nat) (s : str) : Z * nat :=
  match s with
  | [] => (acc, n)
  | x :: t =>
      match hexValue x with
      | Some v => hexDigits (16 * acc + v) (S n) t
      | None => (acc, n)
      end
  end.

(** [parseInt(s)] without a radix: as [parseInt(s, 10)], except that a
    text which, after white space and sign, begins with [0x] or [0X] is
    read in base 16. *)
Definition parseIntAuto (s : str) : option Z :=
  let '(sign, s2) := stripSign (trimStart s) in
  let '(v, n) :=
    match s2 with
    | z :: x :: t =>
        if Ascii.eqb z "0" && (Ascii.eqb x "x" || Ascii.eqb x "X")
        then hexDigits 0 0 t else digits 0 0 s2
    | _ => digits 0 0 s2
    end in
  match n with
  | O => None
  | S _ => Some (sign * toNumber v)
  end.

(** [parseInt(v) || dflt], as on lines 56-79: [NaN] and 0 are falsy. *)
Definition numberSetting (v : JSValue) (dflt : Z) : Z :=
  match parseIntAuto (toText v) with
  | Some z => if z =? 0 then dflt else z
  | None => dflt
  end.

(** [v || dflt], as on lines 55-82. *)
Definition textSetting (v : JSValue) (dflt : string) : JSValue :=
  if valueTruthy v then v else JString (lit dflt).

(** [v === 'true' ? true : false], lines 62-68. *)
Definition flagSetting (v : JSValue) : bool :=
  match v with
  | JString s => str_eqb s (lit "true")
  | JOther _ _ => false
  end.

(** The file system and the properties reader, as the loader sees them:
    whether the file exists, whether reading it throws, and what
    [properties.get] returns for a key. *)
Record LoadEnv := {
  existsSync : bool;
  readerError : option str;
  propertiesGet : str -> JSValue
}.

(** [properties.get('key')]. *)
Definition getKey (env : LoadEnv) (key : string) : JSValue :=
  propertiesGet env (lit key).

(** [this.config] as [loadConfiguration] builds it; a textual setting is
    whatever value the properties gave when that was truthy. *)
Record LoadedConfig := {
  l_port : JSValue;
  l_baudRate : Z;
  l_dataBits : Z;
  l_parity : JSValue;
  l_stopBits : Z;
  l_rtscts : bool;
  l_xon : bool;
  l_xoff : bool;
  l_xany : bool;
  l_dtr : bool;
  l_rts : bool;
  l_hupcl : bool;
  l_openDelay : Z;
  l_closeDelay : Z;
  l_protocolType : JSValue;
  l_regexFilter : JSValue;
  l_readTimeout : Z;
  l_logLevel : JSValue
}.

(** [loadConfiguration()], lines 45-92: [inl] is the message of the error
    it throws. *)
Definition loadConfiguration (configPath : str) (env : LoadEnv) : str + LoadedConfig :=
  let failed msg := inl (lit "Failed to load configuration: " ++ msg) in
  if negb (existsSync env) then
    failed (lit "Configuration file not found: " ++ configPath)
  else
    match readerError env with
    | Some msg => failed msg
    | None =>
        inr {| l_port := textSetting (getKey env "serial.port") "COM3";
               l_baudRate := numberSetting (getKey env "serial.baudRate") 9600;
               l_dataBits := numberSetting (getKey env "serial.dataBits") 8;
               l_parity := textSetting (getKey env "serial.parity") "none";
               l_stopBits := numberSetting (getKey env "serial.stopBits") 1;
               l_rtscts := flagSetting (getKey env "serial.rtscts");
               l_xon := flagSetting (getKey env "serial.xon");
               l_xoff := flagSetting (getKey env "serial.xoff");
               l_xany := flagSetting (getKey env "serial.xany");
               l_dtr := flagSetting (getKey env "serial.dtr");
               l_rts := flagSetting (getKey env "serial.rts");
               l_hupcl := flagSetting (getKey env "serial.hupcl");
               l_openDelay := numberSetting (getKey env "serial.openDelay") 50;
               l_closeDelay := numberSetting (getKey env "serial.closeDelay") 50;
               l_protocolType := textSetting (getKey env "protocol.type") "frame";
               l_regexFilter := textSetting (getKey env "regex.filter") "(\d+)";
               l_readTimeout := numberSetting (getKey env "read.timeout") 3000;
               l_logLevel := textSetting (getKey env "log.level") "info" |}
    end.

(** The configuration the session works with, when the textual settings
    are strings. *)
Definition asConfig (lc : LoadedConfig) : option Config :=
  match l_port lc, l_parity lc, l_protocolType lc, l_regexFilter lc, l_logLevel lc with
  | JString po, JString pa, JString pr, JString re, JString lo =>
      Some {| config_port := po; baudRate := l_baudRate lc; dataBits := l_dataBits lc;
              parity := pa; stopBits := l_stopBits lc;
              rtscts := l_rtscts lc; xon := l_xon lc; xoff := l_xoff lc;
              xany := l_xany lc; dtr := l_dtr lc; rts := l_rts lc; hupcl := l_hupcl lc;
              openDelay := l_openDelay lc; closeDelay := l_closeDelay lc;
              protocolType := pr; regexFilter := re;
              readTimeout := l_readTimeout lc; logLevel := lo |}
  | _, _, _, _, _ => None
  end.

(** Properties given as a list of keys with the values that
    [properties.get] hands out for them (the reader turns the text of a
    number into the number and the texts [true] and [false] into the
    booleans); an absent key reads as [null]. *)
Fixpoint lookupProperty (props : list (string * JSValue)) (key : str) : JSValue :=
  match props with
  | [] => JNull
  | (k, v) :: rest =>
      if str_eqb (lit k) key then v else lookupProperty rest key
  end.

Definition sampleEnv (props : list (string * JSValue)) : LoadEnv :=
  {| existsSync := true; readerError := None; propertiesGet := lookupProperty props |}.

(** * Properties *)

(** ** The small engine on the shipped patterns *)

Example exec_line_pattern :
  execPattern "[D@F](\d+)" (lit "D002260" ++ [CR])
  = Some (Some (lit "D002260", Some (lit "002260"))).
Proof. reflexivity. Qed.

Example exec_frame_pattern :
  execPattern "1\r\n\s*(\d+)\s*\r\n\s*0"
    ([STX] ++ lit "1" ++ [CR; LF] ++ lit " 20450 " ++ [CR; LF] ++ lit "0" ++ [ETX])
  = Some (Some (lit "1" ++ [CR; LF] ++ lit " 20450 " ++ [CR; LF] ++ lit "0",
                Some (lit "20450"))).
Proof. reflexivity. Qed.

Example exec_without_group :
  execPattern "\d+" (lit "abc77") = Some (Some (lit "77", None)).
Proof. reflexivity. Qed.

Example exec_no_match : execPattern "(\d+)" (lit "abc") = Some None.
Proof. reflexivity. Qed.

Example rejected_patterns :
  map (fun p => RegExp_new (lit p)) ["("%string; "(\d+"%string; "a)"%string; "[a"%string; "*"%string; "a\"%string]
  = [None; None; None; None; None; None].
Proof. reflexivity. Qed.

(** ** Index search and slicing *)

Lemma len_app (a b : str) : len (a ++ b) = len a + len b.
Proof. unfold len. rewrite length_app. lia. Qed.

Lemma len_nonneg (s : str) : 0 <= len s.
Proof. unfold len. lia. Qed.

Lemma lastIndexOf_absent (c : ascii) (s : str) :
  ~ In c s -> lastIndexOf c s = -1.
Proof.
  induction s as [|x t IH]; simpl; intros Hn; [reflexivity|].
  rewrite IH by tauto. simpl.
  destruct (Ascii.eqb_spec x c) as [->|]; [tauto | reflexivity].
Qed.

Lemma lastIndexOf_last (c : ascii) (pre post : str) :
  ~ In c post -> lastIndexOf c (pre ++ c :: post) = len pre.
Proof.
  intros Hn. induction pre as [|x t IH]; simpl.
  - rewrite lastIndexOf_absent by assumption. simpl.
    rewrite Ascii.eqb_refl. reflexivity.
  - rewrite IH. unfold len. simpl List.length. rewrite Nat2Z.inj_succ.
    destruct (Z.of_nat (List.length t) =? -1) eqn:Hq.
    + apply Z.eqb_eq in Hq. lia.
    + lia.
Qed.

Lemma indexOf_absent (c : ascii) (s : str) : ~ In c s -> indexOf c s = -1.
Proof.
  induction s as [|x t IH]; simpl; intros Hn; [reflexivity|].
  destruct (Ascii.eqb_spec x c) as [->|]; [tauto|].
  rewrite IH by tauto. reflexivity.
Qed.

Lemma indexOf_first (c : ascii) (body post : str) :
  ~ In c body -> indexOf c (body ++ c :: post) = len body.
Proof.
  induction body as [|x t IH]; simpl; intros Hn.
  - rewrite Ascii.eqb_refl. reflexivity.
  - destruct (Ascii.eqb_spec x c) as [->|]; [tauto|].
    rewrite IH by tauto. unfold len. simpl List.length.
    destruct (Z.of_nat (List.length t) =? -1) eqn:Hq.
    + apply Z.eqb_eq in Hq. lia.
    + lia.
Qed.

Lemma substring_app (pre s : str) : substring (len pre) (pre ++ s) = s.
Proof.
  unfold substring, len. rewrite Nat2Z.id.
  rewrite skipn_app, skipn_all, Nat.sub_diag. reflexivity.
Qed.

Lemma substring2_prefix (a s : str) : substring2 0 (len a) (a ++ s) = a.
Proof.
  unfold substring2, len.
  rewrite Z.min_l, Z.max_r by lia. simpl. rewrite Nat2Z.id, Nat.sub_0_r.
  rewrite firstn_app, firstn_all, Nat.sub_diag. simpl. apply app_nil_r.
Qed.

Lemma substring_suffix (a : Z) (s : str) : exists pre, s = pre ++ substring a s.
Proof.
  unfold substring. exists (firstn (Z.to_nat a) s).
  symmetry. apply firstn_skipn.
Qed.

(** ** The extractor changes nothing but the log *)

Section DecoderFacts.

Context {E : RegExpEngine}.

Lemma applyRegexFilter_some (data : str) (r : Reader) (w : Z) :
  fst (applyRegexFilter data r) = Some w -> snd (applyRegexFilter data r) = r.
Proof.
  unfold applyRegexFilter.
  destruct (negb (truthy (regexFilter (config r)))); simpl; [congruence|].
  destruct (RegExp_new (regexFilter (config r))); simpl; [|congruence].
  destruct (RegExp_exec r0 data) as [[m0 m1]|]; simpl; [|congruence].
  destruct (parseInt10 (weightStrOf m0 m1)); simpl; congruence.
Qed.

Lemma applyRegexFilter_fields (data : str) (r : Reader) :
  let r1 := snd (applyRegexFilter data r) in
  config r1 = config r /\ port r1 = port r /\ dataBuffer r1 = dataBuffer r.
Proof.
  unfold applyRegexFilter.
  destruct (negb (truthy (regexFilter (config r)))); simpl; [auto|].
  destruct (RegExp_new (regexFilter (config r))); simpl; [|auto].
  destruct (RegExp_exec r0 data) as [[m0 m1]|]; simpl; [|auto].
  destruct (parseInt10 (weightStrOf m0 m1)); simpl; auto.
Qed.

Lemma applyRegexFilter_config_only (data : str) (r r' : Reader) :
  config r = config r' ->
  fst (applyRegexFilter data r) = fst (applyRegexFilter data r').
Proof.
  intros Hc. unfold applyRegexFilter. rewrite Hc.
  destruct (negb (truthy (regexFilter (config r')))); simpl; [reflexivity|].
  destruct (RegExp_new (regexFilter (config r'))); simpl; [|reflexivity].
  destruct (RegExp_exec r0 data) as [[m0 m1]|]; simpl; [|reflexivity].
  destruct (parseInt10 (weightStrOf m0 m1)); reflexivity.
Qed.

(** A complete frame after the last start marker that the pattern accepts:
    the decoder returns its reading and keeps only what follows the end
    marker. *)
Lemma processFrameProtocol_last_span
    (data pre body post : str) (w : Z) (r : Reader) :
  dataBuffer r = pre ++ STX :: body ++ ETX :: post ->
  ~ In STX body -> ~ In ETX body -> ~ In STX post ->
  fst (applyRegexFilter (STX :: body ++ [ETX]) r) = Some w ->
  processFrameProtocol data r = (Some w, setBuffer post r).
Proof.
  intros Hb Hs He Hp Hw.
  assert (Hlast : lastIndexOf STX (dataBuffer r) = len pre).
  { rewrite Hb. apply lastIndexOf_last.
    rewrite in_app_iff. simpl. intros [?|[?|?]]; try tauto. discriminate. }
  assert (Hetx : indexOf ETX (STX :: body ++ ETX :: post) = len (STX :: body)).
  { change (STX :: body ++ ETX :: post) with ((STX :: body) ++ ETX :: post).
    apply indexOf_first. simpl. intros [?|?]; [discriminate | tauto]. }
  assert (Hframe : substring2 0 (len (STX :: body) + 1) (STX :: body ++ ETX :: post)
                   = STX :: body ++ [ETX]).
  { replace (len (STX :: body) + 1) with (len ((STX :: body) ++ [ETX]))
      by (rewrite len_app; reflexivity).
    change (STX :: body ++ ETX :: post) with ((STX :: body) ++ [ETX] ++ post).
    rewrite app_assoc. apply substring2_prefix. }
  assert (Hrest : substring (len pre + len (STX :: body) + 1)
                    (pre ++ STX :: body ++ ETX :: post) = post).
  { replace (len pre + len (STX :: body) + 1)
      with (len (pre ++ (STX :: body) ++ [ETX]))
      by (rewrite !len_app; change (len [ETX]) with 1; lia).
    replace (pre ++ STX :: body ++ ETX :: post)
      with ((pre ++ (STX :: body) ++ [ETX]) ++ post)
      by (rewrite <- !app_assoc; reflexivity).
    apply substring_app. }
  assert (Hne : (len pre =? -1) = false)
    by (apply Z.eqb_neq; pose proof (len_nonneg pre); lia).
  assert (Hne2 : (len (STX :: body) =? -1) = false)
    by (apply Z.eqb_neq; pose proof (len_nonneg (STX :: body)); lia).
  pose proof (applyRegexFilter_some _ _ _ Hw) as Hr.
  unfold processFrameProtocol.
  rewrite Hlast, Hne. cbn [negb].
  rewrite Hb, substring_app, Hetx, Hne2. cbn [negb].
  rewrite Hframe.
  destruct (applyRegexFilter (STX :: body ++ [ETX]) r) as [o r1].
  simpl in Hw, Hr. subst o r1. rewrite Hb, Hrest. reflexivity.
Qed.

End DecoderFacts.

(** ** The decoders leave the configuration and the port alone *)

Section SessionFacts.

Context {E : RegExpEngine}.

Lemma sameDevice_refl (r : Reader) : sameDevice r r.
Proof. repeat split. exists O. simpl. symmetry. apply app_nil_r. Qed.

Lemma sameDevice_trans (a b c : Reader) :
  sameDevice a b -> sameDevice b c -> sameDevice a c.
Proof.
  intros (Hc1 & Hp1 & n & Ht1) (Hc2 & Hp2 & m & Ht2).
  split; [congruence|]. split; [congruence|].
  exists (n + m)%nat. rewrite Ht2, Ht1, <- app_assoc, repeat_app. reflexivity.
Qed.

Lemma setBuffer_device (b : str) (r : Reader) : sameDevice r (setBuffer b r).
Proof. repeat split. exists O. simpl. symmetry. apply app_nil_r. Qed.

Lemma clearOldData_device (r : Reader) : sameDevice r (clearOldData r).
Proof.
  unfold clearOldData.
  destruct (len (dataBuffer r) >? 1000); [|apply sameDevice_refl].
  destruct (negb (lastIndexOf STX (dataBuffer r) =? -1)); apply setBuffer_device.
Qed.

Lemma applyRegexFilter_device (data : str) (r : Reader) :
  sameDevice r (snd (applyRegexFilter data r)).
Proof.
  unfold applyRegexFilter.
  destruct (negb (truthy (regexFilter (config r)))); simpl; [apply sameDevice_refl|].
  destruct (RegExp_new (regexFilter (config r))); simpl.
  - destruct (RegExp_exec r0 data) as [[m0 m1]|]; simpl; [|apply sameDevice_refl].
    destruct (parseInt10 (weightStrOf m0 m1)); simpl; apply sameDevice_refl.
  - repeat split. exists 1%nat. reflexivity.
Qed.

Lemma processFrameProtocol_device (data : str) (r : Reader) :
  sameDevice r (snd (processFrameProtocol data r)).
Proof.
  unfold processFrameProtocol.
  destruct (negb (lastIndexOf STX (dataBuffer r) =? -1)); simpl;
    [|apply clearOldData_device].
  destruct (negb (indexOf ETX _ =? -1)); simpl; [|apply clearOldData_device].
  match goal with |- context [applyRegexFilter ?f r] =>
    pose proof (applyRegexFilter_device f r) as Hd;
    destruct (applyRegexFilter f r) as [[w|] r1] end; cbn [snd] in *.
  - exact (sameDevice_trans _ _ _ Hd (setBuffer_device _ _)).
  - exact (sameDevice_trans _ _ _ Hd (clearOldData_device _)).
Qed.

Lemma scanLines_device (lines : list str) (r : Reader) :
  sameDevice r (snd (scanLines lines r)) /\
  dataBuffer (snd (scanLines lines r)) = dataBuffer r.
Proof.
  revert r. induction lines as [|line rest IH]; intros r; simpl.
  - split; [apply sameDevice_refl | reflexivity].
  - destruct (truthy (trim line)); [|apply IH].
    pose proof (applyRegexFilter_device (line ++ [CR]) r) as Hd.
    pose proof (applyRegexFilter_fields (line ++ [CR]) r) as (_ & _ & Hb).
    destruct (applyRegexFilter (line ++ [CR]) r) as [[w|] r1]; cbn [snd] in *.
    + split; assumption.
    + destruct (IH r1) as [Hd1 Hb1]. split.
      * exact (sameDevice_trans _ _ _ Hd Hd1).
      * congruence.
Qed.

Lemma processLineProtocol_device (data : str) (r : Reader) :
  sameDevice r (snd (processLineProtocol data r)) /\
  dataBuffer (snd (processLineProtocol data r)) = dataBuffer r.
Proof.
  unfold processLineProtocol. destruct (includes CR data).
  - apply scanLines_device.
  - split; [apply sameDevice_refl | reflexivity].
Qed.

Lemma dataHandler_device (data : str) (r : Reader) (c : Collect) :
  sameDevice r (fst (dataHandler data r c)).
Proof.
  unfold dataHandler.
  set (r0 := setBuffer (dataBuffer r ++ data) r).
  assert (H0 : sameDevice r r0) by apply setBuffer_device.
  assert (Hd : sameDevice r0 (snd (decodeChunk data r0))).
  { unfold decodeChunk. destruct (isFrame (config r0)).
    - apply processFrameProtocol_device.
    - apply processLineProtocol_device. }
  destruct (decodeChunk data r0) as [[w|] r1]; cbn [snd] in Hd.
  - destruct (isFrame (config r1)); cbn [fst];
      exact (sameDevice_trans _ _ _ H0 Hd).
  - cbn [fst]. exact (sameDevice_trans _ _ _ H0 Hd).
Qed.

Lemma deliver_step (r : Reader) (c : Collect) (ev : PortEvent) :
  Step r c ev (fst (deliver (r, c) ev)) (snd (deliver (r, c) ev)).
Proof.
  destruct ev as [chunk|msg]; simpl.
  - destruct (onData c) eqn:Hon; [|constructor].
    pose proof (dataHandler_device chunk r c) as Hd.
    unfold dataHandler in *.
    set (r0 := setBuffer (dataBuffer r ++ chunk) r) in *.
    destruct (decodeChunk chunk r0) as [[w|] r1] eqn:Hp.
    + destruct Hd as [Hc _].
      destruct (isFrame (config r1)) eqn:Hf; simpl in *.
      * apply StepFrameReading; [assumption | congruence].
      * apply StepReading; [assumption | congruence].
    + simpl. apply StepNoReading. assumption.
  - destruct (onError c) eqn:Hon; simpl;
      [apply StepError | apply StepUnhandled]; assumption.
Qed.

Lemma deliver_device (r : Reader) (c : Collect) (ev : PortEvent) :
  sameDevice r (fst (deliver (r, c) ev)).
Proof.
  destruct ev as [chunk|msg]; simpl.
  - destruct (onData c); [apply dataHandler_device | apply sameDevice_refl].
  - destruct (onError c); apply sameDevice_refl.
Qed.

End SessionFacts.

(** ** The promise settles once, and always *)

(** One step of a run, by cases on what the event did. *)
Ltac deliver_cases r c ev r1 c1 HS :=
  pose proof (deliver_step r c ev) as HS;
  destruct (deliver (r, c) ev) as [r1 c1]; cbn [fst snd] in HS.

Section RunFacts.

Context {E : RegExpEngine}.

Lemma Inv_fresh : Inv freshCollect.
Proof.
  unfold Inv, freshCollect; simpl. repeat split; try congruence; discriminate.
Qed.

Lemma Step_Inv (r : Reader) (c : Collect) (ev : PortEvent) (r1 : Reader) (c1 : Collect) :
  Step r c ev r1 c1 -> Inv c -> Inv c1.
Proof.
  intros HS (Ht & Hf & Hr). destruct HS; unfold Inv; simpl.
  - auto.
  - auto.
  - repeat split; try discriminate.
    destruct (settled c); discriminate.
  - repeat split; try discriminate.
    destruct (settled c); discriminate.
  - repeat split; try discriminate.
    + destruct (settled c); discriminate.
    + intros res. destruct (settled c) eqn:Hs; [|discriminate].
      intros Heq. apply (Hr res). congruence.
  - auto.
Qed.

Lemma Step_stable (r : Reader) (c : Collect) (ev : PortEvent) (r1 : Reader) (c1 : Collect) v :
  Step r c ev r1 c1 -> settled c = Some v -> settled c1 = Some v.
Proof. intros HS Hs. destruct HS; simpl; rewrite ?Hs; auto. Qed.

Lemma Step_recorded (r : Reader) (c : Collect) (ev : PortEvent) (r1 : Reader) (c1 : Collect) :
  Step r c ev r1 c1 -> lastValidWeight c <> None -> lastValidWeight c1 <> None.
Proof. intros HS Hl. destruct HS; simpl; auto; discriminate. Qed.

Lemma run_Inv (evs : list PortEvent) (r : Reader) (c : Collect) :
  Inv c -> Inv (snd (fold_left deliver evs (r, c))).
Proof.
  revert r c. induction evs as [|ev evs IH]; intros r c Hi; cbn [fold_left]; [assumption|].
  deliver_cases r c ev r1 c1 HS. apply IH.
  eapply Step_Inv; eassumption.
Qed.

Lemma run_stable (evs : list PortEvent) (r : Reader) (c : Collect) v :
  settled c = Some v -> settled (snd (fold_left deliver evs (r, c))) = Some v.
Proof.
  revert r c. induction evs as [|ev evs IH]; intros r c Hs; cbn [fold_left]; [assumption|].
  deliver_cases r c ev r1 c1 HS. apply IH.
  eapply Step_stable; eassumption.
Qed.

Lemma run_recorded (evs : list PortEvent) (r : Reader) (c : Collect) :
  lastValidWeight c <> None ->
  lastValidWeight (snd (fold_left deliver evs (r, c))) <> None.
Proof.
  revert r c. induction evs as [|ev evs IH]; intros r c Hs; cbn [fold_left]; [assumption|].
  deliver_cases r c ev r1 c1 HS. apply IH.
  eapply Step_recorded; eassumption.
Qed.

Lemma run_device (evs : list PortEvent) (r : Reader) (c : Collect) :
  sameDevice r (fst (fold_left deliver evs (r, c))).
Proof.
  revert r c. induction evs as [|ev evs IH]; intros r c; cbn [fold_left];
    [apply sameDevice_refl|].
  pose proof (deliver_device r c ev) as Hd.
  destruct (deliver (r, c) ev) as [r1 c1]. cbn [fst] in Hd.
  exact (sameDevice_trans _ _ _ Hd (IH r1 c1)).
Qed.


(** *** Error events and the listener *)

Lemma Step_listening (r : Reader) (c : Collect) (ev : PortEvent) (r1 : Reader) (c1 : Collect) :
  Step r c ev r1 c1 ->
  (onError c = true -> unhandled c = None) ->
  onError c1 = true -> unhandled c1 = None.
Proof.
  intros HS Hl. destruct HS; simpl; intros Hon; auto; try discriminate; congruence.
Qed.

Lemma Step_handled_line (r : Reader) (c : Collect) (ev : PortEvent)
    (r1 : Reader) (c1 : Collect) :
  Step r c ev r1 c1 -> isFrame (config r) = false ->
  onError c = true /\ unhandled c = None ->
  onError c1 = true /\ unhandled c1 = None.
Proof.
  intros HS Hf [Hon Hu]. destruct HS; simpl; auto; congruence.
Qed.

Lemma Step_handled_data (r : Reader) (c : Collect) (chunk : str)
    (r1 : Reader) (c1 : Collect) :
  Step r c (Data chunk) r1 c1 -> unhandled c = None -> unhandled c1 = None.
Proof.
  intros HS Hu. inversion HS; subst; simpl; assumption.
Qed.

Lemma run_listening (evs : list PortEvent) (r : Reader) (c : Collect) :
  (onError c = true -> unhandled c = None) ->
  onError (snd (fold_left deliver evs (r, c))) = true ->
  unhandled (snd (fold_left deliver evs (r, c))) = None.
Proof.
  revert r c. induction evs as [|ev evs IH]; intros r c Hl; cbn [fold_left]; [assumption|].
  deliver_cases r c ev r1 c1 HS. apply IH.
  eapply Step_listening; eassumption.
Qed.

(** In line mode the listener is never removed. *)
Lemma run_handled_line (evs : list PortEvent) (r : Reader) (c : Collect) :
  isFrame (config r) = false ->
  onError c = true /\ unhandled c = None ->
  onError (snd (fold_left deliver evs (r, c))) = true /\
  unhandled (snd (fold_left deliver evs (r, c))) = None.
Proof.
  revert r c. induction evs as [|ev evs IH]; intros r c Hf Hc; cbn [fold_left]; [assumption|].
  pose proof (deliver_device r c ev) as (Hcfg & _).
  deliver_cases r c ev r1 c1 HS. cbn [fst] in Hcfg. apply IH.
  - rewrite Hcfg. exact Hf.
  - eapply Step_handled_line; eassumption.
Qed.

(** Without an error event nothing is thrown. *)
Lemma run_handled_data (evs : list PortEvent) (r : Reader) (c : Collect) :
  noPortError evs -> unhandled c = None ->
  unhandled (snd (fold_left deliver evs (r, c))) = None.
Proof.
  revert r c. induction evs as [|ev evs IH]; intros r c Hn Hu; cbn [fold_left]; [assumption|].
  deliver_cases r c ev r1 c1 HS.
  assert (Hn' : noPortError evs) by (intros m Hi; apply (Hn m); right; assumption).
  apply IH; [exact Hn'|].
  destruct ev as [chunk|msg].
  - eapply Step_handled_data; eassumption.
  - exfalso. apply (Hn msg). left. reflexivity.
Qed.

Lemma noPortError_data (chunks : list str) (evs : list PortEvent) :
  noPortError evs -> noPortError (map Data chunks ++ evs).
Proof.
  intros Hn msg Hi. apply in_app_or in Hi as [Hi|Hi]; [|exact (Hn msg Hi)].
  apply in_map_iff in Hi as (x & Hx & _). discriminate Hx.
Qed.

Lemma noPortError_cons (chunk : str) (evs : list PortEvent) :
  noPortError evs -> noPortError (Data chunk :: evs).
Proof. intros Hn msg [Hi|Hi]; [discriminate Hi | exact (Hn msg Hi)]. Qed.

Lemma collectRun_Inv (d : Driver) (r : Reader) : Inv (snd (collectRun d r)).
Proof. apply run_Inv, Inv_fresh. Qed.

Lemma collectRun_device (d : Driver) (r : Reader) :
  sameDevice r (fst (collectRun d r)).
Proof.
  exact (sameDevice_trans _ _ _ (setBuffer_device [] r) (run_device _ _ _)).
Qed.

(** The promise of [collectData] is the first settlement of the run, or
    the timer's when the run ends unsettled. *)
Lemma collectData_result (d : Driver) (r : Reader) :
  collectData d r =
    (match settled (snd (collectRun d r)) with
     | Some v => Some v
     | None =>
         match lastValidWeight (snd (collectRun d r)) with
         | Some w => Some (inr {| weight := w;
                                  rawData := dataBuffer (fst (collectRun d r)) |})
         | None => Some (inl (timeoutMessage (config r)))
         end
     end, fst (collectRun d r)).
Proof.
  unfold collectData.
  pose proof (collectRun_Inv d r) as (Ht & Hf & _).
  pose proof (collectRun_device d r) as (Hc & _).
  destruct (collectRun d r) as [r1 c1]. cbn [fst snd] in *.
  destruct (timer c1) eqn:Htm.
  - destruct (Ht eq_refl) as (Hs & Hl & _). rewrite Hs.
    unfold timeoutHandler. rewrite Hl. simpl. rewrite Hs, Hc. reflexivity.
  - specialize (Hf eq_refl). destruct (settled c1); [reflexivity | congruence].
Qed.

Lemma collectData_settles (d : Driver) (r : Reader) :
  exists v, fst (collectData d r) = Some v.
Proof.
  rewrite collectData_result. cbn [fst].
  destruct (settled (snd (collectRun d r))); [eauto|].
  destruct (lastValidWeight (snd (collectRun d r))); eauto.
Qed.

Lemma collectData_device (d : Driver) (r : Reader) :
  sameDevice r (snd (collectData d r)).
Proof. rewrite collectData_result. apply collectRun_device. Qed.

End RunFacts.

(** ** What the events do depends on the configuration and the buffer *)

Section ViewFacts.

Context {E : RegExpEngine}.

Lemma applyRegexFilter_view (data : str) (r r' : Reader) :
  sameView r r' ->
  fst (applyRegexFilter data r) = fst (applyRegexFilter data r') /\
  sameView (snd (applyRegexFilter data r)) (snd (applyRegexFilter data r')).
Proof.
  intros [Hc Hb]. split; [apply applyRegexFilter_config_only; exact Hc|].
  destruct (applyRegexFilter_fields data r) as (H1 & _ & H2).
  destruct (applyRegexFilter_fields data r') as (H3 & _ & H4).
  split; congruence.
Qed.

Lemma clearOldData_view (r r' : Reader) :
  sameView r r' -> sameView (clearOldData r) (clearOldData r').
Proof.
  intros [Hc Hb]. unfold clearOldData. rewrite Hb.
  destruct (len (dataBuffer r') >? 1000); [|split; assumption].
  destruct (negb (lastIndexOf STX (dataBuffer r') =? -1)); split; cbn; congruence.
Qed.

Lemma processFrameProtocol_view (data data' : str) (r r' : Reader) :
  sameView r r' ->
  fst (processFrameProtocol data r) = fst (processFrameProtocol data' r') /\
  sameView (snd (processFrameProtocol data r)) (snd (processFrameProtocol data' r')).
Proof.
  intros Hv. pose proof Hv as [Hc Hb]. unfold processFrameProtocol. rewrite Hb.
  destruct (negb (lastIndexOf STX (dataBuffer r') =? -1)); cbn [fst snd];
    [|split; [reflexivity | apply clearOldData_view; exact Hv]].
  destruct (negb (indexOf ETX _ =? -1)); cbn [fst snd];
    [|split; [reflexivity | apply clearOldData_view; exact Hv]].
  match goal with |- context [applyRegexFilter ?f r] =>
    destruct (applyRegexFilter_view f r r' Hv) as [Hf Hs];
    destruct (applyRegexFilter f r) as [o r1];
    destruct (applyRegexFilter f r') as [o' r1'] end.
  cbn [fst snd] in *. subst o'. destruct o as [w|]; cbn [fst snd].
  - split; [reflexivity|]. destruct Hs as [H1 H2]. split; cbn; congruence.
  - split; [reflexivity | apply clearOldData_view; exact Hs].
Qed.

Lemma scanLines_view (lines : list str) (r r' : Reader) :
  sameView r r' ->
  fst (scanLines lines r) = fst (scanLines lines r') /\
  sameView (snd (scanLines lines r)) (snd (scanLines lines r')).
Proof.
  revert r r'. induction lines as [|line rest IH]; intros r r' Hv; cbn [scanLines].
  - split; [reflexivity | exact Hv].
  - destruct (truthy (trim line)); [|apply IH; exact Hv].
    destruct (applyRegexFilter_view (line ++ [CR]) r r' Hv) as [Hf Hs].
    destruct (applyRegexFilter (line ++ [CR]) r) as [o r1].
    destruct (applyRegexFilter (line ++ [CR]) r') as [o' r1'].
    cbn [fst snd] in *. subst o'. destruct o as [w|].
    + split; [reflexivity | exact Hs].
    + apply IH. exact Hs.
Qed.

Lemma decodeChunk_view (data : str) (r r' : Reader) :
  sameView r r' ->
  fst (decodeChunk data r) = fst (decodeChunk data r') /\
  sameView (snd (decodeChunk data r)) (snd (decodeChunk data r')).
Proof.
  intros Hv. pose proof Hv as [Hc Hb]. unfold decodeChunk. rewrite Hc.
  destruct (isFrame (config r')).
  - apply processFrameProtocol_view. exact Hv.
  - unfold processLineProtocol. rewrite Hb.
    destruct (includes CR data); [apply scanLines_view; exact Hv|].
    split; [reflexivity | exact Hv].
Qed.

Lemma deliver_view (r r' : Reader) (c : Collect) (ev : PortEvent) :
  sameView r r' ->
  snd (deliver (r, c) ev) = snd (deliver (r', c) ev) /\
  sameView (fst (deliver (r, c) ev)) (fst (deliver (r', c) ev)).
Proof.
  intros Hv. pose proof Hv as [Hc Hb]. destruct ev as [chunk|msg]; cbn [deliver].
  - destruct (onData c); [|split; [reflexivity | exact Hv]].
    unfold dataHandler.
    assert (Hv0 : sameView (setBuffer (dataBuffer r ++ chunk) r)
                    (setBuffer (dataBuffer r' ++ chunk) r'))
      by (split; cbn; congruence).
    destruct (decodeChunk_view chunk _ _ Hv0) as [Hf Hs].
    destruct (decodeChunk chunk (setBuffer (dataBuffer r ++ chunk) r)) as [o r1].
    destruct (decodeChunk chunk (setBuffer (dataBuffer r' ++ chunk) r')) as [o' r1'].
    cbn [fst snd] in *. subst o'. destruct Hs as [H1 H2].
    destruct o as [w|]; [|split; [reflexivity | split; assumption]].
    rewrite H1, H2. destruct (isFrame (config r1')); cbn [fst snd];
      (split; [reflexivity | split; assumption]).
  - destruct (onError c); cbn [errorHandler fst snd];
      (split; [reflexivity | exact Hv]).
Qed.

Lemma run_view (evs : list PortEvent) (r r' : Reader) (c : Collect) :
  sameView r r' ->
  snd (fold_left deliver evs (r, c)) = snd (fold_left deliver evs (r', c)) /\
  sameView (fst (fold_left deliver evs (r, c))) (fst (fold_left deliver evs (r', c))).
Proof.
  revert r r' c. induction evs as [|ev evs IH]; intros r r' c Hv; cbn [fold_left].
  - split; [reflexivity | exact Hv].
  - destruct (deliver_view r r' c ev Hv) as [Hs Hf].
    destruct (deliver (r, c) ev) as [r1 c1].
    destruct (deliver (r', c) ev) as [r1' c1'].
    cbn [fst snd] in *. subst c1'. apply IH. exact Hf.
Qed.

End ViewFacts.

(** ** Sessions in which every error event is handled *)

Section HandledFacts.

Context {E : RegExpEngine}.

Lemma collectRun_view (d : Driver) (r r' : Reader) :
  config r = config r' -> snd (collectRun d r) = snd (collectRun d r').
Proof.
  intros Hc. unfold collectRun.
  apply run_view. split; cbn; congruence.
Qed.

Lemma errorsHandled_view (d : Driver) (r r' : Reader) :
  config r = config r' -> errorsHandled d r -> errorsHandled d r'.
Proof.
  intros Hc. unfold errorsHandled. rewrite (collectRun_view d r r' Hc). auto.
Qed.

Lemma errorsHandled_line (d : Driver) (r : Reader) :
  isFrame (config r) = false -> errorsHandled d r.
Proof.
  intros Hf. unfold errorsHandled, collectRun.
  apply run_handled_line; [exact Hf | split; reflexivity].
Qed.

Lemma errorsHandled_data (d : Driver) (r : Reader) :
  noPortError (incoming d) -> errorsHandled d r.
Proof.
  intros Hn. unfold errorsHandled, collectRun.
  apply run_handled_data; [exact Hn | reflexivity].
Qed.

Lemma errorsHandled_after (d : Driver) (r : Reader) (chunks : list str)
    (rest : list PortEvent) :
  incoming d = map Data chunks ++ rest ->
  isFrame (config r) = false \/ noPortError rest -> errorsHandled d r.
Proof.
  intros Hin [Hf|Hn]; [apply errorsHandled_line; exact Hf|].
  apply errorsHandled_data. rewrite Hin. apply noPortError_data. exact Hn.
Qed.

End HandledFacts.

(** ** Closing and the whole session *)

Section CloseFacts.

Context {E : RegExpEngine}.

Lemma count_emit (f : Effect -> bool) (e : Effect) (r : Reader) :
  count f (emit e r) = (count f r + (if f e then 1 else 0))%nat.
Proof.
  unfold count, emit; simpl. rewrite filter_app, length_app. simpl.
  destruct (f e); reflexivity.
Qed.

Lemma count_sameDevice (f : Effect -> bool) (r0 r1 : Reader) :
  f EErrorRegex = false -> sameDevice r0 r1 -> count f r1 = count f r0.
Proof.
  intros Hf (_ & _ & n & Ht). unfold count. rewrite Ht, filter_app, length_app.
  replace (filter f (repeat EErrorRegex n)) with (@nil Effect); [simpl; lia|].
  clear Ht. induction n as [|n IH]; simpl; [reflexivity|]. rewrite Hf. exact IH.
Qed.

Lemma closePort_noop (d : Driver) (r : Reader) :
  port r <> Some true -> closePort d r = emit EClosePort r.
Proof.
  intros Hp. unfold closePort. simpl.
  destruct (port r) as [[|]|]; [congruence | reflexivity | reflexivity].
Qed.

Lemma closePort_config (d : Driver) (r : Reader) : config (closePort d r) = config r.
Proof.
  unfold closePort. simpl. destruct (port r) as [[|]|]; try reflexivity.
  destruct (closeDelay (config r) >? 0); simpl.
  - destruct (closeSetThrows d); simpl; [reflexivity|].
    destruct (closeOutcome d); reflexivity.
  - destruct (closeOutcome d); reflexivity.
Qed.

Lemma count_setPort (f : Effect -> bool) (p : option bool) (r : Reader) :
  count f (setPort p r) = count f r.
Proof. reflexivity. Qed.

Lemma closePort_once (d : Driver) (r : Reader) :
  count isClosePort (closePort d r) = S (count isClosePort r) /\
  (count isClose (closePort d r) <= S (count isClose r))%nat.
Proof.
  unfold closePort. cbn [port emit].
  destruct (port r) as [[|]|]; cbn [config emit];
    try (rewrite !count_emit; simpl; split; lia).
  destruct (closeDelay (config r) >? 0).
  - destruct (closeSetThrows d); [rewrite !count_emit; simpl; split; lia|].
    destruct (closeOutcome d); rewrite ?count_setPort, !count_emit;
      simpl; split; lia.
  - destruct (closeOutcome d); rewrite ?count_setPort, !count_emit;
      simpl; split; lia.
Qed.

Lemma closePort_closes (d : Driver) (r : Reader) :
  closeSetThrows d = None -> closeOutcome d = CloseOk ->
  port (closePort d r) <> Some true.
Proof.
  intros Hs Ho. unfold closePort. cbn [port emit].
  destruct (port r) as [[|]|] eqn:Hp; cbn [port emit]; rewrite ?Hp; try discriminate.
  rewrite Hs, Ho. destruct (closeDelay _ >? 0); simpl; discriminate.
Qed.

Lemma openPort_config (d : Driver) (r : Reader) : config (snd (openPort d r)) = config r.
Proof.
  unfold openPort. destruct (ctorError d); [reflexivity|].
  destruct (openError d); [reflexivity|].
  destruct (openSetError d); reflexivity.
Qed.

Lemma openPort_counts (d : Driver) (r : Reader) (f : Effect -> bool) :
  (forall e, f e = true -> e = EClosePort \/ e = EClose) ->
  count f (snd (openPort d r)) = count f r.
Proof.
  intros Hf.
  assert (Hz : forall e r0, e <> EClosePort -> e <> EClose ->
                 count f (emit e r0) = count f r0).
  { intros e r0 H1 H2. rewrite count_emit. destruct (f e) eqn:Hfe; [|lia].
    destruct (Hf e Hfe); congruence. }
  unfold openPort. destruct (ctorError d); [reflexivity|].
  destruct (openError d); cbn [snd].
  - rewrite Hz, count_setPort, Hz by discriminate. reflexivity.
  - rewrite Hz by discriminate.
    destruct (openSetError d);
      rewrite ?Hz, ?count_setPort, ?Hz, ?count_setPort, ?Hz by discriminate;
      reflexivity.
Qed.

End CloseFacts.

(** ** A session whose error events are handled closes once and returns *)

Lemma readFailed_facts {E : RegExpEngine} (d : Driver) (msg : str) (r : Reader) :
  snd (readFailed d msg r) = Some (Failure msg (now_end d - now_start d)) /\
  count isClosePort (fst (readFailed d msg r)) = S (count isClosePort r) /\
  (count isClose (fst (readFailed d msg r)) <= S (count isClose r))%nat /\
  config (fst (readFailed d msg r)) = config r.
Proof.
  unfold readFailed. cbn [fst snd].
  destruct (closePort_once d (emit (EErrorReadFailed msg) r)) as [H1 H2].
  rewrite count_emit in H1, H2. simpl in H1, H2.
  rewrite closePort_config.
  repeat split; try reflexivity; lia.
Qed.

Lemma openPort_opened (d : Driver) (r r1 : Reader) (u : unit) :
  openPort d r = (inr u, r1) -> ctorError d = None /\ openError d = None.
Proof.
  unfold openPort. destruct (ctorError d); [discriminate|].
  destruct (openError d); [discriminate|]. auto.
Qed.

(** With every error event handled, [readWeight] is its [try] block
    followed by [closePort], or its [catch] block. *)
Lemma readWeight_handled {E : RegExpEngine} (d : Driver) (r : Reader) :
  (ctorError d = None -> openError d = None -> errorsHandled d r) ->
  readWeight d r =
    match openPort d r with
    | (inl msg, r1) => readFailed d msg r1
    | (inr _, r1) =>
        match collectData d r1 with
        | (Some (inr result), r2) =>
            let r3 := closePort d r2 in
            (r3, Some (Success (weight result) (protocolType (config r3))
                         (rawData result) (now_end d - now_start d)))
        | (Some (inl msg), r2) => readFailed d msg r2
        | (None, r2) => (r2, None)
        end
    end.
Proof.
  intros Hh. unfold readWeight.
  pose proof (openPort_config d r) as Hoc.
  destruct (openPort d r) as [[msg|u] r1] eqn:Hop; [reflexivity|].
  destruct (openPort_opened d r r1 u Hop) as [Hc Ho].
  cbn [snd] in Hoc.
  rewrite (errorsHandled_view d r r1 (eq_sym Hoc) (Hh Hc Ho)). reflexivity.
Qed.

(** C4 (as amended).  Take a session in which every ['error'] event of the
    port finds the reader's listener attached; that is so in line mode,
    and in frame mode at least when the port emits no error.  Then
    [readWeight] returns, and what it returns is a [Success] or a
    [Failure] with the elapsed time (a success also names the configured
    protocol); [closePort] is entered exactly once and the library's
    [close] is called at most once; and when the library's calls in
    [closePort] do not fail, the port is not open when [readWeight]
    returns. *)
Theorem readWeight_closes_once {E : RegExpEngine} (d : Driver) (r : Reader) :
  (isFrame (config r) = false \/ noPortError (incoming d) -> errorsHandled d r) /\
  ((ctorError d = None -> openError d = None -> errorsHandled d r) ->
   (exists res, snd (readWeight d r) = Some res /\ wellFormed d (config r) res) /\
   count isClosePort (fst (readWeight d r)) = S (count isClosePort r) /\
   (count isClose (fst (readWeight d r)) <= S (count isClose r))%nat /\
   (closeSetThrows d = None -> closeOutcome d = CloseOk ->
    port (fst (readWeight d r)) <> Some true)).
Proof.
  split.
  { intros [Hf|Hn]; [apply errorsHandled_line | apply errorsHandled_data]; assumption. }
  intros Hh. rewrite (readWeight_handled d r Hh).
  pose proof (openPort_config d r) as Hoc.
  pose proof (openPort_counts d r isClosePort) as Hc1.
  pose proof (openPort_counts d r isClose) as Hc2.
  destruct (openPort d r) as [[msg|[]] r1]; cbn [snd] in Hoc, Hc1, Hc2.
  - destruct (readFailed_facts d msg r1) as (Hr & Hn & Hm & _).
    rewrite Hr, Hn, Hm, Hc1, Hc2;
      try (intros e; destruct e; simpl; intros; auto; discriminate).
    split; [eexists; split; reflexivity|].
    split; [reflexivity|]. split; [lia|].
    intros Hs Ho. unfold readFailed. cbn [fst]. apply closePort_closes; assumption.
  - destruct (collectData_settles d r1) as [v Hv].
    pose proof (collectData_device d r1) as Hd.
    destruct (collectData d r1) as [o r2]. cbn [fst snd] in Hv, Hd. subst o.
    assert (Hk1 : count isClosePort r2 = count isClosePort r).
    { rewrite (count_sameDevice isClosePort r1 r2 eq_refl Hd). apply Hc1.
      intros e; destruct e; simpl; intros; auto; discriminate. }
    assert (Hk2 : count isClose r2 = count isClose r).
    { rewrite (count_sameDevice isClose r1 r2 eq_refl Hd). apply Hc2.
      intros e; destruct e; simpl; intros; auto; discriminate. }
    destruct Hd as (Hcfg & _).
    destruct v as [msg|result].
    + destruct (readFailed_facts d msg r2) as (Hr & Hn & Hm & _).
      rewrite Hr, Hn, Hm, Hk1, Hk2.
      split; [eexists; split; reflexivity|].
      split; [reflexivity|]. split; [lia|].
      intros Hs Ho. unfold readFailed. cbn [fst]. apply closePort_closes; assumption.
    + cbn [fst snd]. destruct (closePort_once d r2) as [H1 H2].
      rewrite closePort_config, Hcfg, Hoc, H1, Hk1.
      split; [eexists; split; [reflexivity | split; reflexivity]|].
      split; [reflexivity|]. split; [lia|].
      apply closePort_closes.
Qed.

Lemma readWeight_closes_once_witness :
  port (fst (readWeight (quietDriver [Data frameSample; Data (lit "more")])
               (newReader sanJuan)))
  <> Some true.
Proof.
  destruct (readWeight_closes_once (quietDriver [Data frameSample; Data (lit "more")])
              (newReader sanJuan)) as (Hh & H).
  destruct H as (_ & _ & _ & H).
  - intros _ _. apply Hh. right. intros msg [Hi|[Hi|[]]]; discriminate Hi.
  - apply H; reflexivity.
Defined.

(** C4, as stated, fails in its last part: when the library's [close]
    reports an error to its callback, which [closePort] does not look at,
    the port is still open when [readWeight] returns its result. *)
Lemma port_left_open_when_close_fails :
  snd (readWeight (withClose (quietDriver [Data frameSample]) None CloseCallbackError)
         (newReader sanJuan))
  = Some (Success 20450 (lit "frame") [] 0) /\
  port (fst (readWeight (withClose (quietDriver [Data frameSample]) None CloseCallbackError)
               (newReader sanJuan))) = Some true /\
  count isClose (fst (readWeight
                        (withClose (quietDriver [Data frameSample]) None CloseCallbackError)
                        (newReader sanJuan))) = 1%nat.
Proof. vm_compute. repeat split; reflexivity. Qed.

(** ** Closing never changes the result *)





(** ** Signal levels *)

Lemma Forall_emit (P : Effect -> Prop) (e : Effect) (r : Reader) :
  P e -> Forall P (trace r) -> Forall P (trace (emit e r)).
Proof.
  intros He Hr. unfold emit; simpl. apply Forall_app. split; [assumption|].
  constructor; [assumption | constructor].
Qed.

Lemma Forall_sameDevice (P : Effect -> Prop) (r0 r1 : Reader) :
  P EErrorRegex -> sameDevice r0 r1 -> Forall P (trace r0) -> Forall P (trace r1).
Proof.
  intros He (_ & _ & n & Ht) Hr. rewrite Ht. apply Forall_app. split; [assumption|].
  clear Ht. induction n; simpl; constructor; assumption.
Qed.

Lemma closePort_levels (d : Driver) (r : Reader) :
  Forall (configuredLevels (config r)) (trace r) ->
  Forall (configuredLevels (config r)) (trace (closePort d r)).
Proof.
  intros Hr. unfold closePort. cbn [port emit config].
  assert (H0 : Forall (configuredLevels (config r)) (trace (emit EClosePort r)))
    by (apply Forall_emit; [exact I | assumption]).
  destruct (port r) as [[|]|]; try assumption.
  destruct (closeDelay (config r) >? 0).
  - destruct (closeSetThrows d).
    + repeat apply Forall_emit; simpl; auto.
    + destruct (closeOutcome d); unfold setPort; cbn [trace];
        repeat apply Forall_emit; simpl; auto.
  - destruct (closeOutcome d); unfold setPort; cbn [trace];
      repeat apply Forall_emit; simpl; auto.
Qed.

Lemma openPort_levels (d : Driver) (r : Reader) :
  Forall (configuredLevels (config r)) (trace r) ->
  Forall (configuredLevels (config r)) (trace (snd (openPort d r))).
Proof.
  intros Hr. unfold openPort. destruct (ctorError d); [assumption|].
  destruct (openError d); cbn [snd].
  - repeat (apply Forall_emit || (unfold setPort; cbn [trace])); simpl; auto.
  - destruct (openSetError d);
      repeat (apply Forall_emit || (unfold setPort; cbn [trace])); simpl; auto.
Qed.

Lemma readFailed_levels {E : RegExpEngine} (d : Driver) (msg : str) (r : Reader) :
  Forall (configuredLevels (config r)) (trace r) ->
  Forall (configuredLevels (config r)) (trace (fst (readFailed d msg r))).
Proof.
  intros Hr. unfold readFailed. cbn [fst].
  apply (closePort_levels d (emit (EErrorReadFailed msg) r)).
  apply Forall_emit; [exact I | assumption].
Qed.

(** C3 (as amended).  With the port constructed and opened, the open
    sequence is: construct, open, set the configured [dtr] and [rts] (with
    [brk] off), log a warning if that reported an error, wait [openDelay].
    On an open port with [closeDelay > 0] the close sequence is: set the
    configured [dtr] and [rts], wait [closeDelay], close; with
    [closeDelay <= 0] it is the [close] call alone.  In a whole session
    every signal-set call passes the configured pair. *)
Theorem signals_as_configured {E : RegExpEngine} (d : Driver) (r : Reader) :
  (ctorError d = None -> openError d = None ->
   trace (snd (openPort d r)) =
     trace r ++ [newSerialPort (config r); EOpen;
                 ESet (dtr (config r)) (rts (config r)) (Some false)]
             ++ openWarning d ++ [EWait (openDelay (config r))]) /\
  (port r = Some true -> closeDelay (config r) > 0 -> closeSetThrows d = None ->
   trace (closePort d r) =
     trace r ++ [EClosePort; ESet (dtr (config r)) (rts (config r)) None;
                 EWait (closeDelay (config r)); EClose] ++ closeLog d) /\
  (port r = Some true -> closeDelay (config r) <= 0 ->
   trace (closePort d r) = trace r ++ [EClosePort; EClose] ++ closeLog d) /\
  (Forall (configuredLevels (config r)) (trace r) ->
   Forall (configuredLevels (config r)) (trace (fst (readWeight d r)))).
Proof.
  split.
  { intros Hc Ho. unfold openPort, openWarning. rewrite Hc, Ho.
    destruct (openSetError d); cbn [snd emit setPort trace];
      rewrite <- !app_assoc; reflexivity. }
  split.
  { intros Hp Hd Hs. unfold closePort, closeLog. cbn [port emit config].
    apply Z.gtb_gt in Hd. rewrite Hp, Hd, Hs.
    destruct (closeOutcome d); cbn [emit setPort trace];
      rewrite <- !app_assoc; reflexivity. }
  split.
  { intros Hp Hd. unfold closePort, closeLog. cbn [port emit config].
    assert (Hg : (closeDelay (config r) >? 0) = false)
      by (rewrite Z.gtb_ltb; apply Z.ltb_ge; lia).
    rewrite Hp, Hg.
    destruct (closeOutcome d); cbn [emit setPort trace];
      rewrite <- !app_assoc; reflexivity. }
  intros Hr. unfold readWeight.
  pose proof (openPort_levels d r Hr) as Ho.
  pose proof (openPort_config d r) as Hoc.
  destruct (openPort d r) as [[msg|[]] r1]; cbn [snd] in Ho, Hoc.
  - rewrite <- Hoc. apply readFailed_levels. rewrite Hoc. assumption.
  - destruct (unhandled (snd (collectRun d r1))).
    { cbn [fst].
      apply (Forall_sameDevice _ r1 _); [exact I | apply collectRun_device | exact Ho]. }
    pose proof (collectData_device d r1) as Hd.
    destruct (collectData d r1) as [o r2]; cbn [snd fst] in *.
    assert (Hc2 : config r2 = config r) by (destruct Hd; congruence).
    assert (H2 : Forall (configuredLevels (config r2)) (trace r2)).
    { rewrite Hc2. apply (Forall_sameDevice _ r1 r2); [exact I | exact Hd | exact Ho]. }
    destruct o as [[msg|result]|]; cbn [fst]; rewrite <- Hc2.
    + apply readFailed_levels. assumption.
    + apply closePort_levels. assumption.
    + assumption.
Qed.

Lemma signals_as_configured_witness :
  trace (closePort (quietDriver []) (openReader coquimbito)) =
  [EClosePort; ESet false false None; EWait 100; EClose].
Proof.
  destruct (@signals_as_configured MiniEngine (quietDriver []) (openReader coquimbito))
    as (_ & H & _).
  apply H; [reflexivity | reflexivity | reflexivity].
Defined.

(** C3, as stated, fails when [closeDelay] is not positive: the session
    below closes its port without a signal-set call. *)
Lemma close_without_signals :
  trace (fst (readWeight (quietDriver [Data (lit "D002260" ++ [CR])])
                (newReader (sampleConfig "line" "[D@F](\d+)" true true 100 (-1)))))
  = [newSerialPort (sampleConfig "line" "[D@F](\d+)" true true 100 (-1));
     EOpen; ESet true true (Some false); EWait 100; EClosePort; EClose].
Proof. vm_compute. reflexivity. Qed.

(** ** The deadline *)

Section DeadlineFacts.

Context {E : RegExpEngine}.

Lemma run_unsettled (evs : list PortEvent) (r : Reader) (c : Collect) :
  settled c = None -> noPortError evs ->
  lastValidWeight (snd (fold_left deliver evs (r, c))) = None ->
  settled (snd (fold_left deliver evs (r, c))) = None.
Proof.
  revert r c. induction evs as [|ev evs IH]; intros r c Hs Hn; cbn [fold_left];
    [intros _; assumption|].
  deliver_cases r c ev r1 c1 HS.
  assert (Hn' : noPortError evs) by (intros m Hi; apply (Hn m); right; assumption).
  intros Hl. inversion HS; subst.
  - apply IH; assumption.
  - apply IH; assumption.
  - exfalso. revert Hl. apply run_recorded. simpl. discriminate.
  - exfalso. revert Hl. apply run_recorded. simpl. discriminate.
  - exfalso. apply (Hn msg). left. reflexivity.
  - exfalso. apply (Hn msg). left. reflexivity.
Qed.

Lemma collectData_timeout (d : Driver) (r : Reader) :
  lastValidWeight (snd (collectRun d r)) = None -> noPortError (incoming d) ->
  fst (collectData d r) = Some (inl (timeoutMessage (config r))).
Proof.
  intros Hl Hn. rewrite collectData_result. cbn [fst].
  unfold collectRun in *.
  rewrite (run_unsettled (incoming d) (setBuffer [] r) freshCollect eq_refl Hn Hl), Hl.
  reflexivity.
Qed.

Lemma collectData_resolved (d : Driver) (r : Reader) (res : Collected) :
  fst (collectData d r) = Some (inr res) ->
  lastValidWeight (snd (collectRun d r)) <> None.
Proof.
  rewrite collectData_result. cbn [fst].
  pose proof (collectRun_Inv d r) as (_ & _ & Hr).
  destruct (settled (snd (collectRun d r))) as [v|] eqn:Hs.
  - intros Hv. injection Hv as ->. apply (Hr res). reflexivity.
  - destruct (lastValidWeight (snd (collectRun d r))); [discriminate|].
    discriminate.
Qed.

Lemma run_no_reject (evs : list PortEvent) (r : Reader) (c : Collect) :
  (forall m, settled c <> Some (inl m)) -> noPortError evs ->
  forall m, settled (snd (fold_left deliver evs (r, c))) <> Some (inl m).
Proof.
  revert r c. induction evs as [|ev evs IH]; intros r c Hs Hn; cbn [fold_left];
    [assumption|].
  deliver_cases r c ev r1 c1 HS.
  assert (Hn' : noPortError evs) by (intros m Hi; apply (Hn m); right; assumption).
  apply IH; [|assumption].
  inversion HS; subst; simpl; try assumption.
  - intros m. specialize (Hs m). destruct (settled c); [assumption | discriminate].
  - intros m. specialize (Hs m). destruct (settled c); [assumption | discriminate].
  - exfalso. apply (Hn msg). left. reflexivity.
Qed.

Lemma collectData_recorded (d : Driver) (r : Reader) (w : Z) :
  lastValidWeight (snd (collectRun d r)) = Some w -> noPortError (incoming d) ->
  exists res, fst (collectData d r) = Some (inr res).
Proof.
  intros Hl Hn. rewrite collectData_result. cbn [fst]. rewrite Hl.
  pose proof (run_no_reject (incoming d) (setBuffer [] r) freshCollect) as Hr.
  fold (collectRun d r) in Hr.
  destruct (settled (snd (collectRun d r))) as [[m|res]|] eqn:Hs; eauto.
  exfalso. apply (Hr (fun m => ltac:(discriminate)) Hn m). reflexivity.
Qed.

End DeadlineFacts.

Lemma readWeight_timeout {E : RegExpEngine} (d : Driver) (r : Reader) :
  ctorError d = None -> openError d = None ->
  lastValidWeight (snd (collectRun d (snd (openPort d r)))) = None ->
  noPortError (incoming d) ->
  snd (readWeight d r)
  = Some (Failure (timeoutMessage (config r)) (now_end d - now_start d)).
Proof.
  intros Hc Ho Hl Hn.
  rewrite readWeight_handled by (intros _ _; apply errorsHandled_data; exact Hn).
  pose proof (openPort_config d r) as Hoc.
  pose proof (collectData_timeout d (snd (openPort d r)) Hl Hn) as Ht.
  assert (Hopen : fst (openPort d r) = inr tt)
    by (unfold openPort; rewrite Hc, Ho; reflexivity).
  destruct (openPort d r) as [o r1]. cbn [fst snd] in *. subst o.
  destruct (collectData d r1) as [v r2]. cbn [fst] in Ht. subst v.
  unfold readFailed. cbn [snd]. rewrite Hoc. reflexivity.
Qed.

(** C5.  When the timer fires on an unsettled promise, a recorded
    [lastValidWeight] resolves it with that weight and the buffer, and no
    recorded weight rejects it with the timeout message.  For a whole
    collection: if no reading was ever recorded and the port reported no
    error, the promise is rejected with the timeout message and
    [readWeight] returns that failure; a resolved promise always has a
    recorded reading behind it; and a recorded reading, without a port
    error, means a resolved promise. *)
Theorem deadline_uses_last_valid_weight {E : RegExpEngine}
    (d : Driver) (r : Reader) (c : Collect) :
  (forall w, settled c = None -> lastValidWeight c = Some w ->
     settled (snd (timeoutHandler r c))
     = Some (inr {| weight := w; rawData := dataBuffer r |})) /\
  (settled c = None -> lastValidWeight c = None ->
     settled (snd (timeoutHandler r c)) = Some (inl (timeoutMessage (config r)))) /\
  (lastValidWeight (snd (collectRun d r)) = None -> noPortError (incoming d) ->
     fst (collectData d r) = Some (inl (timeoutMessage (config r)))) /\
  (forall res, fst (collectData d r) = Some (inr res) ->
     lastValidWeight (snd (collectRun d r)) <> None) /\
  (forall w, lastValidWeight (snd (collectRun d r)) = Some w ->
     noPortError (incoming d) ->
     exists res, fst (collectData d r) = Some (inr res)) /\
  (ctorError d = None -> openError d = None ->
   lastValidWeight (snd (collectRun d (snd (openPort d r)))) = None ->
   noPortError (incoming d) ->
   snd (readWeight d r)
   = Some (Failure (timeoutMessage (config r)) (now_end d - now_start d))).
Proof.
  split.
  { intros w Hs Hl. unfold timeoutHandler. rewrite Hl. simpl. rewrite Hs. reflexivity. }
  split.
  { intros Hs Hl. unfold timeoutHandler. rewrite Hl. simpl. rewrite Hs. reflexivity. }
  split; [apply collectData_timeout|].
  split; [apply collectData_resolved|].
  split; [apply collectData_recorded|].
  apply readWeight_timeout.
Qed.

Lemma deadline_uses_last_valid_weight_witness :
  snd (readWeight (quietDriver [Data (lit "no weight here")]) (newReader sanJuan))
  = Some (Failure (lit "Timeout: No valid weight data received in 3000ms") 0).
Proof.
  destruct (@deadline_uses_last_valid_weight MiniEngine
              (quietDriver [Data (lit "no weight here")]) (newReader sanJuan)
              freshCollect) as (_ & _ & _ & _ & _ & H).
  apply H.
  - reflexivity.
  - reflexivity.
  - vm_compute. reflexivity.
  - intros msg [Hi|[]]. discriminate.
Defined.

(** ** A pattern that does not compile *)

Section MalformedFacts.

Context {E : RegExpEngine}.

Lemma applyRegexFilter_malformed (data : str) (r : Reader) :
  malformed (config r) -> applyRegexFilter data r = (None, emit EErrorRegex r).
Proof.
  intros [Ht Hn]. unfold applyRegexFilter. rewrite Ht, Hn. reflexivity.
Qed.

Lemma processFrameProtocol_malformed (data : str) (r : Reader) :
  malformed (config r) -> fst (processFrameProtocol data r) = None.
Proof.
  intros Hm. unfold processFrameProtocol.
  destruct (negb (lastIndexOf STX (dataBuffer r) =? -1)); [|reflexivity].
  destruct (negb (indexOf ETX _ =? -1)); [|reflexivity].
  rewrite applyRegexFilter_malformed by assumption. reflexivity.
Qed.

Lemma scanLines_malformed (lines : list str) (r : Reader) :
  malformed (config r) -> fst (scanLines lines r) = None.
Proof.
  revert r. induction lines as [|line rest IH]; intros r Hm; simpl; [reflexivity|].
  destruct (truthy (trim line)); [|apply IH; assumption].
  rewrite applyRegexFilter_malformed by assumption. apply IH. exact Hm.
Qed.

Lemma deliver_malformed (r : Reader) (c : Collect) (ev : PortEvent) :
  malformed (config r) -> lastValidWeight c = None ->
  lastValidWeight (snd (deliver (r, c) ev)) = None.
Proof.
  intros Hm Hl. destruct ev as [chunk|msg]; simpl.
  - destruct (onData c); [|assumption]. unfold dataHandler.
    set (r0 := setBuffer (dataBuffer r ++ chunk) r).
    assert (Hnone : fst (decodeChunk chunk r0) = None).
    { unfold decodeChunk. destruct (isFrame (config r0)).
      - apply processFrameProtocol_malformed. exact Hm.
      - unfold processLineProtocol. destruct (includes CR chunk); [|reflexivity].
        apply scanLines_malformed. exact Hm. }
    destruct (decodeChunk chunk r0) as [o r1].
    cbn [fst] in Hnone. subst o. simpl. assumption.
  - destruct (onError c); simpl; assumption.
Qed.

Lemma run_malformed (evs : list PortEvent) (r : Reader) (c : Collect) :
  malformed (config r) -> lastValidWeight c = None ->
  lastValidWeight (snd (fold_left deliver evs (r, c))) = None.
Proof.
  revert r c. induction evs as [|ev evs IH]; intros r c Hm Hl; cbn [fold_left];
    [assumption|].
  pose proof (deliver_malformed r c ev Hm Hl) as H1.
  pose proof (deliver_device r c ev) as (Hc & _).
  destruct (deliver (r, c) ev) as [r1 c1]. cbn [fst snd] in *.
  apply IH; [rewrite Hc; assumption | assumption].
Qed.

End MalformedFacts.

(** C6 (as amended).  A pattern that the [RegExp] constructor rejects is
    kept as it is when the configuration is loaded; each candidate unit
    given to [applyRegexFilter] logs one regex error and yields no
    reading; and a session with such a pattern, whose port opens and
    reports no error, returns the timeout failure. *)
Theorem malformed_pattern_fails_per_candidate {E : RegExpEngine}
    (d : Driver) (r : Reader) (data : str) :
  malformed (config r) ->
  loadRegexFilter (Some (regexFilter (config r))) = regexFilter (config r) /\
  applyRegexFilter data r = (None, emit EErrorRegex r) /\
  (ctorError d = None -> openError d = None -> noPortError (incoming d) ->
   snd (readWeight d r)
   = Some (Failure (timeoutMessage (config r)) (now_end d - now_start d))).
Proof.
  intros Hm. split.
  { destruct Hm as [Ht _]. unfold loadRegexFilter. rewrite Ht. reflexivity. }
  split; [apply applyRegexFilter_malformed; assumption|].
  intros Hc Ho Hn.
  apply readWeight_timeout; try assumption.
  apply run_malformed; [|reflexivity].
  simpl. rewrite openPort_config. assumption.
Qed.

Lemma malformed_pattern_fails_per_candidate_witness :
  applyRegexFilter (lit "D002260" ++ [CR]) (newReader brokenPattern)
  = (None, emit EErrorRegex (newReader brokenPattern)).
Proof.
  destruct (@malformed_pattern_fails_per_candidate MiniEngine (quietDriver [])
              (newReader brokenPattern) (lit "D002260" ++ [CR])) as (_ & H & _).
  - split; reflexivity.
  - exact H.
Defined.

(** C6, as stated, fails: the unbalanced pattern is accepted when the
    configuration is loaded, the port is opened, the pattern is rejected
    three times while two chunks are collected, and the caller gets the
    timeout failure. *)
Lemma malformed_pattern_seen_in_collection :
  loadRegexFilter (Some (lit "(")) = lit "(" /\
  RegExp_new (regexFilter brokenPattern) = None /\
  trace (fst (readWeight
                (quietDriver [Data (lit "D002260" ++ [CR]); Data (lit "D002261" ++ [CR])])
                (newReader brokenPattern)))
  = [newSerialPort brokenPattern; EOpen; ESet false false (Some false); EWait 100;
     EErrorRegex; EErrorRegex; EErrorRegex;
     EErrorReadFailed (lit "Timeout: No valid weight data received in 3000ms");
     EClosePort; ESet false false None; EWait 100; EClose] /\
  snd (readWeight
         (quietDriver [Data (lit "D002260" ++ [CR]); Data (lit "D002261" ++ [CR])])
         (newReader brokenPattern))
  = Some (Failure (lit "Timeout: No valid weight data received in 3000ms") 0).
Proof. vm_compute. repeat split; reflexivity. Qed.

(** ** The first reading settles the session *)

Section FirstReading.

Context {E : RegExpEngine}.

(** The state [dataHandler] leaves after a chunk with a reading. *)
Lemma dataHandler_reading (data : str) (r r1 : Reader) (c : Collect) (w : Z) :
  settled c = None ->
  decodeChunk data (setBuffer (dataBuffer r ++ data) r) = (Some w, r1) ->
  fst (dataHandler data r c) = r1 /\
  settled (snd (dataHandler data r c))
  = Some (inr {| weight := w; rawData := dataBuffer r1 |}) /\
  timer (snd (dataHandler data r c)) = false /\
  lastValidWeight (snd (dataHandler data r c)) = Some w /\
  (isFrame (config r) = true ->
   onData (snd (dataHandler data r c)) = false /\
   onError (snd (dataHandler data r c)) = false).
Proof.
  intros Hs Hd. unfold dataHandler.
  pose proof (dataHandler_device data r c) as Hdev. unfold dataHandler in Hdev.
  rewrite Hd in *.
  destruct (isFrame (config r1)) eqn:Hf; cbn [fst snd] in *; simpl; rewrite Hs.
  - repeat split; reflexivity.
  - repeat split; try reflexivity.
    + destruct Hdev as (Hc & _). congruence.
    + destruct Hdev as (Hc & _). congruence.
Qed.

Lemma run_resolves_here (evs : list PortEvent) (data : str) (r r1 : Reader)
    (c : Collect) (w : Z) :
  settled c = None -> onData c = true ->
  decodeChunk data (setBuffer (dataBuffer r ++ data) r) = (Some w, r1) ->
  settled (snd (fold_left deliver (Data data :: evs) (r, c)))
  = Some (inr {| weight := w; rawData := dataBuffer r1 |}).
Proof.
  intros Hs Hon Hd. cbn [fold_left]. unfold deliver at 2. rewrite Hon.
  destruct (dataHandler_reading data r r1 c w Hs Hd) as (_ & Hset & _).
  destruct (dataHandler data r c) as [r2 c2]. cbn [snd] in Hset.
  apply run_stable. assumption.
Qed.

(** A session whose port opens and whose first chunk carries a reading
    succeeds with that reading. *)
Lemma readWeight_first_chunk (d : Driver) (r r1 : Reader) (data : str)
    (rest : list PortEvent) (w : Z) :
  ctorError d = None -> openError d = None ->
  incoming d = Data data :: rest ->
  isFrame (config r) = false \/ noPortError rest ->
  decodeChunk data (setBuffer data (snd (openPort d r))) = (Some w, r1) ->
  snd (readWeight d r)
  = Some (Success w (protocolType (config r)) (dataBuffer r1)
            (now_end d - now_start d)).
Proof.
  intros Hc Ho Hin Hh Hd.
  rewrite readWeight_handled
    by (intros _ _; apply (errorsHandled_after d r [data] rest); assumption).
  assert (Hopen : fst (openPort d r) = inr tt)
    by (unfold openPort; rewrite Hc, Ho; reflexivity).
  pose proof (openPort_config d r) as Hoc.
  destruct (openPort d r) as [o r0]. cbn [fst snd] in *. subst o.
  pose proof (collectData_device d r0) as (Hcfg & _).
  pose proof (collectData_result d r0) as Hres.
  unfold collectRun in Hres. rewrite Hin in Hres.
  rewrite (run_resolves_here rest data (setBuffer [] r0) r1 freshCollect w
             eq_refl eq_refl Hd) in Hres.
  destruct (collectData d r0) as [v r2]. injection Hres as -> ->.
  cbn [snd]. rewrite closePort_config.
  cbn [fst snd] in Hcfg. rewrite Hcfg, Hoc. reflexivity.
Qed.

End FirstReading.

(** ** The frame decoder *)

Lemma decodeChunk_frame_span {E : RegExpEngine}
    (data buf pre body post : str) (w : Z) (r : Reader) :
  isFrame (config r) = true ->
  buf = pre ++ STX :: body ++ ETX :: post ->
  ~ In STX body -> ~ In ETX body -> ~ In STX post ->
  fst (applyRegexFilter (STX :: body ++ [ETX]) r) = Some w ->
  decodeChunk data (setBuffer buf r) = (Some w, setBuffer post r).
Proof.
  intros Hf Hb Hs He Hp Hw. unfold decodeChunk. cbn [config setBuffer]. rewrite Hf.
  change (setBuffer post r) with (setBuffer post (setBuffer buf r)).
  apply (processFrameProtocol_last_span data pre body post w (setBuffer buf r));
    try assumption.
  rewrite <- Hw. apply applyRegexFilter_config_only. reflexivity.
Qed.

(** C2.  In frame mode, let the buffer with the new chunk appended be
    [pre ++ STX :: body ++ ETX :: post], where [body] has no marker and
    [post] no start marker, so that this [STX] is the last one and this
    [ETX] the first after it; [pre] is arbitrary and may hold stale start
    markers.  If the pattern extracts [w] from the span [STX body ETX], the
    chunk's handler keeps only [post] in the buffer, resolves the promise
    with [w], clears the timer and removes both listeners; a session that
    receives such a chunk first, and after it no error event from the
    port, returns [Success] with [w]. *)
Theorem frame_decoder_last_start_marker {E : RegExpEngine}
    (d : Driver) (r : Reader) (c : Collect) (rest : list PortEvent)
    (buf data pre body post : str) (w : Z) :
  isFrame (config r) = true ->
  buf ++ data = pre ++ STX :: body ++ ETX :: post ->
  ~ In STX body -> ~ In ETX body -> ~ In STX post ->
  fst (applyRegexFilter (STX :: body ++ [ETX]) r) = Some w ->
  (dataBuffer r = buf -> settled c = None ->
   fst (dataHandler data r c) = setBuffer post r /\
   settled (snd (dataHandler data r c))
   = Some (inr {| weight := w; rawData := post |}) /\
   timer (snd (dataHandler data r c)) = false /\
   onData (snd (dataHandler data r c)) = false /\
   onError (snd (dataHandler data r c)) = false) /\
  (buf = [] -> ctorError d = None -> openError d = None ->
   incoming d = Data data :: rest -> noPortError rest ->
   snd (readWeight d r)
   = Some (Success w (protocolType (config r)) post (now_end d - now_start d))).
Proof.
  intros Hf Hb Hs He Hp Hw. split.
  - intros Hbuf Hset. subst buf.
    pose proof (decodeChunk_frame_span data _ pre body post w r Hf Hb Hs He Hp Hw) as Hd.
    destruct (dataHandler_reading data r _ c w Hset Hd) as (H1 & H2 & H3 & _ & H5).
    destruct (H5 Hf) as [H6 H7]. repeat split; assumption.
  - intros Hbuf Hc Ho Hin Hrest. subst buf. simpl in Hb.
    pose proof (openPort_config d r) as Hoc.
    assert (Hw' : fst (applyRegexFilter (STX :: body ++ [ETX]) (snd (openPort d r)))
                  = Some w).
    { rewrite <- Hw. apply applyRegexFilter_config_only. assumption. }
    assert (Hf' : isFrame (config (snd (openPort d r))) = true) by (rewrite Hoc; exact Hf).
    pose proof (decodeChunk_frame_span data data pre body post w _ Hf' Hb Hs He Hp Hw')
      as Hd.
    rewrite (readWeight_first_chunk d r _ data rest w Hc Ho Hin (or_intror Hrest) Hd).
    reflexivity.
Qed.

Lemma frame_decoder_last_start_marker_witness :
  snd (readWeight (quietDriver [Data frameSample]) (newReader sanJuan))
  = Some (Success 20450 (lit "frame") [] 0).
Proof.
  destruct (@frame_decoder_last_start_marker MiniEngine
              (quietDriver [Data frameSample]) (newReader sanJuan) freshCollect []
              [] frameSample (STX :: lit "garbage")
              (lit "1" ++ [CR; LF] ++ lit "20450" ++ [CR; LF] ++ lit "0") [] 20450)
    as (_ & H).
  - reflexivity.
  - reflexivity.
  - simpl. intros H. repeat (destruct H as [H|H]; [discriminate|]). exact H.
  - simpl. intros H. repeat (destruct H as [H|H]; [discriminate|]). exact H.
  - simpl. intros H. exact H.
  - vm_compute. reflexivity.
  - apply H; try reflexivity. intros msg [].
Defined.

(** ** The buffer after a chunk without a reading *)

Section OverflowFacts.

Context {E : RegExpEngine}.

Lemma in_substring (c : ascii) (a : Z) (s : str) : In c (substring a s) -> In c s.
Proof.
  intros Hi. destruct (substring_suffix a s) as [pre Hp]. rewrite Hp.
  apply in_or_app. right. assumption.
Qed.

Lemma processFrameProtocol_no_etx (data : str) (r : Reader) :
  ~ In ETX (dataBuffer r) -> processFrameProtocol data r = (None, clearOldData r).
Proof.
  intros Hn. unfold processFrameProtocol.
  destruct (negb (lastIndexOf STX (dataBuffer r) =? -1)); [|reflexivity].
  rewrite indexOf_absent; [reflexivity|].
  intros Hi. apply Hn. eapply in_substring. eassumption.
Qed.

Lemma processFrameProtocol_none (data : str) (r : Reader) :
  fst (processFrameProtocol data r) = None ->
  dataBuffer (snd (processFrameProtocol data r)) = dataBuffer (clearOldData r).
Proof.
  unfold processFrameProtocol.
  destruct (negb (lastIndexOf STX (dataBuffer r) =? -1)); [|reflexivity].
  destruct (negb (indexOf ETX _ =? -1)); [|reflexivity].
  match goal with |- context [applyRegexFilter ?f r] =>
    pose proof (applyRegexFilter_fields f r) as (_ & _ & Hb);
    destruct (applyRegexFilter f r) as [[w|] r1] end; cbn [fst snd] in *.
  - discriminate.
  - intros _. unfold clearOldData. rewrite Hb.
    destruct (len (dataBuffer r) >? 1000); [|assumption].
    destruct (negb (lastIndexOf STX (dataBuffer r) =? -1)); reflexivity.
Qed.

Lemma clearOldData_suffix (r : Reader) :
  exists dropped, dataBuffer r = dropped ++ dataBuffer (clearOldData r).
Proof.
  unfold clearOldData. destruct (len (dataBuffer r) >? 1000); [|exists []; reflexivity].
  destruct (negb (lastIndexOf STX (dataBuffer r) =? -1)); cbn [dataBuffer setBuffer].
  - apply substring_suffix.
  - exists (dataBuffer r). symmetry. apply app_nil_r.
Qed.

Lemma clearOldData_small (r : Reader) :
  len (dataBuffer r) <= 1000 -> clearOldData r = r.
Proof.
  intros Hl. unfold clearOldData.
  replace (len (dataBuffer r) >? 1000) with false; [reflexivity|].
  symmetry. rewrite Z.gtb_ltb. apply Z.ltb_ge. assumption.
Qed.

Lemma clearOldData_marker (r : Reader) (pre post : str) :
  len (dataBuffer r) > 1000 -> dataBuffer r = pre ++ STX :: post -> ~ In STX post ->
  clearOldData r = setBuffer (STX :: post) r.
Proof.
  intros Hl Hb Hn. unfold clearOldData.
  apply Z.gtb_gt in Hl. rewrite Hl.
  rewrite Hb at 1. rewrite lastIndexOf_last by assumption.
  replace (len pre =? -1) with false
    by (symmetry; apply Z.eqb_neq; pose proof (len_nonneg pre); lia).
  cbn [negb]. rewrite Hb, lastIndexOf_last, substring_app by assumption. reflexivity.
Qed.

Lemma clearOldData_no_marker (r : Reader) :
  len (dataBuffer r) > 1000 -> ~ In STX (dataBuffer r) ->
  clearOldData r = setBuffer [] r.
Proof.
  intros Hl Hn. unfold clearOldData.
  apply Z.gtb_gt in Hl. rewrite Hl, lastIndexOf_absent by assumption. reflexivity.
Qed.

Lemma readWeight_resolved (d : Driver) (r : Reader) (res : Collected) :
  ctorError d = None -> openError d = None -> errorsHandled d r ->
  settled (snd (collectRun d (snd (openPort d r)))) = Some (inr res) ->
  snd (readWeight d r)
  = Some (Success (weight res) (protocolType (config r)) (rawData res)
            (now_end d - now_start d)).
Proof.
  intros Hc Ho Hh Hs. rewrite readWeight_handled by (intros _ _; exact Hh).
  assert (Hopen : fst (openPort d r) = inr tt)
    by (unfold openPort; rewrite Hc, Ho; reflexivity).
  pose proof (openPort_config d r) as Hoc.
  destruct (openPort d r) as [o r0]. cbn [fst snd] in *. subst o.
  pose proof (collectData_device d r0) as (Hcfg & _).
  pose proof (collectData_result d r0) as Hres. rewrite Hs in Hres.
  destruct (collectData d r0) as [v r2]. injection Hres as -> ->.
  cbn [snd]. rewrite closePort_config.
  cbn [fst snd] in Hcfg. rewrite Hcfg, Hoc. reflexivity.
Qed.

(** An unterminated frame, then a fresh complete one. *)
Lemma readWeight_after_unterminated (d : Driver) (r : Reader)
    (junk body : str) (rest : list PortEvent) (w : Z) :
  isFrame (config r) = true -> ctorError d = None -> openError d = None ->
  incoming d = Data (STX :: junk) :: Data (STX :: body ++ [ETX]) :: rest ->
  noPortError rest ->
  ~ In ETX junk -> ~ In STX body -> ~ In ETX body ->
  fst (applyRegexFilter (STX :: body ++ [ETX]) r) = Some w ->
  snd (readWeight d r)
  = Some (Success w (protocolType (config r)) [] (now_end d - now_start d)).
Proof.
  intros Hf Hc Ho Hin Hrest Hj Hs He Hw.
  assert (Hh : errorsHandled d r)
    by (apply (errorsHandled_after d r [STX :: junk; STX :: body ++ [ETX]] rest);
        [exact Hin | right; exact Hrest]).
  pose proof (openPort_config d r) as Hoc.
  set (r0 := snd (openPort d r)) in *.
  set (rA := clearOldData (setBuffer (STX :: junk) r0)).
  assert (HcA : config rA = config r).
  { destruct (clearOldData_device (setBuffer (STX :: junk) r0)) as (Hx & _).
    unfold rA. rewrite Hx. exact Hoc. }
  assert (H1 : deliver (setBuffer [] r0, freshCollect) (Data (STX :: junk))
               = (rA, setWeights None None freshCollect)).
  { unfold deliver. cbn [onData freshCollect]. unfold dataHandler.
    cbn [dataBuffer setBuffer app]. unfold decodeChunk. cbn [config setBuffer].
    rewrite Hoc, Hf.
    rewrite processFrameProtocol_no_etx.
    - reflexivity.
    - cbn [dataBuffer setBuffer]. simpl. intros [Hx|Hx]; [discriminate | tauto]. }
  assert (H2 : decodeChunk (STX :: body ++ [ETX])
                 (setBuffer (dataBuffer rA ++ STX :: body ++ [ETX]) rA)
               = (Some w, setBuffer [] rA)).
  { apply (decodeChunk_frame_span _ _ (dataBuffer rA) body [] w rA);
      try assumption; try reflexivity.
    - rewrite HcA. assumption.
    - simpl. tauto.
    - rewrite <- Hw. apply applyRegexFilter_config_only. assumption. }
  rewrite (readWeight_resolved d r {| weight := w; rawData := [] |} Hc Ho Hh);
    [reflexivity|].
  fold r0. unfold collectRun. rewrite Hin.
  change (fold_left deliver (Data (STX :: junk) :: Data (STX :: body ++ [ETX]) :: rest)
            (setBuffer [] r0, freshCollect))
    with (fold_left deliver (Data (STX :: body ++ [ETX]) :: rest)
            (deliver (setBuffer [] r0, freshCollect) (Data (STX :: junk)))).
  rewrite H1.
  apply (run_resolves_here rest _ rA (setBuffer [] rA) _ w); [reflexivity | reflexivity|].
  exact H2.
Qed.

End OverflowFacts.

(** C8 (as amended).  The only shortening of the buffer without a reading
    is the one of the frame decoder: a buffer of at most 1000 characters
    is left as it is; a longer one is cut to begin at its last start
    marker, or emptied when it holds none; what remains is always the end
    of what was there.  A frame-mode chunk without a
    reading leaves exactly that buffer, and the line decoder never changes
    the buffer.  A session in frame mode that receives an unterminated
    frame of any length and then a fresh frame that the pattern accepts,
    and after it no error event from the port, returns the reading of the
    fresh frame. *)
Theorem overflow_cuts_to_last_start_marker {E : RegExpEngine}
    (d : Driver) (r : Reader) (data junk body : str)
    (rest : list PortEvent) (w : Z) :
  (len (dataBuffer r) <= 1000 -> clearOldData r = r) /\
  (forall pre post,
     len (dataBuffer r) > 1000 -> dataBuffer r = pre ++ STX :: post ->
     ~ In STX post -> clearOldData r = setBuffer (STX :: post) r) /\
  (len (dataBuffer r) > 1000 -> ~ In STX (dataBuffer r) ->
   clearOldData r = setBuffer [] r) /\
  (exists dropped, dataBuffer r = dropped ++ dataBuffer (clearOldData r)) /\
  (fst (processFrameProtocol data r) = None ->
   dataBuffer (snd (processFrameProtocol data r)) = dataBuffer (clearOldData r)) /\
  dataBuffer (snd (processLineProtocol data r)) = dataBuffer r /\
  (isFrame (config r) = true -> ctorError d = None -> openError d = None ->
   incoming d = Data (STX :: junk) :: Data (STX :: body ++ [ETX]) :: rest ->
   noPortError rest ->
   ~ In ETX junk -> ~ In STX body -> ~ In ETX body ->
   fst (applyRegexFilter (STX :: body ++ [ETX]) r) = Some w ->
   snd (readWeight d r)
   = Some (Success w (protocolType (config r)) [] (now_end d - now_start d))).
Proof.
  split; [apply clearOldData_small|].
  split; [intros pre post; apply clearOldData_marker|].
  split; [apply clearOldData_no_marker|].
  split; [apply clearOldData_suffix|].
  split; [apply processFrameProtocol_none|].
  split; [apply processLineProtocol_device|].
  apply readWeight_after_unterminated.
Qed.

Lemma overflow_cuts_to_last_start_marker_witness :
  snd (readWeight
         (quietDriver
            [Data (STX :: repeat "x"%char 1200);
             Data (STX :: (lit "1" ++ [CR; LF] ++ lit "20450" ++ [CR; LF] ++ lit "0")
                   ++ [ETX])])
         (newReader sanJuan))
  = Some (Success 20450 (lit "frame") [] 0).
Proof.
  destruct (@overflow_cuts_to_last_start_marker MiniEngine
              (quietDriver
                 [Data (STX :: repeat "x"%char 1200);
                  Data (STX :: (lit "1" ++ [CR; LF] ++ lit "20450" ++ [CR; LF] ++ lit "0")
                        ++ [ETX])])
              (newReader sanJuan) [] (repeat "x"%char 1200)
              (lit "1" ++ [CR; LF] ++ lit "20450" ++ [CR; LF] ++ lit "0") [] 20450)
    as (_ & _ & _ & _ & _ & _ & H).
  apply H.
  - reflexivity.
  - reflexivity.
  - reflexivity.
  - reflexivity.
  - intros msg [].
  - intros Hi. apply repeat_spec in Hi. discriminate.
  - simpl. intros Hi. repeat (destruct Hi as [Hi|Hi]; [discriminate|]). exact Hi.
  - simpl. intros Hi. repeat (destruct Hi as [Hi|Hi]; [discriminate|]). exact Hi.
  - vm_compute. reflexivity.
Defined.

(** C8, as stated, fails: nothing bounds the buffer.  In frame mode an
    unterminated frame of 1500 characters after its start marker stays in
    the buffer whole, and in line mode 1500 characters without a
    terminator do. *)
Lemma buffer_exceeds_ceiling :
  len (dataBuffer (fst (dataHandler (STX :: repeat "x"%char 1500)
                          (newReader sanJuan) freshCollect))) = 1501 /\
  len (dataBuffer (fst (dataHandler (repeat "x"%char 1500)
                          (newReader coquimbito) freshCollect))) = 1500.
Proof. vm_compute. split; reflexivity. Qed.

(** ** [parseInt] *)

Lemma digit_not_white (c : ascii) :
  isDigit c = true ->
  isWhite c = false /\ Ascii.eqb c "-" = false /\ Ascii.eqb c "+" = false.
Proof.
  destruct c as [[] [] [] [] [] [] [] []]; vm_compute; intros H;
    try discriminate H; repeat split.
Qed.

Lemma digits_app (ds rest : str) (acc : Z) (n : nat) :
  forallb isDigit ds = true -> startsWithDigit rest = false ->
  digits acc n (ds ++ rest)
  = (fold_left (fun a c => 10 * a + digitVal c) ds acc, (n + List.length ds)%nat).
Proof.
  revert acc n. induction ds as [|x t IH]; intros acc n Hd Hr;
    cbn [app fold_left List.length].
  - rewrite Nat.add_0_r. destruct rest as [|y u]; [reflexivity|].
    cbn [digits]. cbn [startsWithDigit] in Hr. rewrite Hr. reflexivity.
  - cbn [forallb] in Hd. apply andb_prop in Hd as [Hx Ht].
    cbn [digits]. rewrite Hx.
    rewrite IH by assumption. f_equal. lia.
Qed.

Lemma toNumber_exact (v : Z) : v <= 2 ^ 53 -> toNumber v = v.
Proof.
  intros Hv. destruct (Z.eq_dec v (2 ^ 53)) as [->|Hne]; [vm_compute; reflexivity|].
  unfold toNumber. replace (v <? 2 ^ 53) with true; [reflexivity|].
  symmetry. apply Z.ltb_lt. lia.
Qed.

Lemma parseInt10_digits (ds rest : str) :
  ds <> [] -> forallb isDigit ds = true -> startsWithDigit rest = false ->
  parseInt10 (ds ++ rest) = Some (toNumber (decimalValue ds)).
Proof.
  intros Hne Hd Hr. destruct ds as [|x t]; [congruence|].
  pose proof Hd as Hd'. cbn [forallb] in Hd'. apply andb_prop in Hd' as [Hx _].
  destruct (digit_not_white x Hx) as (Hw & Hm & Hp).
  unfold parseInt10.
  replace (trimStart ((x :: t) ++ rest)) with ((x :: t) ++ rest)
    by (cbn [app trimStart]; rewrite Hw; reflexivity).
  replace (stripSign ((x :: t) ++ rest)) with (1, (x :: t) ++ rest)
    by (cbn [app stripSign]; rewrite Hm, Hp; reflexivity).
  rewrite digits_app by assumption. cbn [List.length Nat.add].
  unfold decimalValue. rewrite Z.mul_1_l. reflexivity.
Qed.

Lemma parseInt10_nan (s : str) :
  startsWithDigit (snd (stripSign (trimStart s))) = false -> parseInt10 s = None.
Proof.
  unfold parseInt10. destruct (stripSign (trimStart s)) as [sign s2]. cbn [snd].
  destruct s2 as [|x t]; cbn [startsWithDigit digits]; [reflexivity|].
  intros Hx. rewrite Hx. reflexivity.
Qed.

Lemma decimalValue_zeros (zs : str) : Forall (eq "0"%char) zs -> decimalValue zs = 0.
Proof.
  unfold decimalValue. induction 1 as [|x t Hx _ IH]; [reflexivity|].
  subst x. simpl. exact IH.
Qed.

Lemma parseInt10_zeros (zs rest : str) :
  zs <> [] -> Forall (eq "0"%char) zs -> startsWithDigit rest = false ->
  parseInt10 (zs ++ rest) = Some 0.
Proof.
  intros Hne Hz Hr.
  rewrite parseInt10_digits; [rewrite decimalValue_zeros by assumption; reflexivity
                             | assumption | | assumption].
  clear Hne. induction Hz as [|x t Hx _ IH]; [reflexivity|]. subst x. simpl. exact IH.
Qed.

(** ** The pattern extractor *)

(** C7 (as amended).  When the pattern compiles and matches, the numeric
    text is the first group if that is a non-empty string and the whole
    match otherwise; the extractor returns [parseInt] of it in base 10 and
    leaves the reader as it was, logging no error.  So a text that begins
    with digits yields the number they denote whatever follows them (the
    value itself up to [2^53], the nearest double beyond), and a text
    that, after leading white space and one sign, does not begin with a
    digit yields nothing.  Without a match the extractor yields nothing. *)
Theorem extractor_parses_group_or_match {E : RegExpEngine}
    (r : Reader) (data : str) (regex : RegExpObj) :
  truthy (regexFilter (config r)) = true ->
  RegExp_new (regexFilter (config r)) = Some regex ->
  (RegExp_exec regex data = None -> applyRegexFilter data r = (None, r)) /\
  (forall m0 m1, RegExp_exec regex data = Some (m0, m1) ->
     applyRegexFilter data r = (parseInt10 (weightStrOf m0 m1), r) /\
     (forall g, m1 = Some g -> g <> [] -> weightStrOf m0 m1 = g) /\
     (m1 = None \/ m1 = Some [] -> weightStrOf m0 m1 = m0) /\
     (forall ds rest, weightStrOf m0 m1 = ds ++ rest -> ds <> [] ->
        forallb isDigit ds = true -> startsWithDigit rest = false ->
        fst (applyRegexFilter data r) = Some (toNumber (decimalValue ds)) /\
        (decimalValue ds <= 2 ^ 53 ->
         fst (applyRegexFilter data r) = Some (decimalValue ds))) /\
     (startsWithDigit (snd (stripSign (trimStart (weightStrOf m0 m1)))) = false ->
        fst (applyRegexFilter data r) = None)).
Proof.
  intros Ht Hn. split.
  { intros Hx. unfold applyRegexFilter. rewrite Ht, Hn, Hx. reflexivity. }
  intros m0 m1 Hx.
  assert (Happ : applyRegexFilter data r = (parseInt10 (weightStrOf m0 m1), r)).
  { unfold applyRegexFilter. rewrite Ht, Hn, Hx. cbn [negb].
    destruct (parseInt10 (weightStrOf m0 m1)); reflexivity. }
  split; [exact Happ|].
  split.
  { intros g -> Hg. destruct g; [congruence | reflexivity]. }
  split.
  { intros [->| ->]; reflexivity. }
  split.
  { intros ds rest Hw Hne Hd Hr. rewrite Happ, Hw. cbn [fst].
    rewrite parseInt10_digits by assumption.
    split; [reflexivity|]. intros Hv. rewrite toNumber_exact by assumption.
    reflexivity. }
  intros Hs. rewrite Happ. cbn [fst]. apply parseInt10_nan. assumption.
Qed.

Lemma extractor_parses_group_or_match_witness :
  applyRegexFilter (lit "D002260" ++ [CR]) (newReader coquimbito)
  = (Some 2260, newReader coquimbito).
Proof.
  destruct (Mini.compile (lit "[D@F](\d+)")) as [regex|] eqn:Hc; [|discriminate Hc].
  destruct (@extractor_parses_group_or_match MiniEngine (newReader coquimbito)
              (lit "D002260" ++ [CR]) regex eq_refl Hc) as (_ & H).
  destruct (H (lit "D002260") (Some (lit "002260"))) as (H1 & _).
  - vm_compute in Hc. injection Hc as <-. vm_compute. reflexivity.
  - rewrite H1. reflexivity.
Defined.

(** C7, as stated, fails twice.  The first pattern below, a group of
    optional digits followed by a 5, defines a group that matches the
    empty string on the unit [5]; that is no integer, yet the extractor
    falls back on the whole match and returns 5.  The second pattern
    captures [12kg] with the terminator, which is no integer either; the
    extractor returns 12. *)
Lemma extractor_beyond_group_and_integer :
  (RegExp_new (lit "(\d*)5") <> None /\
   option_map (fun regex => RegExp_exec regex (lit "5" ++ [CR])) (RegExp_new (lit "(\d*)5"))
   = Some (Some (lit "5", Some [])) /\
   isIntegerText [] = false /\
   fst (applyRegexFilter (lit "5" ++ [CR]) (newReader (linePattern "(\d*)5"))) = Some 5) /\
  (option_map (fun regex => RegExp_exec regex (lit "12kg" ++ [CR])) (RegExp_new (lit "(.+)"))
   = Some (Some (lit "12kg" ++ [CR], Some (lit "12kg" ++ [CR]))) /\
   isIntegerText (lit "12kg" ++ [CR]) = false /\
   fst (applyRegexFilter (lit "12kg" ++ [CR]) (newReader (linePattern "(.+)"))) = Some 12).
Proof. vm_compute. repeat split; try reflexivity. discriminate. Qed.

(** ** A reading of zero *)

(** C9.  A numeric text that is zeros only, or zeros followed by something
    that is not a digit, is the reading 0, not [null];
    a chunk whose decoder returns 0 is recorded as the last valid weight
    and resolves the promise with weight 0; and a session whose first
    chunk decodes to 0 returns [Success] with weight 0, whatever follows
    in line mode, and in frame mode when no error event of the port
    follows. *)
Theorem zero_is_a_valid_reading {E : RegExpEngine}
    (d : Driver) (r r1 : Reader) (c : Collect) (data chunk : str)
    (rest : list PortEvent) :
  (forall regex m0 m1,
     truthy (regexFilter (config r)) = true ->
     RegExp_new (regexFilter (config r)) = Some regex ->
     RegExp_exec regex data = Some (m0, m1) ->
     forall zeros rest,
     weightStrOf m0 m1 = zeros ++ rest ->
     zeros <> [] -> Forall (eq "0"%char) zeros -> startsWithDigit rest = false ->
     applyRegexFilter data r = (Some 0, r)) /\
  (settled c = None ->
   decodeChunk chunk (setBuffer (dataBuffer r ++ chunk) r) = (Some 0, r1) ->
   settled (snd (dataHandler chunk r c))
   = Some (inr {| weight := 0; rawData := dataBuffer r1 |}) /\
   lastValidWeight (snd (dataHandler chunk r c)) = Some 0) /\
  (ctorError d = None -> openError d = None ->
   incoming d = Data chunk :: rest ->
   isFrame (config r) = false \/ noPortError rest ->
   decodeChunk chunk (setBuffer chunk (snd (openPort d r))) = (Some 0, r1) ->
   snd (readWeight d r)
   = Some (Success 0 (protocolType (config r)) (dataBuffer r1)
             (now_end d - now_start d))).
Proof.
  split.
  { intros regex m0 m1 Ht Hn Hx zeros tail Hw Hne Hz Hr.
    unfold applyRegexFilter. rewrite Ht, Hn, Hx, Hw. cbn [negb].
    rewrite parseInt10_zeros by assumption. reflexivity. }
  split.
  { intros Hs Hd.
    destruct (dataHandler_reading chunk r r1 c 0 Hs Hd) as (_ & H2 & _ & H4 & _).
    split; assumption. }
  apply readWeight_first_chunk.
Qed.

Lemma zero_is_a_valid_reading_witness :
  snd (readWeight (quietDriver [Data (lit "F000000" ++ [CR])]) (newReader coquimbito))
  = Some (Success 0 (lit "line") (lit "F000000" ++ [CR]) 0).
Proof.
  destruct (@zero_is_a_valid_reading MiniEngine
              (quietDriver [Data (lit "F000000" ++ [CR])]) (newReader coquimbito)
              (setBuffer (lit "F000000" ++ [CR])
                 (snd (openPort (quietDriver [Data (lit "F000000" ++ [CR])])
                         (newReader coquimbito))))
              freshCollect [] (lit "F000000" ++ [CR]) []) as (_ & _ & H).
  apply H.
  - reflexivity.
  - reflexivity.
  - reflexivity.
  - left. reflexivity.
  - vm_compute. reflexivity.
Defined.

(** ** The line decoder *)

Section LineFacts.

Context {E : RegExpEngine}.

Lemma firstReading_config (r r' : Reader) (units : list str) :
  config r = config r' -> firstReading r units = firstReading r' units.
Proof.
  intros Hc. induction units as [|u rest IH]; simpl; [reflexivity|].
  rewrite (applyRegexFilter_config_only u r r' Hc), IH. reflexivity.
Qed.

Lemma scanLines_firstReading (lines : list str) (r : Reader) :
  fst (scanLines lines r)
  = firstReading r
      (map (fun line => line ++ [CR]) (filter (fun line => truthy (trim line)) lines)).
Proof.
  revert r. induction lines as [|line rest IH]; intros r; [reflexivity|].
  cbn [scanLines filter]. destruct (truthy (trim line)); [|apply IH].
  cbn [map firstReading].
  pose proof (applyRegexFilter_device (line ++ [CR]) r) as (Hc & _).
  destruct (applyRegexFilter (line ++ [CR]) r) as [[w|] r1]; cbn [fst snd] in *.
  - reflexivity.
  - rewrite IH. apply firstReading_config. assumption.
Qed.

Lemma processLineProtocol_firstReading (data : str) (r : Reader) :
  includes CR data = true ->
  fst (processLineProtocol data r) = firstReading r (candidateLines (dataBuffer r)).
Proof.
  intros Hi. unfold processLineProtocol. rewrite Hi. apply scanLines_firstReading.
Qed.

Lemma dataHandler_line_buffer (data : str) (r : Reader) (c : Collect) :
  isFrame (config r) = false ->
  dataBuffer (fst (dataHandler data r c)) = dataBuffer r ++ data.
Proof.
  intros Hf. unfold dataHandler, decodeChunk. cbn [config setBuffer]. rewrite Hf.
  pose proof (processLineProtocol_device data (setBuffer (dataBuffer r ++ data) r))
    as [_ Hb].
  destruct (processLineProtocol data (setBuffer (dataBuffer r ++ data) r))
    as [[w|] r1]; cbn [snd] in Hb.
  - destruct (isFrame (config r1)); exact Hb.
  - exact Hb.
Qed.

Lemma decodeChunk_line (data buf : str) (r : Reader) :
  isFrame (config r) = false ->
  fst (decodeChunk data (setBuffer (buf ++ data) r)) = lineScan r buf data /\
  dataBuffer (snd (decodeChunk data (setBuffer (buf ++ data) r))) = buf ++ data /\
  config (snd (decodeChunk data (setBuffer (buf ++ data) r))) = config r.
Proof.
  intros Hf. unfold decodeChunk, lineScan. cbn [config setBuffer]. rewrite Hf.
  set (r0 := setBuffer (buf ++ data) r).
  destruct (processLineProtocol_device data r0) as [(Hc & _) Hb].
  split; [|split; assumption].
  destruct (includes CR data) eqn:Hi.
  - rewrite (processLineProtocol_firstReading data r0 Hi).
    apply firstReading_config. reflexivity.
  - unfold processLineProtocol. rewrite Hi. reflexivity.
Qed.

Lemma noReadingYet_config (r r' : Reader) (buf : str) (chunks : list str) :
  config r = config r' -> noReadingYet r buf chunks -> noReadingYet r' buf chunks.
Proof.
  intros Hc. revert buf. induction chunks as [|x t IH]; intros buf Hq; [exact I|].
  destruct Hq as [H1 H2]. split; [|apply IH; assumption].
  rewrite <- H1. unfold lineScan. destruct (includes CR x); [|reflexivity].
  apply firstReading_config. symmetry. assumption.
Qed.

Lemma run_line_noReadingYet (chunks : list str) (r : Reader) (c : Collect) :
  isFrame (config r) = false -> settled c = None -> onData c = true ->
  noReadingYet r (dataBuffer r) chunks ->
  let st := fold_left deliver (map Data chunks) (r, c) in
  config (fst st) = config r /\
  dataBuffer (fst st) = dataBuffer r ++ List.concat chunks /\
  settled (snd st) = None /\ onData (snd st) = true.
Proof.
  revert r c. induction chunks as [|chunk rest IH]; intros r c Hf Hs Hon Hq.
  - cbn. rewrite app_nil_r. auto.
  - destruct Hq as [Hnone Hq]. cbn [map fold_left List.concat].
    destruct (decodeChunk_line chunk (dataBuffer r) r Hf) as (Hfst & Hbuf & Hcfg).
    assert (Hstep : deliver (r, c) (Data chunk)
                    = (snd (decodeChunk chunk (setBuffer (dataBuffer r ++ chunk) r)),
                       setWeights None (lastValidWeight c) c)).
    { unfold deliver. rewrite Hon. unfold dataHandler.
      rewrite Hnone in Hfst.
      destruct (decodeChunk chunk (setBuffer (dataBuffer r ++ chunk) r)) as [o r1].
      cbn [fst snd] in *. subst o. reflexivity. }
    rewrite Hstep.
    set (r1 := snd (decodeChunk chunk (setBuffer (dataBuffer r ++ chunk) r))) in *.
    assert (Hq1 : noReadingYet r1 (dataBuffer r1) rest).
    { rewrite Hbuf. apply (noReadingYet_config r); [|assumption].
      symmetry. exact Hcfg. }
    destruct (IH r1 (setWeights None (lastValidWeight c) c)) as (H1 & H2 & H3 & H4);
      try assumption.
    + rewrite Hcfg. assumption.
    + repeat split; try assumption.
      * congruence.
      * rewrite H2, Hbuf, <- app_assoc. reflexivity.
Qed.

End LineFacts.

(** C1 (as amended).  A chunk without a terminator is not decoded.  On a
    chunk with a terminator the whole buffer is split on the terminator
    and the segments that are not blank are tried in order, each with the
    terminator put back, until one yields a reading.  In line mode the
    handler appends the chunk and removes nothing.  A session in line mode
    resolves with the first reading: after chunks that yield none, the
    chunk whose scan of all that has accumulated yields a reading makes
    [readWeight] return that reading, with the accumulated text as raw
    data, whatever arrives later. *)
Theorem line_decoder_first_reading {E : RegExpEngine}
    (d : Driver) (r : Reader) (c : Collect) (data : str)
    (chunks : list str) (rest : list PortEvent) (w : Z) :
  (includes CR data = false -> processLineProtocol data r = (None, r)) /\
  (includes CR data = true ->
   fst (processLineProtocol data r) = firstReading r (candidateLines (dataBuffer r))) /\
  (isFrame (config r) = false ->
   dataBuffer (fst (dataHandler data r c)) = dataBuffer r ++ data) /\
  (isFrame (config r) = false -> ctorError d = None -> openError d = None ->
   incoming d = map Data chunks ++ Data data :: rest ->
   noReadingYet r [] chunks ->
   lineScan r (List.concat chunks) data = Some w ->
   snd (readWeight d r)
   = Some (Success w (protocolType (config r)) (List.concat chunks ++ data)
             (now_end d - now_start d))).
Proof.
  split.
  { intros Hi. unfold processLineProtocol. rewrite Hi. reflexivity. }
  split; [apply processLineProtocol_firstReading|].
  split; [apply dataHandler_line_buffer|].
  intros Hf Hc Ho Hin Hq Hw.
  pose proof (openPort_config d r) as Hoc.
  set (r0 := snd (openPort d r)) in *.
  assert (Hf0 : isFrame (config (setBuffer [] r0)) = false) by (simpl; rewrite Hoc; exact Hf).
  assert (Hq0 : noReadingYet (setBuffer [] r0) (dataBuffer (setBuffer [] r0)) chunks).
  { cbn [dataBuffer setBuffer]. apply (noReadingYet_config r); [|assumption].
    symmetry. exact Hoc. }
  destruct (run_line_noReadingYet chunks (setBuffer [] r0) freshCollect Hf0 eq_refl eq_refl Hq0)
    as (H1 & H2 & H3 & H4).
  cbn [dataBuffer setBuffer app] in H2.
  set (st := fold_left deliver (map Data chunks) (setBuffer [] r0, freshCollect)) in *.
  assert (Hfs : isFrame (config (fst st)) = false) by (rewrite H1; exact Hf0).
  destruct (decodeChunk_line data (dataBuffer (fst st)) (fst st) Hfs) as (Hd1 & Hd2 & _).
  assert (Hscan : lineScan (fst st) (dataBuffer (fst st)) data = Some w).
  { rewrite H2, <- Hw. unfold lineScan. destruct (includes CR data); [|reflexivity].
    apply firstReading_config. rewrite H1. simpl. assumption. }
  rewrite Hscan in Hd1.
  rewrite (readWeight_resolved d r
             {| weight := w; rawData := List.concat chunks ++ data |} Hc Ho
             (errorsHandled_line d r Hf)); [reflexivity|].
  fold r0. unfold collectRun. rewrite Hin, fold_left_app. fold st.
  destruct st as [rs cs]. cbn [fst snd] in *.
  rewrite <- H2, <- Hd2.
  apply (run_resolves_here rest data rs _ cs w H3 H4).
  destruct (decodeChunk data (setBuffer (dataBuffer rs ++ data) rs)) as [o r1].
  cbn [fst snd] in *. subst o. reflexivity.
Qed.

Lemma line_decoder_first_reading_witness :
  snd (readWeight
         (quietDriver [Data (lit "F000000" ++ [CR]); Data (lit "D002260" ++ [CR])])
         (newReader coquimbito))
  = Some (Success 0 (lit "line") (lit "F000000" ++ [CR]) 0).
Proof.
  destruct (@line_decoder_first_reading MiniEngine
              (quietDriver [Data (lit "F000000" ++ [CR]); Data (lit "D002260" ++ [CR])])
              (newReader coquimbito) freshCollect (lit "F000000" ++ [CR]) []
              [Data (lit "D002260" ++ [CR])] 0) as (_ & _ & _ & H).
  apply H.
  - reflexivity.
  - reflexivity.
  - reflexivity.
  - reflexivity.
  - exact I.
  - vm_compute. reflexivity.
Defined.

(** C1, as stated, fails on its own example: the two chunks resolve the
    session with 0, the reading of the first line, and no clock or raw
    data makes the result the reading 2260.  Besides, a segment of white
    space is not empty and yet is not evaluated: with a pattern that does
    not compile every evaluation logs an error, and the blank line logs
    none. *)
Lemma interleaved_lines_resolve_with_first :
  (snd (readWeight
          (quietDriver [Data (lit "F000000" ++ [CR]); Data (lit "D002260" ++ [CR])])
          (newReader coquimbito))
   = Some (Success 0 (lit "line") (lit "F000000" ++ [CR]) 0) /\
   forall p raw t,
     snd (readWeight
            (quietDriver [Data (lit "F000000" ++ [CR]); Data (lit "D002260" ++ [CR])])
            (newReader coquimbito))
     <> Some (Success 2260 p raw t)) /\
  (trace (snd (processLineProtocol (lit " " ++ [CR])
                 (setBuffer (lit " " ++ [CR]) (newReader brokenPattern)))) = [] /\
   trace (snd (processLineProtocol (lit "x" ++ [CR])
                 (setBuffer (lit "x" ++ [CR]) (newReader brokenPattern)))) = [EErrorRegex]).
Proof.
  assert (H : snd (readWeight
         (quietDriver [Data (lit "F000000" ++ [CR]); Data (lit "D002260" ++ [CR])])
         (newReader coquimbito))
    = Some (Success 0 (lit "line") (lit "F000000" ++ [CR]) 0))
    by (vm_compute; reflexivity).
  split.
  - split; [exact H|]. intros p raw t. rewrite H. discriminate.
  - vm_compute. split; reflexivity.
Qed.

(** * Further properties of the code *)

(** ** [formatControlChars] *)

Lemma replaceAll_app (c : ascii) (by_ a b : str) :
  replaceAll c by_ (a ++ b) = replaceAll c by_ a ++ replaceAll c by_ b.
Proof. unfold replaceAll. apply flat_map_app. Qed.

Lemma replaceAll_absent (c : ascii) (by_ s : str) :
  ~ In c s -> replaceAll c by_ s = s.
Proof.
  induction s as [|x t IH]; intros Hn; [reflexivity|].
  unfold replaceAll in *. cbn [flat_map].
  destruct (Ascii.eqb_spec x c) as [->|Hne].
  - exfalso. apply Hn. left. reflexivity.
  - rewrite IH; [reflexivity|]. intros Hi. apply Hn. right. assumption.
Qed.

Lemma formatControlChars_app (a b : str) :
  formatControlChars (a ++ b) = formatControlChars a ++ formatControlChars b.
Proof. unfold formatControlChars. rewrite !replaceAll_app. reflexivity. Qed.

Lemma formatControlChars_one (c : ascii) : formatControlChars [c] = controlName c.
Proof.
  unfold formatControlChars, controlName.
  destruct (Ascii.eqb_spec c STX) as [->|H1]; [reflexivity|].
  destruct (Ascii.eqb_spec c ETX) as [->|H2]; [reflexivity|].
  destruct (Ascii.eqb_spec c CR) as [->|H3]; [reflexivity|].
  destruct (Ascii.eqb_spec c LF) as [->|H4]; [reflexivity|].
  unfold replaceAll. cbn [flat_map app].
  apply Ascii.eqb_neq in H1, H2, H3, H4.
  rewrite H1. cbn [flat_map app]. rewrite H2. cbn [flat_map app].
  rewrite H3. cbn [flat_map app]. rewrite H4. reflexivity.
Qed.

Lemma formatControlChars_flat_map (s : str) :
  formatControlChars s = flat_map controlName s.
Proof.
  induction s as [|x t IH]; [reflexivity|].
  change (x :: t) with ([x] ++ t).
  rewrite formatControlChars_app, formatControlChars_one, IH. reflexivity.
Qed.

(** X1.  The four passes of [formatControlChars] amount to one pass that
    replaces each control character by its bracketed name and keeps every
    other character; so formatting distributes over concatenation: the
    formatted text of a buffer is the formatted chunks put together. *)
Theorem formatControlChars_single_pass (a b : str) :
  formatControlChars a = flat_map controlName a /\
  formatControlChars (a ++ b) = formatControlChars a ++ formatControlChars b.
Proof.
  split; [apply formatControlChars_flat_map | apply formatControlChars_app].
Qed.

Lemma controlName_clean (c x : ascii) :
  In x (controlName c) -> isControl x = false.
Proof.
  unfold controlName.
  destruct (Ascii.eqb_spec c STX) as [->|H1];
    [simpl; intros H; repeat (destruct H as [<-|H]; [reflexivity|]); destruct H|].
  destruct (Ascii.eqb_spec c ETX) as [->|H2];
    [simpl; intros H; repeat (destruct H as [<-|H]; [reflexivity|]); destruct H|].
  destruct (Ascii.eqb_spec c CR) as [->|H3];
    [simpl; intros H; repeat (destruct H as [<-|H]; [reflexivity|]); destruct H|].
  destruct (Ascii.eqb_spec c LF) as [->|H4];
    [simpl; intros H; repeat (destruct H as [<-|H]; [reflexivity|]); destruct H|].
  intros [<-|[]]. unfold isControl.
  apply Ascii.eqb_neq in H1, H2, H3, H4. rewrite H1, H2, H3, H4. reflexivity.
Qed.

Lemma formatControlChars_clean (s : str) :
  (forall x, In x s -> isControl x = false) -> formatControlChars s = s.
Proof.
  intros Hc. rewrite formatControlChars_flat_map.
  induction s as [|x t IH]; [reflexivity|].
  cbn [flat_map]. rewrite IH by (intros y Hy; apply Hc; right; assumption).
  assert (Hx : isControl x = false) by (apply Hc; left; reflexivity).
  unfold isControl in Hx. unfold controlName.
  destruct (Ascii.eqb x STX); [discriminate|].
  destruct (Ascii.eqb x ETX); [discriminate|].
  destruct (Ascii.eqb x CR); [discriminate|].
  destruct (Ascii.eqb x LF); [discriminate|]. reflexivity.
Qed.

Lemma formatControlChars_no_control (s : str) (x : ascii) :
  In x (formatControlChars s) -> isControl x = false.
Proof.
  rewrite formatControlChars_flat_map. intros Hi.
  apply in_flat_map in Hi as (c & _ & Hx). eapply controlName_clean. eassumption.
Qed.

(** X2.  The formatted text holds none of the four control characters,
    text without them is left as it is, and formatting twice is formatting
    once. *)
Theorem formatControlChars_removes_controls (s : str) :
  (forall x, In x (formatControlChars s) -> isControl x = false) /\
  ((forall x, In x s -> isControl x = false) -> formatControlChars s = s) /\
  formatControlChars (formatControlChars s) = formatControlChars s.
Proof.
  split; [apply formatControlChars_no_control|].
  split; [apply formatControlChars_clean|].
  apply formatControlChars_clean. apply formatControlChars_no_control.
Qed.

Lemma formatControlChars_removes_controls_witness :
  formatControlChars (lit "D002260") = lit "D002260".
Proof.
  destruct (formatControlChars_removes_controls (lit "D002260")) as (_ & H & _).
  apply H. intros x Hx. simpl in Hx.
  repeat (destruct Hx as [<-|Hx]; [reflexivity|]). destruct Hx.
Defined.

(** X3.  The formatted text does not tell a control character from its
    bracketed name when the data already holds that name: both give the
    same log line, whatever surrounds them. *)
Theorem formatControlChars_ambiguous (a b : str) (c : ascii) :
  isControl c = true ->
  controlName c <> [c] /\
  formatControlChars (a ++ controlName c ++ b) = formatControlChars (a ++ [c] ++ b).
Proof.
  intros Hc. split.
  - unfold isControl in Hc. unfold controlName.
    destruct (Ascii.eqb c STX); [discriminate|].
    destruct (Ascii.eqb c ETX); [discriminate|].
    destruct (Ascii.eqb c CR); [discriminate|].
    destruct (Ascii.eqb c LF); [discriminate|]. discriminate Hc.
  - rewrite !formatControlChars_app, formatControlChars_one. f_equal. f_equal.
    apply formatControlChars_clean. intros x Hx. eapply controlName_clean. eassumption.
Qed.

Lemma formatControlChars_ambiguous_witness :
  formatControlChars (lit "D002260[CR]") = formatControlChars (lit "D002260" ++ [CR]).
Proof.
  destruct (formatControlChars_ambiguous (lit "D002260") [] CR eq_refl) as [_ H].
  exact H.
Defined.

(** ** What the decoders leave in the buffer *)

Lemma lastIndexOf_bounds (c : ascii) (s : str) : -1 <= lastIndexOf c s < len s \/ s = [].
Proof.
  induction s as [|x t IH]; [right; reflexivity|left].
  cbn [lastIndexOf]. unfold len in *. cbn [List.length]. rewrite Nat2Z.inj_succ.
  destruct IH as [IH| ->].
  - destruct (lastIndexOf c t =? -1) eqn:Hq.
    + destruct (Ascii.eqb x c); lia.
    + apply Z.eqb_neq in Hq. lia.
  - cbn. destruct (Ascii.eqb x c); cbn; lia.
Qed.

Lemma lastIndexOf_present (c : ascii) (s : str) :
  lastIndexOf c s <> -1 ->
  exists pre post, s = pre ++ c :: post /\ ~ In c post /\ lastIndexOf c s = len pre.
Proof.
  induction s as [|x t IH]; cbn [lastIndexOf]; [congruence|].
  destruct (lastIndexOf c t =? -1) eqn:Hq.
  - apply Z.eqb_eq in Hq.
    destruct (Ascii.eqb_spec x c) as [->|]; [intros _|congruence].
    exists [], t. repeat split; trivial.
    intros Hin. apply in_split in Hin as (l1 & l2 & ->).
    destruct (lastIndexOf_bounds c (l1 ++ c :: l2)) as [Hb|Hb].
    + clear IH. revert Hq. clear. induction l1 as [|y u IHu]; cbn [app lastIndexOf].
      * destruct (lastIndexOf c l2 =? -1) eqn:H2; [rewrite Ascii.eqb_refl; lia|].
        apply Z.eqb_neq in H2.
        destruct (lastIndexOf_bounds c l2) as [?| ->]; [lia | cbn in H2; congruence].
      * destruct (lastIndexOf c (u ++ c :: l2) =? -1) eqn:H2.
        -- apply Z.eqb_eq in H2. intros _. apply IHu. assumption.
        -- apply Z.eqb_neq in H2.
           destruct (lastIndexOf_bounds c (u ++ c :: l2)) as [?|He]; [lia|].
           destruct u; discriminate He.
    + destruct l1; discriminate Hb.
  - apply Z.eqb_neq in Hq. intros _.
    destruct (IH Hq) as (pre & post & -> & Hn & Hl).
    exists (x :: pre), post. repeat split; trivial.
    rewrite Hl. unfold len. cbn [List.length]. lia.
Qed.

Lemma indexOf_bounds (c : ascii) (s : str) : -1 <= indexOf c s.
Proof.
  induction s as [|x t IH]; cbn [indexOf]; [lia|].
  destruct (Ascii.eqb x c); [lia|].
  destruct (indexOf c t =? -1); lia.
Qed.

Lemma substring_add (pre s : str) (k : Z) :
  0 <= k -> substring (len pre + k) (pre ++ s) = substring k s.
Proof.
  intros Hk. unfold substring, len.
  rewrite Z2Nat.inj_add by lia. rewrite Nat2Z.id.
  rewrite Nat.add_comm, <- skipn_skipn.
  rewrite skipn_app, skipn_all, Nat.sub_diag. reflexivity.
Qed.

Section BufferFacts.

Context {E : RegExpEngine}.

Lemma processFrameProtocol_suffix (data : str) (r : Reader) :
  exists dropped,
    dataBuffer r = dropped ++ dataBuffer (snd (processFrameProtocol data r)).
Proof.
  unfold processFrameProtocol.
  destruct (negb (lastIndexOf STX (dataBuffer r) =? -1)); cbn [snd];
    [|apply clearOldData_suffix].
  destruct (negb (indexOf ETX _ =? -1)); cbn [snd]; [|apply clearOldData_suffix].
  match goal with |- context [applyRegexFilter ?f r] =>
    pose proof (applyRegexFilter_fields f r) as (_ & _ & Hb);
    destruct (applyRegexFilter f r) as [[w|] r1] end; cbn [fst snd] in *.
  - rewrite Hb. cbn [dataBuffer setBuffer]. apply substring_suffix.
  - rewrite <- Hb. apply clearOldData_suffix.
Qed.

Lemma processFrameProtocol_leftover (data : str) (r : Reader) (w : Z) :
  fst (processFrameProtocol data r) = Some w ->
  ~ In STX (dataBuffer (snd (processFrameProtocol data r))).
Proof.
  unfold processFrameProtocol.
  destruct (lastIndexOf STX (dataBuffer r) =? -1) eqn:Hl; cbn [negb fst snd];
    [discriminate|].
  apply Z.eqb_neq in Hl.
  destruct (lastIndexOf_present STX (dataBuffer r) Hl) as (pre & post & Hb & Hn & Hi).
  rewrite Hi, Hb, !substring_app.
  destruct (indexOf ETX (STX :: post) =? -1) eqn:He; cbn [negb fst snd];
    [discriminate|].
  apply Z.eqb_neq in He.
  match goal with |- context [applyRegexFilter ?f r] =>
    pose proof (applyRegexFilter_fields f r) as (_ & _ & Hb1);
    destruct (applyRegexFilter f r) as [[w1|] r1] end; cbn [fst snd] in *;
    [|discriminate].
  intros _. cbn [dataBuffer setBuffer]. rewrite Hb1, Hb.
  pose proof (indexOf_bounds ETX (STX :: post)) as Hge.
  rewrite <- Z.add_assoc, substring_add by lia.
  unfold substring.
  replace (Z.to_nat (indexOf ETX (STX :: post) + 1))
    with (S (Z.to_nat (indexOf ETX (STX :: post)))) by lia.
  cbn [skipn]. intros Hin. apply Hn.
  rewrite <- (firstn_skipn (Z.to_nat (indexOf ETX (STX :: post))) post).
  apply in_or_app. right. assumption.
Qed.

End BufferFacts.

Section BufferSession.

Context {E : RegExpEngine}.

Lemma decodeChunk_suffix (data : str) (r : Reader) :
  exists dropped, dataBuffer r = dropped ++ dataBuffer (snd (decodeChunk data r)).
Proof.
  unfold decodeChunk. destruct (isFrame (config r)).
  - apply processFrameProtocol_suffix.
  - exists []. destruct (processLineProtocol_device data r) as [_ Hb].
    rewrite Hb. reflexivity.
Qed.

Lemma dataHandler_buffer (data : str) (r : Reader) (c : Collect) :
  dataBuffer (fst (dataHandler data r c))
  = dataBuffer (snd (decodeChunk data (setBuffer (dataBuffer r ++ data) r))).
Proof.
  unfold dataHandler.
  destruct (decodeChunk data (setBuffer (dataBuffer r ++ data) r)) as [[w|] r1];
    cbn [snd]; [|reflexivity].
  destruct (isFrame (config r1)); reflexivity.
Qed.

(** The timer never resolves: when the events leave the promise
    unsettled, nothing was recorded. *)
Lemma collectData_timer_rejects (d : Driver) (r : Reader) :
  fst (collectData d r)
  = match settled (snd (collectRun d r)) with
    | Some v => Some v
    | None => Some (inl (timeoutMessage (config r)))
    end.
Proof.
  rewrite collectData_result. cbn [fst].
  pose proof (collectRun_Inv d r) as (Ht & Hf & _).
  destruct (settled (snd (collectRun d r))) eqn:Hs; [reflexivity|].
  destruct (timer (snd (collectRun d r))) eqn:Htm.
  - destruct (Ht eq_refl) as (_ & -> & _). reflexivity.
  - exfalso. apply (Hf eq_refl). reflexivity.
Qed.

Lemma readWeight_success_inv (d : Driver) (r : Reader) w p raw t :
  snd (readWeight d r) = Some (Success w p raw t) ->
  exists res,
    settled (snd (collectRun d (snd (openPort d r)))) = Some (inr res) /\
    w = weight res /\ raw = rawData res.
Proof.
  unfold readWeight.
  destruct (openPort d r) as [[msg|[]] r1]; cbn [snd]; [discriminate|].
  destruct (unhandled (snd (collectRun d r1))); [cbn [snd]; discriminate|].
  pose proof (collectData_timer_rejects d r1) as Hc.
  destruct (collectData d r1) as [[[msg|res]|] r2]; cbn [fst snd] in *;
    try discriminate.
  intros Hs. injection Hs as <- _ <- _. exists res.
  destruct (settled (snd (collectRun d r1))) as [v|]; [|discriminate].
  injection Hc as <-. auto.
Qed.

Lemma run_frame_raw (evs : list PortEvent) (r : Reader) (c : Collect) :
  isFrame (config r) = true ->
  (forall res, settled c = Some (inr res) -> ~ In STX (rawData res)) ->
  forall res, settled (snd (fold_left deliver evs (r, c))) = Some (inr res) ->
              ~ In STX (rawData res).
Proof.
  revert r c. induction evs as [|ev evs IH]; intros r c Hf Hc; cbn [fold_left];
    [exact Hc|].
  pose proof (deliver_device r c ev) as (Hcfg & _).
  assert (Hstep : forall res, settled (snd (deliver (r, c) ev)) = Some (inr res) ->
                              ~ In STX (rawData res)).
  { destruct ev as [chunk|msg]; cbn [deliver].
    - destruct (onData c); [|exact Hc]. unfold dataHandler.
      set (r0 := setBuffer (dataBuffer r ++ chunk) r).
      assert (Hd : decodeChunk chunk r0 = processFrameProtocol chunk r0)
        by (unfold decodeChunk; cbn [config r0 setBuffer]; rewrite Hf; reflexivity).
      rewrite Hd.
      pose proof (processFrameProtocol_leftover chunk r0) as Hl.
      destruct (processFrameProtocol chunk r0) as [[w|] r1]; cbn [fst snd] in *.
      + intros res.
        destruct (isFrame (config r1)); simpl;
          (destruct (settled c) as [old|] eqn:Hs;
           [intros Hr; apply Hc; congruence
           |intros Hr; injection Hr as <-; cbn [rawData]; apply (Hl w eq_refl)]).
      + exact Hc.
    - destruct (onError c); [|exact Hc]. unfold errorHandler. simpl.
      intros res. destruct (settled c) as [old|] eqn:Hs; [|discriminate].
      intros Hr. apply Hc. congruence. }
  destruct (deliver (r, c) ev) as [r1 c1]. cbn [fst snd] in *.
  apply IH; [rewrite Hcfg; exact Hf | exact Hstep].
Qed.

End BufferSession.

(** X4.  The buffer is only ever shortened from the front: after a chunk
    is handled, in either mode, the buffer is the end of what it was with
    the chunk appended.  And after the frame decoder returns a reading,
    what it leaves in the buffer holds no start marker. *)
Theorem buffer_keeps_a_suffix {E : RegExpEngine}
    (data : str) (r : Reader) (c : Collect) :
  (exists dropped,
     dataBuffer r ++ data = dropped ++ dataBuffer (fst (dataHandler data r c))) /\
  (forall w, fst (processFrameProtocol data r) = Some w ->
     ~ In STX (dataBuffer (snd (processFrameProtocol data r)))).
Proof.
  split.
  - rewrite dataHandler_buffer.
    apply (decodeChunk_suffix data (setBuffer (dataBuffer r ++ data) r)).
  - intros w. apply processFrameProtocol_leftover.
Qed.

Lemma buffer_keeps_a_suffix_witness :
  ~ In STX (dataBuffer (snd (processFrameProtocol [] (setBuffer frameSample (newReader sanJuan))))).
Proof.
  destruct (@buffer_keeps_a_suffix MiniEngine [] (setBuffer frameSample (newReader sanJuan))
              freshCollect) as [_ H].
  apply (H 20450). vm_compute. reflexivity.
Defined.

(** X5.  The timer never resolves a session: the promise of [collectData]
    is the first settlement made by an event, and when no event settled it
    the timer rejects with the timeout message.  The branch of the timer
    callback that would resolve with [lastValidWeight] is never taken. *)
Theorem timer_only_rejects {E : RegExpEngine} (d : Driver) (r : Reader) :
  fst (collectData d r)
  = match settled (snd (collectRun d r)) with
    | Some v => Some v
    | None => Some (inl (timeoutMessage (config r)))
    end /\
  (timer (snd (collectRun d r)) = true ->
   lastValidWeight (snd (collectRun d r)) = None).
Proof.
  split; [apply collectData_timer_rejects|].
  intros Ht. destruct (collectRun_Inv d r) as (H & _). apply H. assumption.
Qed.

Lemma timer_only_rejects_witness :
  lastValidWeight (snd (collectRun (quietDriver [Data (lit "no weight")])
                          (newReader sanJuan))) = None.
Proof.
  destruct (@timer_only_rejects MiniEngine (quietDriver [Data (lit "no weight")])
              (newReader sanJuan)) as [_ H].
  apply H. vm_compute. reflexivity.
Defined.

(** X6.  In frame mode the raw data of a success is what followed the
    frame in the buffer, not the frame: it never holds a start marker. *)
Theorem frame_success_raw_data {E : RegExpEngine}
    (d : Driver) (r : Reader) (w : Z) (p raw : str) (t : Z) :
  isFrame (config r) = true ->
  snd (readWeight d r) = Some (Success w p raw t) ->
  ~ In STX raw.
Proof.
  intros Hf Hs. destruct (readWeight_success_inv d r w p raw t Hs) as (res & Hr & _ & ->).
  unfold collectRun in Hr.
  apply (run_frame_raw (incoming d) (setBuffer [] (snd (openPort d r))) freshCollect);
    [cbn [config setBuffer]; rewrite openPort_config; exact Hf
    |intros res0 H0; discriminate H0
    |exact Hr].
Qed.

Lemma frame_success_raw_data_witness :
  snd (readWeight (quietDriver [Data (frameSample ++ lit "1" ++ [CR; LF] ++ lit "2")])
         (newReader sanJuan))
  = Some (Success 20450 (lit "frame") (lit "1" ++ [CR; LF] ++ lit "2") 0) /\
  ~ In STX (lit "1" ++ [CR; LF] ++ lit "2").
Proof.
  assert (H : snd (readWeight
                     (quietDriver [Data (frameSample ++ lit "1" ++ [CR; LF] ++ lit "2")])
                     (newReader sanJuan))
              = Some (Success 20450 (lit "frame") (lit "1" ++ [CR; LF] ++ lit "2") 0))
    by (vm_compute; reflexivity).
  split; [exact H|].
  apply (@frame_success_raw_data MiniEngine
           (quietDriver [Data (frameSample ++ lit "1" ++ [CR; LF] ++ lit "2")])
           (newReader sanJuan) 20450 (lit "frame") (lit "1" ++ [CR; LF] ++ lit "2") 0).
  - reflexivity.
  - exact H.
Defined.

(** ** Transport errors *)

Lemma readWeight_rejected {E : RegExpEngine} (d : Driver) (r : Reader) (msg : str) :
  ctorError d = None -> openError d = None -> errorsHandled d r ->
  settled (snd (collectRun d (snd (openPort d r)))) = Some (inl msg) ->
  snd (readWeight d r) = Some (Failure msg (now_end d - now_start d)).
Proof.
  intros Hc Ho Hh Hs. rewrite readWeight_handled by (intros _ _; exact Hh).
  assert (Hopen : fst (openPort d r) = inr tt)
    by (unfold openPort; rewrite Hc, Ho; reflexivity).
  destruct (openPort d r) as [o r0]. cbn [fst snd] in *. subst o.
  pose proof (collectData_result d r0) as Hres. rewrite Hs in Hres.
  destruct (collectData d r0) as [v r2]. injection Hres as -> ->.
  reflexivity.
Qed.

Lemma run_error_settles {E : RegExpEngine}
    (before after : list PortEvent) (r : Reader) (c : Collect) (msg : str) :
  Inv c ->
  settled (snd (fold_left deliver before (r, c))) = None ->
  settled (snd (fold_left deliver (before ++ PortError msg :: after) (r, c)))
  = Some (inl (lit "Serial port error: " ++ msg)).
Proof.
  intros Hi Hs. rewrite fold_left_app.
  pose proof (run_Inv before r c Hi) as (Ht & Hf & _).
  destruct (fold_left deliver before (r, c)) as [r1 c1]. cbn [snd] in *.
  assert (Hon : onError c1 = true).
  { destruct (timer c1) eqn:Htm.
    - apply (Ht eq_refl).
    - exfalso. apply (Hf eq_refl). exact Hs. }
  cbn [fold_left].
  assert (Hstep : deliver (r1, c1) (PortError msg)
                  = (r1, settle (inl (lit "Serial port error: " ++ msg)) (clearTimeout c1)))
    by (unfold deliver; rewrite Hon; reflexivity).
  rewrite Hstep. apply run_stable. simpl. rewrite Hs. reflexivity.
Qed.

Lemma run_error_handled {E : RegExpEngine}
    (before after : list PortEvent) (r : Reader) (c : Collect) (msg : str) :
  Inv c -> (onError c = true -> unhandled c = None) ->
  settled (snd (fold_left deliver before (r, c))) = None ->
  noPortError after ->
  unhandled (snd (fold_left deliver (before ++ PortError msg :: after) (r, c))) = None.
Proof.
  intros Hi Hl Hs Hn. rewrite fold_left_app.
  pose proof (run_Inv before r c Hi) as (Ht & Hf & _).
  pose proof (run_listening before r c Hl) as Hu.
  destruct (fold_left deliver before (r, c)) as [r1 c1]. cbn [snd] in *.
  assert (Hon : onError c1 = true).
  { destruct (timer c1) eqn:Htm.
    - apply (Ht eq_refl).
    - exfalso. apply (Hf eq_refl). exact Hs. }
  cbn [fold_left].
  assert (Hstep : deliver (r1, c1) (PortError msg)
                  = (r1, settle (inl (lit "Serial port error: " ++ msg)) (clearTimeout c1)))
    by (unfold deliver; rewrite Hon; reflexivity).
  rewrite Hstep. apply run_handled_data; [exact Hn|]. simpl. apply Hu. exact Hon.
Qed.

(** X7.  A port error that arrives while the promise is unsettled decides
    the session: [readWeight] returns the failure with the port's message
    and the timer no longer fires, whatever data or errors follow in line
    mode, and whatever data follow in frame mode. *)
Theorem port_error_preempts {E : RegExpEngine}
    (d : Driver) (r : Reader) (before after : list PortEvent) (msg : str) :
  ctorError d = None -> openError d = None ->
  incoming d = before ++ PortError msg :: after ->
  isFrame (config r) = false \/ noPortError after ->
  settled (snd (collectRun (withIncoming d before) (snd (openPort d r)))) = None ->
  snd (readWeight d r)
  = Some (Failure (lit "Serial port error: " ++ msg) (now_end d - now_start d)) /\
  timer (snd (collectRun d (snd (openPort d r)))) = false.
Proof.
  intros Hc Ho Hin Hafter Hs.
  assert (Hrun : settled (snd (collectRun d (snd (openPort d r))))
                 = Some (inl (lit "Serial port error: " ++ msg))).
  { unfold collectRun in *. rewrite Hin. cbn [incoming withIncoming] in Hs.
    apply run_error_settles; [apply Inv_fresh | exact Hs]. }
  assert (Hh : errorsHandled d r).
  { destruct Hafter as [Hf|Hn]; [apply errorsHandled_line; exact Hf|].
    apply (errorsHandled_view d (snd (openPort d r)) r (openPort_config d r)).
    unfold errorsHandled, collectRun in *. rewrite Hin.
    cbn [incoming withIncoming] in Hs.
    apply run_error_handled;
      [apply Inv_fresh | intros _; reflexivity | exact Hs | exact Hn]. }
  split.
  - apply readWeight_rejected; assumption.
  - pose proof (collectRun_Inv d (snd (openPort d r))) as (Ht & _).
    destruct (timer (snd (collectRun d (snd (openPort d r))))) eqn:Htm; [|reflexivity].
    destruct (Ht eq_refl) as (Hn & _). congruence.
Qed.

Lemma port_error_preempts_witness :
  snd (readWeight
         (quietDriver [Data (lit "D0022"); PortError (lit "unplugged");
                       Data (lit "60" ++ [CR])])
         (newReader coquimbito))
  = Some (Failure (lit "Serial port error: unplugged") 0).
Proof.
  destruct (@port_error_preempts MiniEngine
              (quietDriver [Data (lit "D0022"); PortError (lit "unplugged");
                            Data (lit "60" ++ [CR])])
              (newReader coquimbito) [Data (lit "D0022")] [Data (lit "60" ++ [CR])]
              (lit "unplugged")) as [H _].
  - reflexivity.
  - reflexivity.
  - reflexivity.
  - left. reflexivity.
  - vm_compute. reflexivity.
  - exact H.
Defined.

(** ** What a session depends on *)

Section OutcomeFacts.

Context {E : RegExpEngine}.

Lemma collectData_view (d : Driver) (r r' : Reader) :
  config r = config r' ->
  fst (collectData d r) = fst (collectData d r').
Proof.
  intros Hc. rewrite !collectData_timer_rejects. unfold collectRun.
  assert (Hv : sameView (setBuffer [] r) (setBuffer [] r'))
    by (split; cbn; congruence).
  destruct (run_view (incoming d) _ _ freshCollect Hv) as [Hs _].
  rewrite Hs, Hc. reflexivity.
Qed.

Lemma readWeight_outcome (d : Driver) (r : Reader) :
  snd (readWeight d r)
  = match fst (openPort d r) with
    | inl msg => Some (Failure msg (now_end d - now_start d))
    | inr _ =>
        match unhandled (snd (collectRun d (snd (openPort d r)))) with
        | Some _ => None
        | None =>
            match fst (collectData d (snd (openPort d r))) with
            | Some (inr res) =>
                Some (Success (weight res) (protocolType (config r)) (rawData res)
                        (now_end d - now_start d))
            | Some (inl msg) => Some (Failure msg (now_end d - now_start d))
            | None => None
            end
        end
    end.
Proof.
  unfold readWeight. pose proof (openPort_config d r) as Hoc.
  destruct (openPort d r) as [[msg|[]] r1]; cbn [fst snd] in *; [reflexivity|].
  destruct (unhandled (snd (collectRun d r1))); [reflexivity|].
  pose proof (collectData_device d r1) as (Hc & _).
  destruct (collectData d r1) as [[[msg|res]|] r2]; cbn [fst snd] in *;
    try reflexivity.
  rewrite closePort_config, Hc, Hoc. reflexivity.
Qed.

End OutcomeFacts.

Lemma openPort_fst (d : Driver) (r r' : Reader) :
  config r = config r' -> fst (openPort d r) = fst (openPort d r').
Proof.
  intros Hc. unfold openPort. rewrite Hc.
  destruct (ctorError d); [reflexivity|].
  destruct (openError d); reflexivity.
Qed.

(** X8.  The result of a session depends on the configuration and on the
    environment only: whatever an earlier session left in the reader (its
    buffer, its port object) does not change what [readWeight] returns. *)
Theorem readWeight_ignores_leftovers {E : RegExpEngine} (d : Driver) (r r' : Reader) :
  config r = config r' -> snd (readWeight d r) = snd (readWeight d r').
Proof.
  intros Hc. rewrite !readWeight_outcome.
  rewrite (openPort_fst d r r' Hc), Hc.
  destruct (fst (openPort d r')); [reflexivity|].
  assert (Hc' : config (snd (openPort d r)) = config (snd (openPort d r')))
    by (rewrite !openPort_config; exact Hc).
  rewrite (collectRun_view d _ _ Hc'), (collectData_view d _ _ Hc'). reflexivity.
Qed.

Lemma readWeight_ignores_leftovers_witness :
  snd (readWeight (quietDriver [Data (lit "D002260" ++ [CR])])
         (fst (readWeight (quietDriver [Data (lit "F000000" ++ [CR])])
                 (newReader coquimbito))))
  = snd (readWeight (quietDriver [Data (lit "D002260" ++ [CR])]) (newReader coquimbito)).
Proof.
  apply (@readWeight_ignores_leftovers MiniEngine). reflexivity.
Defined.

(** X9.  An error of the signal-set that follows the opening is not
    fatal: the session goes on and returns what it would have returned
    without the error. *)
Theorem open_signal_error_is_not_fatal {E : RegExpEngine}
    (d : Driver) (r : Reader) (e : option str) :
  fst (openPort (withOpenSet d e) r) = fst (openPort d r) /\
  snd (readWeight (withOpenSet d e) r) = snd (readWeight d r).
Proof.
  assert (Ho : fst (openPort (withOpenSet d e) r) = fst (openPort d r)).
  { unfold openPort. cbn [ctorError openError withOpenSet].
    destruct (ctorError d); [reflexivity|]. destruct (openError d); reflexivity. }
  split; [exact Ho|].
  rewrite !readWeight_outcome. rewrite Ho. cbn [now_end now_start withOpenSet].
  destruct (fst (openPort d r)); [reflexivity|].
  change (collectData (withOpenSet d e)) with (collectData d).
  change (collectRun (withOpenSet d e)) with (collectRun d).
  assert (Hc' : config (snd (openPort (withOpenSet d e) r)) = config (snd (openPort d r)))
    by (rewrite !openPort_config; reflexivity).
  rewrite (collectRun_view d _ _ Hc'), (collectData_view d _ _ Hc'). reflexivity.
Qed.

(** ** Lines that are not yet terminated *)

Lemma split_nonempty (c : ascii) (s : str) : exists h t, split c s = h :: t.
Proof.
  induction s as [|x u IH]; cbn [split]; [eauto|].
  destruct (Ascii.eqb x c); [eauto|].
  destruct IH as (h & t & ->). eauto.
Qed.

Lemma split_terminated (c : ascii) (s : str) :
  split c (s ++ [c]) = split c s ++ [[]].
Proof.
  induction s as [|x u IH]; cbn [split app].
  - rewrite Ascii.eqb_refl. reflexivity.
  - destruct (Ascii.eqb x c); [rewrite IH; reflexivity|].
    rewrite IH. destruct (split_nonempty c u) as (h & t & ->). reflexivity.
Qed.

Lemma candidateLines_terminated (buf : str) :
  candidateLines (buf ++ [CR]) = candidateLines buf.
Proof.
  unfold candidateLines. rewrite split_terminated, filter_app, map_app.
  cbn. apply app_nil_r.
Qed.

Lemma includes_app (c : ascii) (a b : str) :
  includes c (a ++ b) = includes c a || includes c b.
Proof. unfold includes. apply existsb_app. Qed.

(** X10.  The line decoder does not tell a terminated last line from an
    unterminated one: a buffer gives the same reading with or without a
    terminator at its end.  So a chunk that holds a terminator and then
    the beginning of the next line has that beginning evaluated as if the
    line were complete. *)
Theorem line_decoder_reads_partial_line {E : RegExpEngine}
    (r : Reader) (buf data : str) :
  candidateLines (buf ++ [CR]) = candidateLines buf /\
  (includes CR data = true ->
   fst (processLineProtocol data (setBuffer (buf ++ [CR]) r))
   = fst (processLineProtocol data (setBuffer buf r))) /\
  (includes CR data = true ->
   lineScan r buf (data ++ [CR]) = lineScan r buf data).
Proof.
  split; [apply candidateLines_terminated|]. split.
  - intros Hi. rewrite !(processLineProtocol_firstReading data _ Hi).
    cbn [dataBuffer setBuffer]. rewrite candidateLines_terminated.
    apply firstReading_config. reflexivity.
  - intros Hi. unfold lineScan. rewrite includes_app, Hi. cbn [orb].
    rewrite app_assoc, candidateLines_terminated. reflexivity.
Qed.

Lemma line_decoder_reads_partial_line_witness :
  fst (processLineProtocol [CR] (setBuffer ([CR] ++ lit "D0022") (newReader coquimbito)))
  = Some 22.
Proof.
  destruct (@line_decoder_reads_partial_line MiniEngine (newReader coquimbito)
              ([CR] ++ lit "D0022") [CR]) as (_ & H & _).
  rewrite <- H; [|reflexivity]. vm_compute. reflexivity.
Defined.

(** ** Frames that arrive in pieces *)

Lemma in_last_split (c : ascii) (s : str) :
  In c s -> exists pre post, s = pre ++ c :: post /\ ~ In c post.
Proof.
  induction s as [|x t IH]; [intros []|]. intros Hi.
  destruct (in_dec ascii_dec c t) as [Ht|Ht].
  - destruct (IH Ht) as (pre & post & -> & Hn). exists (x :: pre), post. auto.
  - destruct Hi as [->|Hi]; [|contradiction]. exists [], t. auto.
Qed.

Lemma app_same_length (A : Type) (a a' b b' : list A) :
  List.length a = List.length a' -> a ++ b = a' ++ b' -> a = a' /\ b = b'.
Proof.
  revert a'. induction a as [|x t IH]; intros [|y u] Hl He; try discriminate Hl.
  - auto.
  - injection He as -> He. injection Hl as Hl.
    destruct (IH u Hl He) as [-> ->]. auto.
Qed.

Lemma last_split_unique (c : ascii) (pre pre' tail tail' : str) :
  ~ In c tail -> ~ In c tail' ->
  pre ++ c :: tail = pre' ++ c :: tail' -> pre = pre' /\ tail = tail'.
Proof.
  intros Hn Hn' He.
  assert (Hl : len pre = len pre').
  { rewrite <- (lastIndexOf_last c pre tail Hn), He. apply lastIndexOf_last. exact Hn'. }
  unfold len in Hl. apply Nat2Z.inj in Hl.
  destruct (app_same_length _ _ _ _ _ Hl He) as [-> Ht]. injection Ht as ->. auto.
Qed.

Section FramePieces.

Context {E : RegExpEngine}.

Lemma clearOldData_keeps_marker (r : Reader) :
  In STX (dataBuffer r) -> In STX (dataBuffer (clearOldData r)).
Proof.
  intros Hi. destruct (Z_le_gt_dec (len (dataBuffer r)) 1000) as [Hl|Hl].
  - rewrite clearOldData_small by assumption. exact Hi.
  - destruct (in_last_split STX _ Hi) as (pre & post & Hb & Hn).
    rewrite (clearOldData_marker r pre post Hl Hb Hn). left. reflexivity.
Qed.

(** Chunks that bring no end marker leave the promise pending and keep
    the text from the last start marker on. *)
Lemma run_frame_pending (chunks : list str) (r : Reader) (c : Collect) :
  isFrame (config r) = true -> settled c = None -> onData c = true ->
  ~ In ETX (dataBuffer r ++ List.concat chunks) ->
  let st := fold_left deliver (map Data chunks) (r, c) in
  config (fst st) = config r /\ settled (snd st) = None /\ onData (snd st) = true /\
  (exists dropped,
     dataBuffer r ++ List.concat chunks = dropped ++ dataBuffer (fst st)) /\
  (In STX (dataBuffer r ++ List.concat chunks) -> In STX (dataBuffer (fst st))).
Proof.
  revert r c. induction chunks as [|chunk rest IH]; intros r c Hf Hs Hon Hn.
  - cbn. rewrite app_nil_r. repeat split; auto. exists []. reflexivity.
  - cbn [map fold_left List.concat] in *.
    set (r0 := setBuffer (dataBuffer r ++ chunk) r).
    assert (Hstep : deliver (r, c) (Data chunk)
                    = (clearOldData r0, setWeights None (lastValidWeight c) c)).
    { unfold deliver. rewrite Hon. unfold dataHandler, decodeChunk. fold r0.
      cbn [config r0 setBuffer]. rewrite Hf.
      rewrite processFrameProtocol_no_etx; [reflexivity|].
      cbn [dataBuffer r0 setBuffer]. intros Hi. apply Hn.
      rewrite app_assoc. apply in_or_app. left. exact Hi. }
    rewrite Hstep.
    destruct (clearOldData_device r0) as (Hc1 & _).
    destruct (clearOldData_suffix r0) as [d1 Hd1]. cbn [dataBuffer r0 setBuffer] in Hd1.
    assert (Hn1 : ~ In ETX (dataBuffer (clearOldData r0) ++ List.concat rest)).
    { intros Hi. apply Hn. rewrite app_assoc, Hd1, <- app_assoc.
      apply in_or_app. right. exact Hi. }
    destruct (IH (clearOldData r0) (setWeights None (lastValidWeight c) c))
      as (H1 & H2 & H3 & (d2 & H4) & H5); try assumption.
    + rewrite Hc1. exact Hf.
    + split; [rewrite H1, Hc1; reflexivity|].
      split; [exact H2|]. split; [exact H3|]. split.
      * exists (d1 ++ d2). rewrite app_assoc, Hd1, <- !app_assoc, H4. reflexivity.
      * intros Hi. apply H5. rewrite app_assoc in Hi.
        apply in_app_or in Hi as [Hi|Hi]; apply in_or_app; [left|right; exact Hi].
        apply (clearOldData_keeps_marker r0). exact Hi.
Qed.

End FramePieces.

(** X11.  A frame is decoded however it is cut into chunks, and whatever
    the overflow rule dropped meanwhile: when the chunks received before
    bring no end marker, and the chunk that follows completes a text
    [... STX body ETX post] whose span the pattern accepts, and no error
    event of the port follows, the session succeeds with that reading,
    and [post] is its raw data. *)
Theorem frame_reassembled_across_chunks {E : RegExpEngine}
    (d : Driver) (r : Reader) (chunks : list str) (last pre body post : str)
    (rest : list PortEvent) (w : Z) :
  isFrame (config r) = true -> ctorError d = None -> openError d = None ->
  incoming d = map Data chunks ++ Data last :: rest ->
  noPortError rest ->
  ~ In ETX (List.concat chunks) ->
  List.concat chunks ++ last = pre ++ STX :: body ++ ETX :: post ->
  ~ In STX body -> ~ In ETX body -> ~ In STX post ->
  fst (applyRegexFilter (STX :: body ++ [ETX]) r) = Some w ->
  snd (readWeight d r)
  = Some (Success w (protocolType (config r)) post (now_end d - now_start d)).
Proof.
  intros Hf Hc Ho Hin Hrest Hne Hb Hs He Hp Hw.
  assert (Hh : errorsHandled d r).
  { apply errorsHandled_data. rewrite Hin.
    apply noPortError_data, noPortError_cons. exact Hrest. }
  pose proof (openPort_config d r) as Hoc.
  set (r0 := setBuffer [] (snd (openPort d r))).
  assert (Hf0 : isFrame (config r0) = true) by (cbn; rewrite Hoc; exact Hf).
  destruct (run_frame_pending chunks r0 freshCollect Hf0 eq_refl eq_refl Hne)
    as (H1 & H2 & H3 & (dropped & H4) & H5).
  cbn [dataBuffer r0 setBuffer app] in H4, H5.
  set (st := fold_left deliver (map Data chunks) (r0, freshCollect)) in *.
  assert (Htail : ~ In STX (body ++ ETX :: post)).
  { intros Hi. apply in_app_or in Hi as [Hi|[Hi|Hi]]; [tauto | discriminate Hi | tauto]. }
  assert (Hin2 : In STX (dataBuffer (fst st) ++ last)).
  { assert (Hall : In STX (List.concat chunks ++ last))
      by (rewrite Hb; apply in_or_app; right; left; reflexivity).
    apply in_app_or in Hall as [Hi|Hi]; apply in_or_app; [left; apply H5; exact Hi|].
    right. exact Hi. }
  destruct (in_last_split STX _ Hin2) as (p & q & Hpq & Hq).
  assert (Hq' : q = body ++ ETX :: post).
  { assert (Heq : (dropped ++ p) ++ STX :: q = pre ++ STX :: body ++ ETX :: post).
    { rewrite <- Hb, H4, <- !app_assoc. f_equal. symmetry. exact Hpq. }
    destruct (last_split_unique STX _ _ _ _ Hq Htail Heq) as [_ ?]. assumption. }
  subst q.
  assert (Hd : decodeChunk last (setBuffer (dataBuffer (fst st) ++ last) (fst st))
               = (Some w, setBuffer post (fst st))).
  { apply (decodeChunk_frame_span last _ p body post w (fst st)); try assumption.
    - rewrite H1. exact Hf0.
    - rewrite <- Hw. apply applyRegexFilter_config_only. rewrite H1. cbn. exact Hoc. }
  rewrite (readWeight_resolved d r {| weight := w; rawData := post |} Hc Ho Hh);
    [reflexivity|].
  unfold collectRun. fold r0. rewrite Hin, fold_left_app. fold st.
  destruct st as [rs cs]. cbn [fst snd] in *.
  apply (run_resolves_here rest last rs (setBuffer post rs) cs w H2 H3 Hd).
Qed.

Lemma frame_reassembled_across_chunks_witness :
  snd (readWeight
         (quietDriver [Data ([STX] ++ lit "1" ++ [CR]); Data ([LF] ++ lit "204");
                       Data (lit "50" ++ [CR; LF] ++ lit "0" ++ [ETX])])
         (newReader sanJuan))
  = Some (Success 20450 (lit "frame") [] 0).
Proof.
  apply (@frame_reassembled_across_chunks MiniEngine
           (quietDriver [Data ([STX] ++ lit "1" ++ [CR]); Data ([LF] ++ lit "204");
                         Data (lit "50" ++ [CR; LF] ++ lit "0" ++ [ETX])])
           (newReader sanJuan)
           [[STX] ++ lit "1" ++ [CR]; [LF] ++ lit "204"]
           (lit "50" ++ [CR; LF] ++ lit "0" ++ [ETX]) []
           (lit "1" ++ [CR; LF] ++ lit "20450" ++ [CR; LF] ++ lit "0") [] [] 20450).
  - reflexivity.
  - reflexivity.
  - reflexivity.
  - reflexivity.
  - intros msg [].
  - simpl. intros H. repeat (destruct H as [H|H]; [discriminate|]). exact H.
  - reflexivity.
  - simpl. intros H. repeat (destruct H as [H|H]; [discriminate|]). exact H.
  - simpl. intros H. repeat (destruct H as [H|H]; [discriminate|]). exact H.
  - simpl. intros H. exact H.
  - vm_compute. reflexivity.
Defined.

(** ** Sessions that never see a terminator *)

Lemma readWeight_unsettled {E : RegExpEngine} (d : Driver) (r : Reader) :
  ctorError d = None -> openError d = None -> errorsHandled d r ->
  settled (snd (collectRun d (snd (openPort d r)))) = None ->
  snd (readWeight d r)
  = Some (Failure (timeoutMessage (config r)) (now_end d - now_start d)).
Proof.
  intros Hc Ho Hh Hs. rewrite readWeight_outcome.
  assert (Hopen : fst (openPort d r) = inr tt)
    by (unfold openPort; rewrite Hc, Ho; reflexivity).
  rewrite Hopen.
  rewrite (errorsHandled_view d r _ (eq_sym (openPort_config d r)) Hh).
  rewrite collectData_timer_rejects, Hs, openPort_config. reflexivity.
Qed.

(** X12.  In frame mode nothing is read before an end marker arrives: a
    session whose chunks hold no end marker returns the timeout failure,
    whatever the pattern and whatever else the chunks hold. *)
Theorem frame_mode_needs_end_marker {E : RegExpEngine}
    (d : Driver) (r : Reader) (chunks : list str) :
  isFrame (config r) = true -> ctorError d = None -> openError d = None ->
  incoming d = map Data chunks ->
  ~ In ETX (List.concat chunks) ->
  snd (readWeight d r)
  = Some (Failure (timeoutMessage (config r)) (now_end d - now_start d)).
Proof.
  intros Hf Hc Ho Hin Hn.
  assert (Hh : errorsHandled d r).
  { apply errorsHandled_data. rewrite Hin, <- (app_nil_r (map Data chunks)).
    apply noPortError_data. intros msg []. }
  apply readWeight_unsettled; try assumption.
  unfold collectRun. rewrite Hin.
  apply (run_frame_pending chunks (setBuffer [] (snd (openPort d r))) freshCollect);
    try reflexivity; try assumption.
  cbn. rewrite openPort_config. exact Hf.
Qed.

Lemma frame_mode_needs_end_marker_witness :
  snd (readWeight (quietDriver (map Data [lit "D002260" ++ [CR]; lit "D002260" ++ [CR]]))
         (newReader (sampleConfig "frame" "[D@F](\d+)" false false 50 50)))
  = Some (Failure (lit "Timeout: No valid weight data received in 3000ms") 0).
Proof.
  apply (@frame_mode_needs_end_marker MiniEngine
           (quietDriver (map Data [lit "D002260" ++ [CR]; lit "D002260" ++ [CR]]))
           (newReader (sampleConfig "frame" "[D@F](\d+)" false false 50 50))
           [lit "D002260" ++ [CR]; lit "D002260" ++ [CR]]).
  - reflexivity.
  - reflexivity.
  - reflexivity.
  - reflexivity.
  - simpl. intros H. repeat (destruct H as [H|H]; [discriminate|]). exact H.
Defined.

Lemma closePort_buffer (d : Driver) (r : Reader) :
  dataBuffer (closePort d r) = dataBuffer r.
Proof.
  unfold closePort. cbn [port emit]. destruct (port r) as [[|]|]; try reflexivity.
  destruct (closeDelay _ >? 0).
  - destruct (closeSetThrows d); [reflexivity|]. destruct (closeOutcome d); reflexivity.
  - destruct (closeOutcome d); reflexivity.
Qed.

Lemma noReadingYet_without_terminator {E : RegExpEngine}
    (r : Reader) (buf : str) (chunks : list str) :
  Forall (fun chunk => includes CR chunk = false) chunks -> noReadingYet r buf chunks.
Proof.
  intros Hall. revert buf. induction Hall as [|x t Hx _ IH]; intros buf; [exact I|].
  split; [|apply IH]. unfold lineScan. rewrite Hx. reflexivity.
Qed.

(** X13.  In line mode nothing is read before a terminator arrives: a
    session whose chunks hold no terminator returns the timeout failure,
    and all it received is still in the buffer, however much that is. *)
Theorem line_mode_needs_terminator {E : RegExpEngine}
    (d : Driver) (r : Reader) (chunks : list str) :
  isFrame (config r) = false -> ctorError d = None -> openError d = None ->
  incoming d = map Data chunks ->
  Forall (fun chunk => includes CR chunk = false) chunks ->
  snd (readWeight d r)
  = Some (Failure (timeoutMessage (config r)) (now_end d - now_start d)) /\
  dataBuffer (fst (readWeight d r)) = List.concat chunks.
Proof.
  intros Hf Hc Ho Hin Hall.
  pose proof (openPort_config d r) as Hoc.
  set (r0 := setBuffer [] (snd (openPort d r))).
  assert (Hf0 : isFrame (config r0) = false) by (cbn; rewrite Hoc; exact Hf).
  destruct (run_line_noReadingYet chunks r0 freshCollect Hf0 eq_refl eq_refl
              (noReadingYet_without_terminator r0 _ chunks Hall)) as (_ & H2 & H3 & _).
  cbn [dataBuffer r0 setBuffer app] in H2.
  assert (Hrun : collectRun d (snd (openPort d r))
                 = fold_left deliver (map Data chunks) (r0, freshCollect))
    by (unfold collectRun; rewrite Hin; reflexivity).
  assert (Hh : errorsHandled d r) by (apply errorsHandled_line; exact Hf).
  split.
  - apply readWeight_unsettled; try assumption. rewrite Hrun. exact H3.
  - rewrite readWeight_handled by (intros _ _; exact Hh).
    assert (Hopen : fst (openPort d r) = inr tt)
      by (unfold openPort; rewrite Hc, Ho; reflexivity).
    destruct (openPort d r) as [o r1]. cbn [fst snd] in *. subst o.
    pose proof (collectData_timer_rejects d r1) as Hres.
    pose proof (collectData_result d r1) as Hfull.
    rewrite Hrun, H3 in Hres.
    destruct (collectData d r1) as [v r2]. cbn [fst] in Hres. subst v.
    injection Hfull as _ ->. unfold readFailed. cbn [fst].
    rewrite closePort_buffer. cbn [dataBuffer emit]. rewrite Hrun. exact H2.
Qed.

Lemma line_mode_needs_terminator_witness :
  snd (readWeight (quietDriver (map Data [lit "D0022"; lit "60"])) (newReader coquimbito))
  = Some (Failure (lit "Timeout: No valid weight data received in 3000ms") 0).
Proof.
  destruct (@line_mode_needs_terminator MiniEngine
              (quietDriver (map Data [lit "D0022"; lit "60"])) (newReader coquimbito)
              [lit "D0022"; lit "60"]) as [H _].
  - reflexivity.
  - reflexivity.
  - reflexivity.
  - reflexivity.
  - repeat constructor.
  - exact H.
Defined.

(** ** The order of the port operations in a session *)

Section TraceFacts.

Context {E : RegExpEngine}.

Lemma applyRegexFilter_quiet (data : str) (r : Reader) :
  compiles (config r) -> snd (applyRegexFilter data r) = r.
Proof.
  intros Hc. unfold applyRegexFilter.
  destruct (truthy (regexFilter (config r))) eqn:Ht; cbn [negb]; [|reflexivity].
  destruct Hc as [Hc|Hc]; [congruence|].
  destruct (RegExp_new (regexFilter (config r))); [|congruence].
  destruct (RegExp_exec r0 data) as [[m0 m1]|]; [|reflexivity].
  destruct (parseInt10 (weightStrOf m0 m1)); reflexivity.
Qed.

Lemma clearOldData_trace (r : Reader) : trace (clearOldData r) = trace r.
Proof.
  unfold clearOldData. destruct (len (dataBuffer r) >? 1000); [|reflexivity].
  destruct (negb (lastIndexOf STX (dataBuffer r) =? -1)); reflexivity.
Qed.

Lemma processFrameProtocol_quiet (data : str) (r : Reader) :
  compiles (config r) -> trace (snd (processFrameProtocol data r)) = trace r.
Proof.
  intros Hc. unfold processFrameProtocol.
  destruct (negb (lastIndexOf STX (dataBuffer r) =? -1)); cbn [snd];
    [|apply clearOldData_trace].
  destruct (negb (indexOf ETX _ =? -1)); cbn [snd]; [|apply clearOldData_trace].
  match goal with |- context [applyRegexFilter ?f r] =>
    pose proof (applyRegexFilter_quiet f r Hc) as Hq;
    destruct (applyRegexFilter f r) as [[w|] r1] end; cbn [snd] in *; subst r1.
  - reflexivity.
  - apply clearOldData_trace.
Qed.

Lemma scanLines_quiet (lines : list str) (r : Reader) :
  compiles (config r) -> trace (snd (scanLines lines r)) = trace r.
Proof.
  intros Hc. induction lines as [|line rest IH]; cbn [scanLines]; [reflexivity|].
  destruct (truthy (trim line)); [|exact IH].
  pose proof (applyRegexFilter_quiet (line ++ [CR]) r Hc) as Hq.
  destruct (applyRegexFilter (line ++ [CR]) r) as [[w|] r1]; cbn [snd] in *; subst r1.
  - reflexivity.
  - exact IH.
Qed.

Lemma deliver_quiet (r : Reader) (c : Collect) (ev : PortEvent) :
  compiles (config r) -> trace (fst (deliver (r, c) ev)) = trace r.
Proof.
  intros Hc. destruct ev as [chunk|msg]; cbn [deliver].
  - destruct (onData c); [|reflexivity]. unfold dataHandler.
    set (r0 := setBuffer (dataBuffer r ++ chunk) r).
    assert (Hq : trace (snd (decodeChunk chunk r0)) = trace r).
    { unfold decodeChunk. destruct (isFrame (config r0)).
      - apply (processFrameProtocol_quiet chunk r0). exact Hc.
      - unfold processLineProtocol. destruct (includes CR chunk); [|reflexivity].
        apply (scanLines_quiet _ r0). exact Hc. }
    destruct (decodeChunk chunk r0) as [[w|] r1]; cbn [snd] in Hq; [|exact Hq].
    destruct (isFrame (config r1)); exact Hq.
  - destruct (onError c); reflexivity.
Qed.

Lemma run_quiet (evs : list PortEvent) (r : Reader) (c : Collect) :
  compiles (config r) -> trace (fst (fold_left deliver evs (r, c))) = trace r.
Proof.
  revert r c. induction evs as [|ev evs IH]; intros r c Hc; cbn [fold_left];
    [reflexivity|].
  pose proof (deliver_quiet r c ev Hc) as Hq.
  pose proof (deliver_device r c ev) as (Hcfg & _).
  destruct (deliver (r, c) ev) as [r1 c1]. cbn [fst] in *.
  rewrite IH; [exact Hq | rewrite Hcfg; exact Hc].
Qed.

Lemma collectData_quiet (d : Driver) (r : Reader) :
  compiles (config r) -> trace (snd (collectData d r)) = trace r.
Proof.
  intros Hc. rewrite collectData_result. cbn [snd]. unfold collectRun.
  rewrite run_quiet; [reflexivity | exact Hc].
Qed.

Lemma closePort_trace (d : Driver) (r : Reader) :
  port r = Some true ->
  trace (closePort d r) = trace r ++ closeSequence d (config r).
Proof.
  intros Hp. unfold closePort, closeSequence. cbn [port emit config]. rewrite Hp.
  destruct (closeDelay (config r) >? 0).
  - destruct (closeSetThrows d); [cbn; rewrite <- !app_assoc; reflexivity|].
    unfold closeLog.
    destruct (closeOutcome d); cbn; rewrite <- !app_assoc; reflexivity.
  - unfold closeLog.
    destruct (closeOutcome d); cbn; rewrite <- !app_assoc; reflexivity.
Qed.

End TraceFacts.

(** X14.  The whole order of a session whose pattern raises no exception,
    whose port object is constructed and whose error events all find the
    listener attached: construct, open; if that fails, log the failure and
    enter [closePort] without touching the port; otherwise set the
    signals, wait, collect without a call on the port, log the failure if
    there is one, and run the close sequence on the open port. *)
Theorem session_order {E : RegExpEngine} (d : Driver) (r : Reader) :
  compiles (config r) -> ctorError d = None ->
  (openError d = None -> errorsHandled d r) ->
  trace (fst (readWeight d r))
  = trace r ++ [newSerialPort (config r); EOpen] ++
    match openError d with
    | Some msg => [EErrorReadFailed (openFailedMessage (config r) msg); EClosePort]
    | None =>
        [ESet (dtr (config r)) (rts (config r)) (Some false)] ++ openWarning d ++
        [EWait (openDelay (config r))] ++ failureLog (snd (readWeight d r)) ++
        closeSequence d (config r)
    end.
Proof.
  intros Hcomp Hc Hh. rewrite readWeight_handled by (intros _; exact Hh).
  unfold openPort. rewrite Hc.
  destruct (openError d) as [msg|] eqn:Ho.
  - unfold readFailed. cbn [fst]. rewrite closePort_noop by (cbn; discriminate).
    cbn. rewrite <- !app_assoc. reflexivity.
  - set (r4 := emit (EWait (openDelay (config r))) _).
    assert (Ht4 : trace r4 = trace r ++ [newSerialPort (config r); EOpen;
                    ESet (dtr (config r)) (rts (config r)) (Some false)]
                    ++ openWarning d ++ [EWait (openDelay (config r))]).
    { unfold r4, openWarning. destruct (openSetError d); cbn;
        rewrite <- !app_assoc; reflexivity. }
    assert (Hc4 : config r4 = config r)
      by (unfold r4; destruct (openSetError d); reflexivity).
    assert (Hp4 : port r4 = Some true)
      by (unfold r4; destruct (openSetError d); reflexivity).
    pose proof (collectData_device d r4) as (Hcfg & Hport & _).
    pose proof (collectData_quiet d r4) as Hq.
    rewrite Hc4 in Hq. specialize (Hq Hcomp).
    destruct (collectData_settles d r4) as [v Hv].
    destruct (collectData d r4) as [[[msg|res]|] r2]; cbn [fst snd] in *.
    + unfold readFailed. cbn [fst snd failureLog].
      rewrite closePort_trace by (cbn; congruence).
      cbn [trace emit config]. rewrite Hq, Ht4, Hcfg, Hc4, <- !app_assoc. reflexivity.
    + cbn [failureLog]. rewrite closePort_trace by congruence.
      rewrite Hq, Ht4, Hcfg, Hc4, <- !app_assoc. reflexivity.
    + discriminate Hv.
Qed.

Lemma session_order_witness :
  trace (fst (readWeight (quietDriver [Data (lit "no weight")]) (newReader sanJuan)))
  = [newSerialPort sanJuan; EOpen; ESet false false (Some false); EWait 50;
     EErrorReadFailed (lit "Timeout: No valid weight data received in 3000ms");
     EClosePort; ESet false false None; EWait 50; EClose].
Proof.
  rewrite (@session_order MiniEngine (quietDriver [Data (lit "no weight")])
             (newReader sanJuan)).
  - vm_compute. reflexivity.
  - right. vm_compute. discriminate.
  - reflexivity.
  - intros _. reflexivity.
Defined.

(** ** The loaded configuration *)

Lemma numberSetting_cases (v : JSValue) (dflt : Z) :
  dflt <> 0 ->
  numberSetting v dflt <> 0 /\
  (numberSetting v dflt = dflt \/
   parseIntAuto (toText v) = Some (numberSetting v dflt)).
Proof.
  intros Hd. unfold numberSetting.
  destruct (parseIntAuto (toText v)) as [z|]; [|auto].
  destruct (z =? 0) eqn:Hz; [auto|]. apply Z.eqb_neq in Hz. auto.
Qed.

(** X15.  No numeric setting of a loaded configuration is 0: each is its
    default, or the non-zero integer that [parseInt] reads at the start of
    the property's text.  A property that is absent, that does not start
    with a number, or whose number is 0 gives the default. *)
Theorem loaded_numbers_are_never_zero
    (configPath : str) (env : LoadEnv) (lc : LoadedConfig) :
  loadConfiguration configPath env = inr lc ->
  Forall (fun '(z, key, dflt) =>
            z <> 0 /\
            (z = dflt \/ parseIntAuto (toText (getKey env key)) = Some z))
    [(l_baudRate lc, "serial.baudRate"%string, 9600);
     (l_dataBits lc, "serial.dataBits"%string, 8);
     (l_stopBits lc, "serial.stopBits"%string, 1);
     (l_openDelay lc, "serial.openDelay"%string, 50);
     (l_closeDelay lc, "serial.closeDelay"%string, 50);
     (l_readTimeout lc, "read.timeout"%string, 3000)].
Proof.
  unfold loadConfiguration. destruct (existsSync env); cbn [negb]; [|discriminate].
  destruct (readerError env); [discriminate|]. intros H. injection H as <-.
  cbn [l_baudRate l_dataBits l_stopBits l_openDelay l_closeDelay l_readTimeout].
  repeat (apply Forall_cons; [apply numberSetting_cases; discriminate|]).
  apply Forall_nil.
Qed.

Lemma loaded_numbers_are_never_zero_witness :
  match loadConfiguration (lit "config.properties")
          (sampleEnv [("serial.closeDelay"%string, JNumber 0);
                      ("read.timeout"%string, JNumber 10000)]) with
  | inr lc => l_closeDelay lc <> 0
  | inl _ => False
  end.
Proof.
  destruct (loadConfiguration (lit "config.properties")
              (sampleEnv [("serial.closeDelay"%string, JNumber 0);
                      ("read.timeout"%string, JNumber 10000)]))
    as [msg|lc] eqn:Hl.
  - vm_compute in Hl. discriminate Hl.
  - pose proof (loaded_numbers_are_never_zero _ _ lc Hl) as HF.
    rewrite Forall_forall in HF.
    apply (HF (l_closeDelay lc, "serial.closeDelay"%string, 50)).
    right. right. right. right. left. reflexivity.
Defined.

Lemma asConfig_delays (lc : LoadedConfig) (cfg : Config) :
  asConfig lc = Some cfg ->
  closeDelay cfg = l_closeDelay lc /\ openDelay cfg = l_openDelay lc /\
  dtr cfg = l_dtr lc /\ rts cfg = l_rts lc.
Proof.
  unfold asConfig.
  destruct (l_port lc); [|discriminate]. destruct (l_parity lc); [|discriminate].
  destruct (l_protocolType lc); [|discriminate].
  destruct (l_regexFilter lc); [|discriminate].
  destruct (l_logLevel lc); [|discriminate].
  intros H. injection H as <-. auto.
Qed.

(** X17.  With a loaded configuration the close delay cannot be switched
    off by writing 0: that gives 50.  Unless the property is a negative
    number the delay is positive, and [closePort] on an open port then
    always sets the signals from the [serial.dtr] and [serial.rts]
    properties again, waits the delay and closes. *)
Theorem loaded_close_delay_keeps_signals
    (configPath : str) (env : LoadEnv) (lc : LoadedConfig) (cfg : Config)
    (d : Driver) (r : Reader) :
  loadConfiguration configPath env = inr lc ->
  asConfig lc = Some cfg ->
  (forall z, parseIntAuto (toText (getKey env "serial.closeDelay")) = Some z -> 0 <= z) ->
  closeDelay cfg > 0 /\
  (parseIntAuto (toText (getKey env "serial.closeDelay")) = Some 0 ->
   closeDelay cfg = 50) /\
  (config r = cfg -> port r = Some true -> closeSetThrows d = None ->
   trace (closePort d r)
   = trace r ++ [EClosePort;
                 ESet (flagSetting (getKey env "serial.dtr"))
                      (flagSetting (getKey env "serial.rts")) None;
                 EWait (closeDelay cfg); EClose] ++ closeLog d).
Proof.
  intros Hl Ha Hpos.
  destruct (asConfig_delays lc cfg Ha) as (Hcd & _ & Hdtr & Hrts).
  assert (Hfields : l_closeDelay lc = numberSetting (getKey env "serial.closeDelay") 50 /\
                    l_dtr lc = flagSetting (getKey env "serial.dtr") /\
                    l_rts lc = flagSetting (getKey env "serial.rts")).
  { revert Hl. unfold loadConfiguration.
    destruct (existsSync env); cbn [negb]; [|discriminate].
    destruct (readerError env); [discriminate|]. intros H. injection H as <-. auto. }
  destruct Hfields as (Hn & Hd1 & Hr1).
  assert (Hgt : closeDelay cfg > 0).
  { rewrite Hcd, Hn.
    destruct (numberSetting_cases (getKey env "serial.closeDelay") 50) as [Hnz [->|Hp]];
      [discriminate | lia|].
    specialize (Hpos _ Hp). lia. }
  split; [exact Hgt|]. split.
  - intros Hz. rewrite Hcd, Hn. unfold numberSetting. rewrite Hz. reflexivity.
  - intros Hc Hp Hs. rewrite (closePort_trace d r Hp). unfold closeSequence.
    rewrite Hc. apply Z.gtb_gt in Hgt. rewrite Hgt, Hs, Hdtr, Hrts, Hd1, Hr1.
    reflexivity.
Qed.

Lemma loaded_close_delay_keeps_signals_witness :
  match loadConfiguration (lit "config.properties")
          (sampleEnv [("serial.closeDelay"%string, JNumber 0);
                      ("serial.dtr"%string, JTrue)]) with
  | inr lc =>
      match asConfig lc with
      | Some cfg =>
          trace (closePort (quietDriver []) (openReader cfg))
          = [EClosePort; ESet false false None; EWait 50; EClose]
      | None => False
      end
  | inl _ => False
  end.
Proof.
  destruct (loadConfiguration (lit "config.properties")
              (sampleEnv [("serial.closeDelay"%string, JNumber 0);
                      ("serial.dtr"%string, JTrue)]))
    as [msg|lc] eqn:Hl; [vm_compute in Hl; discriminate Hl|].
  destruct (asConfig lc) as [cfg|] eqn:Ha.
  - destruct (loaded_close_delay_keeps_signals _ _ lc cfg (quietDriver []) (openReader cfg)
                Hl Ha) as (_ & H50 & Ht).
    + intros z Hz. vm_compute in Hz. injection Hz as <-. lia.
    + rewrite (Ht eq_refl eq_refl eq_refl), (H50 eq_refl). reflexivity.
  - vm_compute in Hl. injection Hl as <-. vm_compute in Ha. discriminate Ha.
Defined.

(** ** Frames that the decoder passes over *)

Section FrameSkips.

Context {E : RegExpEngine}.

Lemma processFrameProtocol_unfinished (data pre tail : str) (r : Reader) :
  dataBuffer r = pre ++ STX :: tail -> ~ In STX tail -> ~ In ETX tail ->
  processFrameProtocol data r = (None, clearOldData r).
Proof.
  intros Hb Hs He. unfold processFrameProtocol. cbv zeta.
  rewrite Hb, (lastIndexOf_last STX pre tail Hs).
  replace (len pre =? -1) with false
    by (symmetry; apply Z.eqb_neq; pose proof (len_nonneg pre); lia).
  cbn [negb]. rewrite substring_app, indexOf_absent; [reflexivity|].
  intros [Hx|Hx]; [discriminate Hx | tauto].
Qed.

Lemma processFrameProtocol_rejected (data pre body post : str) (r : Reader) :
  dataBuffer r = pre ++ STX :: body ++ ETX :: post ->
  ~ In STX body -> ~ In ETX body -> ~ In STX post ->
  fst (applyRegexFilter (STX :: body ++ [ETX]) r) = None ->
  fst (processFrameProtocol data r) = None /\
  exists pre',
    dataBuffer (snd (processFrameProtocol data r)) = pre' ++ STX :: body ++ ETX :: post.
Proof.
  intros Hb Hs He Hp Hw.
  assert (Htail : ~ In STX (body ++ ETX :: post)).
  { intros Hi. apply in_app_or in Hi as [Hi|[Hi|Hi]]; [tauto | discriminate Hi | tauto]. }
  assert (Hetx : indexOf ETX (STX :: body ++ ETX :: post) = len (STX :: body)).
  { change (STX :: body ++ ETX :: post) with ((STX :: body) ++ ETX :: post).
    apply indexOf_first. simpl. intros [?|?]; [discriminate | tauto]. }
  assert (Hframe : substring2 0 (len (STX :: body) + 1) (STX :: body ++ ETX :: post)
                   = STX :: body ++ [ETX]).
  { replace (len (STX :: body) + 1) with (len ((STX :: body) ++ [ETX]))
      by (rewrite len_app; reflexivity).
    change (STX :: body ++ ETX :: post) with ((STX :: body) ++ [ETX] ++ post).
    rewrite app_assoc. apply substring2_prefix. }
  assert (Heq : processFrameProtocol data r
                = (None, clearOldData (snd (applyRegexFilter (STX :: body ++ [ETX]) r)))).
  { unfold processFrameProtocol. cbv zeta.
    rewrite Hb, (lastIndexOf_last STX pre _ Htail).
    replace (len pre =? -1) with false
      by (symmetry; apply Z.eqb_neq; pose proof (len_nonneg pre); lia).
    cbn [negb]. rewrite !substring_app, Hetx.
    replace (len (STX :: body) =? -1) with false
      by (symmetry; apply Z.eqb_neq; pose proof (len_nonneg (STX :: body)); lia).
    cbn [negb]. rewrite Hframe.
    destruct (applyRegexFilter (STX :: body ++ [ETX]) r) as [o r1].
    cbn [fst snd] in *. subst o. reflexivity. }
  rewrite Heq. cbn [fst snd]. split; [reflexivity|].
  pose proof (applyRegexFilter_fields (STX :: body ++ [ETX]) r) as (_ & _ & Hb1).
  set (r1 := snd (applyRegexFilter (STX :: body ++ [ETX]) r)) in *.
  destruct (Z_le_gt_dec (len (dataBuffer r1)) 1000) as [Hl|Hl].
  - rewrite clearOldData_small by assumption. exists pre. congruence.
  - rewrite (clearOldData_marker r1 pre (body ++ ETX :: post) Hl);
      [exists []; reflexivity | congruence | exact Htail].
Qed.

Lemma run_frame_rejected (chunks : list str) (first pre body post : str)
    (r : Reader) (c : Collect) :
  isFrame (config r) = true -> settled c = None -> onData c = true ->
  dataBuffer r ++ first = pre ++ STX :: body ++ ETX :: post ->
  ~ In STX body -> ~ In ETX body -> ~ In STX post ->
  fst (applyRegexFilter (STX :: body ++ [ETX]) r) = None ->
  Forall (fun chunk => ~ In STX chunk) chunks ->
  settled (snd (fold_left deliver (map Data (first :: chunks)) (r, c))) = None.
Proof.
  intros Hf Hs Hon Hb Hbs Hbe Hp Hw Hall.
  revert first pre post r c Hf Hs Hon Hb Hp Hw.
  induction Hall as [|chunk rest Hx _ IH]; intros first pre post r c Hf Hs Hon Hb Hp Hw;
    cbn [map fold_left];
    set (r0 := setBuffer (dataBuffer r ++ first) r);
    assert (Hw0 : fst (applyRegexFilter (STX :: body ++ [ETX]) r0) = None)
      by (rewrite <- Hw; apply applyRegexFilter_config_only; reflexivity);
    destruct (processFrameProtocol_rejected first pre body post r0
                Hb Hbs Hbe Hp Hw0) as (Hnone & pre' & Hb1);
    pose proof (processFrameProtocol_device first r0) as (Hc1 & _);
    assert (Hstep : deliver (r, c) (Data first)
                    = (snd (processFrameProtocol first r0),
                       setWeights None (lastValidWeight c) c))
      by (unfold deliver; rewrite Hon; unfold dataHandler, decodeChunk; fold r0;
          cbn [config r0 setBuffer]; rewrite Hf;
          destruct (processFrameProtocol first r0) as [o r1]; cbn [fst snd] in *;
          subst o; reflexivity);
    rewrite Hstep.
  - exact Hs.
  - apply (IH chunk pre' (post ++ chunk)); try assumption.
    + rewrite Hc1. exact Hf.
    + rewrite Hb1, <- app_assoc. cbn [app]. rewrite <- app_assoc. reflexivity.
    + intros Hi. apply in_app_or in Hi as [Hi|Hi]; tauto.
    + rewrite <- Hw. apply applyRegexFilter_config_only. rewrite Hc1. reflexivity.
Qed.

End FrameSkips.

(** X18.  A complete frame that the pattern rejects stays the frame under
    evaluation until a new start marker arrives: whatever follows it
    without a start marker, end markers included, is never read, and such
    a session returns the timeout failure. *)
Theorem rejected_frame_blocks_until_next_start {E : RegExpEngine}
    (d : Driver) (r : Reader) (first pre body post : str) (chunks : list str) :
  isFrame (config r) = true -> ctorError d = None -> openError d = None ->
  incoming d = map Data (first :: chunks) ->
  first = pre ++ STX :: body ++ ETX :: post ->
  ~ In STX body -> ~ In ETX body -> ~ In STX post ->
  fst (applyRegexFilter (STX :: body ++ [ETX]) r) = None ->
  Forall (fun chunk => ~ In STX chunk) chunks ->
  snd (readWeight d r)
  = Some (Failure (timeoutMessage (config r)) (now_end d - now_start d)).
Proof.
  intros Hf Hc Ho Hin Hfirst Hs He Hp Hw Hall.
  assert (Hh : errorsHandled d r).
  { apply errorsHandled_data. rewrite Hin, <- (app_nil_r (map Data (first :: chunks))).
    apply noPortError_data. intros msg []. }
  apply readWeight_unsettled; try assumption.
  unfold collectRun. rewrite Hin.
  pose proof (openPort_config d r) as Hoc.
  apply (run_frame_rejected chunks first pre body post
           (setBuffer [] (snd (openPort d r))) freshCollect);
    try reflexivity; try assumption.
  - cbn. rewrite Hoc. exact Hf.
  - rewrite <- Hw. apply applyRegexFilter_config_only. cbn. exact Hoc.
Qed.

Lemma rejected_frame_blocks_until_next_start_witness :
  snd (readWeight
         (quietDriver (map Data [[STX] ++ lit "ERR" ++ [ETX];
                                 lit "1" ++ [CR; LF] ++ lit "20450" ++ [CR; LF]
                                 ++ lit "0" ++ [ETX]]))
         (newReader sanJuan))
  = Some (Failure (lit "Timeout: No valid weight data received in 3000ms") 0).
Proof.
  apply (@rejected_frame_blocks_until_next_start MiniEngine
           (quietDriver (map Data [[STX] ++ lit "ERR" ++ [ETX];
                                   lit "1" ++ [CR; LF] ++ lit "20450" ++ [CR; LF]
                                   ++ lit "0" ++ [ETX]]))
           (newReader sanJuan) ([STX] ++ lit "ERR" ++ [ETX]) [] (lit "ERR") []
           [lit "1" ++ [CR; LF] ++ lit "20450" ++ [CR; LF] ++ lit "0" ++ [ETX]]).
  - reflexivity.
  - reflexivity.
  - reflexivity.
  - reflexivity.
  - reflexivity.
  - simpl. intros H. repeat (destruct H as [H|H]; [discriminate|]). exact H.
  - simpl. intros H. repeat (destruct H as [H|H]; [discriminate|]). exact H.
  - simpl. intros H. exact H.
  - vm_compute. reflexivity.
  - constructor; [|constructor].
    simpl. intros H. repeat (destruct H as [H|H]; [discriminate|]). exact H.
Defined.

(** X19.  An unfinished last frame hides every frame before it: when the
    text after the last start marker holds no end marker, the frame
    decoder returns nothing, whatever complete frames the buffer holds
    before that start marker. *)
Theorem unfinished_frame_hides_earlier_frames {E : RegExpEngine}
    (data pre tail : str) (r : Reader) :
  dataBuffer r = pre ++ STX :: tail -> ~ In STX tail -> ~ In ETX tail ->
  processFrameProtocol data r = (None, clearOldData r).
Proof. apply processFrameProtocol_unfinished. Qed.

Lemma unfinished_frame_hides_earlier_frames_witness :
  fst (processFrameProtocol [STX] (setBuffer (frameSample ++ [STX]) (newReader sanJuan)))
  = None.
Proof.
  rewrite (@unfinished_frame_hides_earlier_frames MiniEngine [STX] frameSample []
             (setBuffer (frameSample ++ [STX]) (newReader sanJuan))).
  - reflexivity.
  - reflexivity.
  - simpl. intros H. exact H.
  - simpl. intros H. exact H.
Defined.

(** ** An error event after a frame-mode reading *)

Section UnhandledFacts.

Context {E : RegExpEngine}.

Lemma Step_unhandled_stable (r : Reader) (c : Collect) (ev : PortEvent)
    (r1 : Reader) (c1 : Collect) (m : str) :
  Step r c ev r1 c1 -> unhandled c = Some m -> unhandled c1 = Some m.
Proof. intros HS Hu. destruct HS; simpl; rewrite ?Hu; auto. Qed.

Lemma run_unhandled_stable (evs : list PortEvent) (r : Reader) (c : Collect) (m : str) :
  unhandled c = Some m -> unhandled (snd (fold_left deliver evs (r, c))) = Some m.
Proof.
  revert r c. induction evs as [|ev evs IH]; intros r c Hu; cbn [fold_left]; [assumption|].
  deliver_cases r c ev r1 c1 HS. apply IH.
  eapply Step_unhandled_stable; eassumption.
Qed.

Lemma run_no_listener (chunks : list str) (r : Reader) (c : Collect) :
  onData c = false -> fold_left deliver (map Data chunks) (r, c) = (r, c).
Proof.
  intros Hon. induction chunks as [|chunk rest IH]; cbn [map fold_left]; [reflexivity|].
  unfold deliver at 2. rewrite Hon. exact IH.
Qed.

End UnhandledFacts.

(** X20.  In frame mode the chunk that yields the reading removes the
    ['error'] listener while the port is still open.  So when the port
    emits an error after that chunk, with or without data in between, the
    event finds no listener and is thrown: [readWeight] does not return,
    although the promise of [collectData] was resolved with the reading. *)
Theorem error_after_frame_reading_is_unhandled {E : RegExpEngine}
    (d : Driver) (r : Reader) (data pre body post : str) (between : list str)
    (after : list PortEvent) (msg : str) (w : Z) :
  isFrame (config r) = true -> ctorError d = None -> openError d = None ->
  incoming d = Data data :: map Data between ++ PortError msg :: after ->
  data = pre ++ STX :: body ++ ETX :: post ->
  ~ In STX body -> ~ In ETX body -> ~ In STX post ->
  fst (applyRegexFilter (STX :: body ++ [ETX]) r) = Some w ->
  fst (collectData d (snd (openPort d r)))
  = Some (inr {| weight := w; rawData := post |}) /\
  unhandled (snd (collectRun d (snd (openPort d r)))) = Some msg /\
  snd (readWeight d r) = None.
Proof.
  intros Hf Hc Ho Hin Hb Hs He Hp Hw.
  pose proof (openPort_config d r) as Hoc.
  assert (Hopen : fst (openPort d r) = inr tt)
    by (unfold openPort; rewrite Hc, Ho; reflexivity).
  set (r0 := snd (openPort d r)) in *.
  assert (Hf0 : isFrame (config r0) = true) by (rewrite Hoc; exact Hf).
  assert (Hw0 : fst (applyRegexFilter (STX :: body ++ [ETX]) r0) = Some w).
  { rewrite <- Hw. apply applyRegexFilter_config_only. exact Hoc. }
  pose proof (decodeChunk_frame_span data data pre body post w r0 Hf0 Hb Hs He Hp Hw0)
    as Hd.
  destruct (dataHandler_reading data (setBuffer [] r0) (setBuffer post r0) freshCollect w
              eq_refl Hd) as (H1 & H2 & _ & _ & H5).
  destruct (H5 Hf0) as [Hnd Hne].
  pose proof (deliver_step (setBuffer [] r0) freshCollect (Data data)) as HS.
  change (deliver (setBuffer [] r0, freshCollect) (Data data))
    with (dataHandler data (setBuffer [] r0) freshCollect) in HS.
  pose proof (Step_handled_data _ _ _ _ _ HS eq_refl) as Hu.
  assert (Hrun : collectRun d r0
                 = fold_left deliver after
                     (fst (dataHandler data (setBuffer [] r0) freshCollect),
                      throwUnhandled msg
                        (snd (dataHandler data (setBuffer [] r0) freshCollect)))).
  { unfold collectRun. rewrite Hin. cbn [fold_left].
    change (deliver (setBuffer [] r0, freshCollect) (Data data))
      with (dataHandler data (setBuffer [] r0) freshCollect).
    destruct (dataHandler data (setBuffer [] r0) freshCollect) as [r1 c1].
    cbn [fst snd] in *.
    rewrite fold_left_app, (run_no_listener between r1 c1 Hnd). cbn [fold_left].
    unfold deliver at 2. rewrite Hne. reflexivity. }
  assert (Hun : unhandled (snd (collectRun d r0)) = Some msg).
  { rewrite Hrun. apply run_unhandled_stable. simpl. rewrite Hu. reflexivity. }
  split; [|split; [exact Hun|]].
  - rewrite collectData_timer_rejects, Hrun.
    rewrite (run_stable after _ _ (inr {| weight := w; rawData := post |}));
      [reflexivity|].
    simpl. exact H2.
  - unfold readWeight. fold r0.
    destruct (openPort d r) as [o r1]. cbn [fst snd] in *. subst o r0.
    rewrite Hun. reflexivity.
Qed.

Lemma error_after_frame_reading_is_unhandled_witness :
  snd (readWeight (quietDriver [Data frameSample; PortError (lit "unplugged")])
         (newReader sanJuan))
  = None.
Proof.
  destruct (@error_after_frame_reading_is_unhandled MiniEngine
              (quietDriver [Data frameSample; PortError (lit "unplugged")])
              (newReader sanJuan) frameSample (STX :: lit "garbage")
              (lit "1" ++ [CR; LF] ++ lit "20450" ++ [CR; LF] ++ lit "0") [] [] []
              (lit "unplugged") 20450) as (_ & _ & H).
  - reflexivity.
  - reflexivity.
  - reflexivity.
  - reflexivity.
  - reflexivity.
  - simpl. intros H. repeat (destruct H as [H|H]; [discriminate|]). exact H.
  - simpl. intros H. repeat (destruct H as [H|H]; [discriminate|]). exact H.
  - simpl. intros H. exact H.
  - vm_compute. reflexivity.
  - exact H.
Defined.
